(** * Affinity statistics engine: incremental cache and batch analyzer

    A shallow embedding of [incremental_affinity_updater.py] and
    [market_basket_analyzer.py].

    - Python [int] counters are [Z].
    - A Python [float] is a [float]: a finite value (the rational it
      stands for), an infinity or a NaN.  Every division rounds: [a / b]
      on two [int]s is the binary64 value nearest to the quotient (ties to
      even), [ZeroDivisionError] when [b] is zero and [OverflowError] when
      the rounded quotient is out of range; [x / y] on two [float]s is the
      IEEE 754 quotient, [ZeroDivisionError] when [y] is zero.  So
      [3 / 5] is the double [0.6], [4 / 5] the double [0.8] and their
      quotient is [0.7499999999999999], below [0.75].  The rounding is
      [round64]; it is compared with [SFdiv] of the standard library on
      sample quotients.  The sign of a zero is not kept: [-0.0 == 0.0]
      in Python, and the program only divides and compares.
    - The rounding is a parameter, [Arithmetic], with two instances:
      [binary64], what the interpreter does and the instance of every
      statement about the code, and [exact_arithmetic], no rounding, for
      the one statement that is about exact rationals.
    - The two thresholds are rationals: every finite [float] is one.
    - [defaultdict(int)] is a [gmap] whose subscript read inserts the
      default [0] under a missing key, which is what the interpreter does.
      A [gmap] is visited in the order of [map_to_list], not in the order
      of insertion; the rows of a rule table are therefore compared up to
      their order.
    - A basket ([Set[str]]) is a [gset string]; [sorted] is a merge sort
      for the lexicographic order of strings.
    - Methods that read or write [self] are state passing functions; the
      ones that can raise return a [result].
    - Of a [pandas.DataFrame] only the column labels and the rows of a rule
      table are kept; a table of line items is the list of its rows. *)

From Stdlib Require Import QArith Qround Qpower Qreduction Lqa SpecFloat.
From stdpp Require Import gmap strings list fin_maps sorting.

#[local] Set Warnings "-clear-no-such-hyp".

Local Open Scope Z_scope.

(** ** Python's order on [str] and [sorted] *)

Definition str_le (a b : string) : Prop := String.leb a b = true.

Global Instance str_le_dec : RelDecision str_le.
Proof. intros a b. unfold str_le. apply _. Defined.

Definition sorted (l : list string) : list string := merge_sort str_le l.

(** The strict order: what [i < j] means in a sorted list without
    duplicates. *)
Definition str_lt (a b : string) : Prop := str_le a b ∧ a ≠ b.

Global Instance str_lt_dec : RelDecision str_lt.
Proof. intros a b. unfold str_lt. apply _. Defined.

(** [tuple(sorted(itemset))] for a two element [itemset]. *)
Definition sorted_pair (a b : string) : string * string :=
  match sorted [a; b] with
  | [x; y] => (x, y)
  | _ => (a, b)
  end.

(** [itertools.combinations(l, 2)]: the pairs [(l[i], l[j])], [i < j], in
    lexicographic order of the positions. *)
Fixpoint combinations2 {A} (l : list A) : list (A * A) :=
  match l with
  | [] => []
  | x :: t => map (pair x) t ++ combinations2 t
  end.

(** The nested loop [for i in range(len(l)): for j in range(i + 1, len(l))]
    collecting [(l[i], l[j])]. *)
Definition index_pairs (l : list string) : list (string * string) :=
  flat_map
    (fun i => map (fun j => (nth i l EmptyString, nth j l EmptyString))
                  (seq (i + 1) (length l - (i + 1))))
    (seq 0 (length l)).

(** The pairs one basket contributes to [pair_counts]. *)
Definition basket_pairs (basket : gset string) : list (string * string) :=
  index_pairs (sorted (elements basket)).

(** ** Exceptions and results *)

Inductive exn : Type :=
  | ZeroDivisionError
  | OverflowError
  | KeyError (key : string)
  | RuntimeError.

Inductive result (A : Type) : Type :=
  | Ok (a : A)
  | Raise (e : exn).
Arguments Ok {A} a.
Arguments Raise {A} e.

(** ** Python's [float] *)

Inductive float : Type :=
  | Finite (q : Q)
  | Infinity (negative : bool)
  | NaN.

(** The four outcomes of an IEEE comparison: less, equal, greater, or
    unordered when a NaN is compared. *)
Definition float_compare (x y : float) : option comparison :=
  match x, y with
  | NaN, _ | _, NaN => None
  | Finite p, Finite q => Some (p ?= q)%Q
  | Finite _, Infinity t => Some (if t then Gt else Lt)
  | Infinity s, Finite _ => Some (if s then Lt else Gt)
  | Infinity s, Infinity t =>
      Some (if s then if t then Eq else Lt else if t then Gt else Eq)
  end.

(** [x < y], [x <= y] and [x == y] on two [float]s. *)
Definition float_lt (x y : float) : bool :=
  match float_compare x y with Some Lt => true | _ => false end.

Definition float_le (x y : float) : bool :=
  match float_compare x y with Some Lt | Some Eq => true | _ => false end.

Definition float_eq (x y : float) : bool :=
  match float_compare x y with Some Eq => true | _ => false end.

Definition is_finite (x : float) : Prop :=
  match x with Finite _ => True | _ => False end.

(** The rational a finite [float] stands for. *)
Definition value (x : float) : Q :=
  match x with Finite q => q | _ => 0%Q end.

(** *** Rounding to binary64 *)

(** The exponent [k] with [2 ^ k <= x < 2 ^ (k + 1)], for [x > 0]. *)
Definition floor_log2 (x : Q) : Z :=
  let d := Z.log2 (Qnum x) - Z.log2 (Zpos (Qden x)) in
  if Qle_bool (2 ^ d) x then d else d - 1.

(** The nearest integer, a tie going to the even one. *)
Definition round_half_even (y : Q) : Z :=
  let f := Qfloor y in
  match (y - inject_Z f ?= 1 # 2)%Q with
  | Lt => f
  | Gt => f + 1
  | Eq => if Z.even f then f else f + 1
  end.

(** The exponent of the last place of the binary64 numbers around [x]:
    53 significant bits, and [2 ^ -1074] for the subnormal numbers. *)
Definition grid (x : Q) : Z := Z.max (floor_log2 x - 52) (-1074).

(** [x > 0] rounded to a multiple of [2 ^ grid x]. *)
Definition round_magnitude (x : Q) : Q :=
  (inject_Z (round_half_even (x / 2 ^ grid x)) * 2 ^ grid x)%Q.

(** A rounded magnitude of [2 ^ 1024] or more is out of range. *)
Definition pack (negative : bool) (v : Q) : float :=
  if Qle_bool (2 ^ 1024) v then Infinity negative
  else Finite (Qred (if negative then - v else v)).

Definition round64 (x : Q) : float :=
  match (x ?= 0)%Q with
  | Eq => Finite 0
  | Gt => pack false (round_magnitude (Qred x))
  | Lt => pack true (round_magnitude (Qred (- x)))
  end.
Arguments round64 : simpl never.

(** *** The arithmetic *)

(** How the rational result of an operation becomes a [float]. *)
Class Arithmetic : Type := { round : Q → float }.

(** What the interpreter does. *)
Global Instance binary64 : Arithmetic := {| round := round64 |}.

(** No rounding: the quotient itself, as a reduced fraction. *)
Definition exact_arithmetic : Arithmetic :=
  {| round := fun x => Finite (Qred x) |}.

(** What the statements need of a rounding: it depends on the value of the
    rational only, keeps [0] and [1], and is monotone. *)
Class Lawful (ar : Arithmetic) : Prop := {
  round_proper (x y : Q) : (x == y)%Q → round x = round y;
  round_zero : round 0 = Finite 0;
  round_one : round 1 = Finite 1;
  round_mono (x y : Q) : (x <= y)%Q → float_le (round x) (round y) = true
}.

(** [a / b] on two [int]s. *)
Definition int_truediv {ar : Arithmetic} (a b : Z) : result float :=
  if decide (b = 0) then Raise ZeroDivisionError
  else match round (inject_Z a / inject_Z b) with
       | Finite q => Ok (Finite q)
       | _ => Raise OverflowError
       end.

(** The IEEE quotient of [x] by [y], [y] not zero. *)
Definition float_div {ar : Arithmetic} (x y : float) : float :=
  match x, y with
  | Finite p, Finite q => round (p / q)
  | Finite _, Infinity _ => Finite 0
  | Infinity s, Finite q => Infinity (xorb s (float_lt y (Finite 0)))
  | _, _ => NaN
  end.

(** [x / y] on two [float]s. *)
Definition float_truediv {ar : Arithmetic} (x y : float) : result float :=
  if float_eq y (Finite 0) then Raise ZeroDivisionError
  else Ok (float_div x y).

(** *** The standard library's binary64, for comparison *)

Module IEEE.

(** An [int] as an unrounded floating point number. *)
Definition of_int (z : Z) : spec_float :=
  match z with
  | Z0 => S754_zero false
  | Zpos p => S754_finite false p 0
  | Zneg p => S754_finite true p 0
  end.

Definition to_float (f : spec_float) : float :=
  match f with
  | S754_zero _ => Finite 0
  | S754_infinity s => Infinity s
  | S754_nan => NaN
  | S754_finite s m e =>
      Finite (Qred ((if s then - inject_Z (Zpos m) else inject_Z (Zpos m))
                    * 2 ^ e))
  end.

(** [a / b] on two [int]s, by the library's division. *)
Definition int_div (a b : Z) : spec_float :=
  SFdiv 53 1024 (of_int a) (of_int b).

(** [(a / b) / (c / d)]: a quotient of two quotients of [int]s. *)
Definition div_of_divs (a b c d : Z) : spec_float :=
  SFdiv 53 1024 (int_div a b) (int_div c d).

End IEEE.

(** ** [defaultdict(int)] *)

(** [d[k]]: a missing key is inserted with the default [0]. *)
Definition dd_getitem `{Countable K} (d : gmap K Z) (k : K) : Z * gmap K Z :=
  match d !! k with
  | Some v => (v, d)
  | None => (0, <[k := 0]> d)
  end.

(** [d[k] += 1]. *)
Definition dd_incr `{Countable K} (d : gmap K Z) (k : K) : gmap K Z :=
  let '(v, d') := dd_getitem d k in <[k := v + 1]> d'.

(** The count a key stands for, without touching the map. *)
Definition count_of `{Countable K} (d : gmap K Z) (k : K) : Z :=
  default 0 (d !! k).

(** ** Rules and the rule table *)

(** The arrow of the [direction] column, U+2192 in UTF-8. *)
Definition arrow : string :=
  String (Ascii.ascii_of_nat 226) (String (Ascii.ascii_of_nat 134)
    (String (Ascii.ascii_of_nat 146) EmptyString)).

Record Rule : Type := mkRule {
  product_a : string;
  product_b : string;
  support : float;
  confidence : float;
  lift : float;
  direction : string;
  product_a_name : option string;
  product_b_name : option string
}.

Definition rule_dict (a b : string) (s c l : float) : Rule :=
  mkRule a b s c l (a +:+ " " +:+ arrow +:+ " " +:+ b) None None.

(** A [pandas.DataFrame] holding rules: the column labels and the rows. *)
Record DataFrame : Type := mkDataFrame {
  columns : list string;
  rows : list Rule
}.

Definition rule_columns : list string :=
  ["product_a"; "product_b"; "support"; "confidence"; "lift"; "direction"].

(** [pd.DataFrame(results)]: the columns are the keys of the records, so a
    frame built from no record has no column. *)
Definition DataFrame_of_records (results : list Rule) : DataFrame :=
  match results with
  | [] => mkDataFrame [] []
  | _ => mkDataFrame rule_columns results
  end.

(** [df[col]]: only the check that the label exists matters here. *)
Definition df_getitem (df : DataFrame) (col : string) : result unit :=
  if decide (col ∈ columns df) then Ok tt else Raise (KeyError col).

(** [df[col] = values]: a new label is appended. *)
Definition df_add_column (df : DataFrame) (col : string)
    (upd : Rule → Rule) : DataFrame :=
  mkDataFrame
    (if decide (col ∈ columns df) then columns df else columns df ++ [col])
    (upd <$> rows df).

(** ** [class AffinityCache] *)

Module AffinityCache.

Record t : Type := mk {
  total_transactions : Z;
  item_counts : gmap string Z;
  pair_counts : gmap (string * string) Z;
  all_products : gset string
}.

(** [__init__] *)
Definition init : t := mk 0 ∅ ∅ ∅.

Definition set_item_counts (d : gmap string Z) (c : t) : t :=
  mk (total_transactions c) d (pair_counts c) (all_products c).

Definition set_pair_counts (d : gmap (string * string) Z) (c : t) : t :=
  mk (total_transactions c) (item_counts c) d (all_products c).

(** Body of [for item in basket]. *)
Definition add_item (c : t) (item : string) : t :=
  mk (total_transactions c) (dd_incr (item_counts c) item)
     (pair_counts c) ({[item]} ∪ all_products c).

(** Body of the inner loop over [j]. *)
Definition add_pair (c : t) (pair : string * string) : t :=
  set_pair_counts (dd_incr (pair_counts c) pair) c.

Definition update_with_new_transaction (basket : gset string) (c : t) : t :=
  let c := mk (total_transactions c + 1) (item_counts c) (pair_counts c)
              (all_products c) in
  let c := foldl add_item c (elements basket) in
  let basket_list := sorted (elements basket) in
  foldl add_pair c (index_pairs basket_list).

Definition update_with_batch (baskets : list (gset string)) (c : t) : t :=
  foldl (fun c basket => update_with_new_transaction basket c) c baskets.

(** Methods that read the counters: they pass the cache along, because a
    subscript on a [defaultdict] can write, and they can raise. *)
Definition M (A : Type) : Type := t → result (A * t).

Definition ret {A} (a : A) : M A := fun c => Ok (a, c).

Definition bind {A B} (m : M A) (k : A → M B) : M B :=
  fun c => match m c with
           | Ok (a, c') => k a c'
           | Raise e => Raise e
           end.

Definition lift_result {A} (r : result A) : M A :=
  fun c => match r with Ok a => Ok (a, c) | Raise e => Raise e end.

Notation "'do' x <- m ; k" := (bind m (fun x => k))
  (at level 10, x name, m at level 100, k at level 200).

(** [self.item_counts[item]] and [self.pair_counts[pair]] in an expression. *)
Definition read_item_count (item : string) : M Z :=
  fun c => let '(v, d) := dd_getitem (item_counts c) item in
           Ok (v, set_item_counts d c).

Definition read_pair_count (pair : string * string) : M Z :=
  fun c => let '(v, d) := dd_getitem (pair_counts c) pair in
           Ok (v, set_pair_counts d c).

Definition get_total : M Z := fun c => Ok (total_transactions c, c).

Definition get_support {ar : Arithmetic} (itemset : list string) : M float :=
  do total <- get_total;
  if decide (total = 0) then ret (Finite 0)
  else match itemset with
       | [item] =>
           do n <- read_item_count item;
           lift_result (int_truediv n total)
       | [a; b] =>
           do n <- read_pair_count (sorted_pair a b);
           lift_result (int_truediv n total)
       | _ => ret (Finite 0)
       end.

Definition get_confidence {ar : Arithmetic} (antecedent consequent : string)
    : M float :=
  do support_a <- get_support [antecedent];
  if float_eq support_a (Finite 0) then ret (Finite 0)
  else
    do support_ab <- get_support [antecedent; consequent];
    lift_result (float_truediv support_ab support_a).

Definition get_lift {ar : Arithmetic} (antecedent consequent : string)
    : M float :=
  do confidence <- get_confidence antecedent consequent;
  do support_b <- get_support [consequent];
  if float_eq support_b (Finite 0) then ret (Finite 0)
  else lift_result (float_truediv confidence support_b).

(** One pass of the body of [for pair, count in self.pair_counts.items()]:
    the rules it appends. *)
Definition affinities_body {ar : Arithmetic} (min_support min_confidence : Q)
    (entry : (string * string) * Z) : M (list Rule) :=
  let '((product_a, product_b), count) := entry in
  do total <- get_total;
  do support <- lift_result (int_truediv count total);
  if float_lt support (Finite min_support) then ret []
  else
    do confidence_ab <- get_confidence product_a product_b;
    do confidence_ba <- get_confidence product_b product_a;
    if float_lt confidence_ab (Finite min_confidence)
       && float_lt confidence_ba (Finite min_confidence)
    then ret []
    else
      do lift_ab <- get_lift product_a product_b;
      do lift_ba <- get_lift product_b product_a;
      ret [rule_dict product_a product_b support confidence_ab lift_ab;
           rule_dict product_b product_a support confidence_ba lift_ba].

(** The [for] loop over [self.pair_counts.items()].  [used] is the size of
    the dict when the iterator was made: every step of the iterator,
    the last one included, raises [RuntimeError] when the size differs. *)
Fixpoint affinities_loop {ar : Arithmetic} (min_support min_confidence : Q)
    (used : nat)
    (entries : list ((string * string) * Z)) (results : list Rule)
    : M (list Rule) :=
  fun c =>
    if decide (size (pair_counts c) = used) then
      match entries with
      | [] => Ok (results, c)
      | entry :: entries =>
          match affinities_body min_support min_confidence entry c with
          | Ok (new, c') =>
              affinities_loop min_support min_confidence used entries
                              (results ++ new) c'
          | Raise e => Raise e
          end
      end
    else Raise RuntimeError.

Definition get_updated_affinities {ar : Arithmetic}
    (min_support min_confidence : Q) : M DataFrame :=
  fun c =>
    match affinities_loop min_support min_confidence
            (size (pair_counts c)) (map_to_list (pair_counts c)) [] c with
    | Ok (results, c') => Ok (DataFrame_of_records results, c')
    | Raise e => Raise e
    end.

(** [max(d.items(), key=lambda x: x[1])[0] if d else None]: the first entry
    with the largest count, in the order the entries are visited. *)
Definition most_frequent {K} (entries : list (K * Z)) : option K :=
  match entries with
  | [] => None
  | e :: es =>
      Some (fst (foldl (fun best x => if snd best <? snd x then x else best)
                       e es))
  end.

Record Statistics : Type := mkStatistics {
  stat_total_transactions : Z;
  unique_products : nat;
  unique_pairs : nat;
  most_frequent_item : option string;
  most_frequent_pair : option (string * string)
}.

Definition get_statistics : M Statistics :=
  fun c =>
    Ok (mkStatistics (total_transactions c) (size (all_products c))
          (size (pair_counts c))
          (most_frequent (map_to_list (item_counts c)))
          (most_frequent (map_to_list (pair_counts c))), c).

End AffinityCache.

(** ** Line items and [groupby] *)

(** A row of [line_items_df]: the [transaction_id] and the [product_id]. *)
Record LineItem : Type := mkLineItem {
  transaction_id : string;
  product_id : string
}.

(** [for txn_id, group in line_items_df.groupby('transaction_id')] followed
    by [set(group['product_id'].unique())]: one basket per distinct
    transaction id, the groups in the sorted order of their keys. *)
Definition group_keys (df : list LineItem) : list string :=
  sorted (remove_dups (transaction_id <$> df)).

Definition group_basket (df : list LineItem) (txn_id : string) : gset string :=
  list_to_set
    (product_id <$> filter (fun r => transaction_id r = txn_id) df).

Definition baskets_of_line_items (df : list LineItem) : list (gset string) :=
  group_basket df <$> group_keys df.

(** ** [class MarketBasketAnalyzer] *)

Module MarketBasketAnalyzer.

Record t : Type := mk {
  min_support : Q;
  min_confidence : Q;
  total_transactions : Z;
  item_counts : gmap string Z;
  pair_counts : gmap (string * string) Z;
  transaction_baskets : list (gset string)
}.

(** [__init__] *)
Definition init (min_support min_confidence : Q) : t :=
  mk min_support min_confidence 0 ∅ ∅ [].

Definition build_transaction_baskets (line_items_df : list LineItem)
    (self : t) : list (gset string) * t :=
  let baskets := baskets_of_line_items line_items_df in
  (baskets,
   mk (min_support self) (min_confidence self) (Z.of_nat (length baskets))
      (item_counts self) (pair_counts self) baskets).

(** [sum(1 for basket in self.transaction_baskets if itemset.issubset(basket))] *)
Definition count_baskets (itemset : gset string)
    (baskets : list (gset string)) : Z :=
  Z.of_nat (length (filter (fun basket => itemset ⊆ basket) baskets)).

Definition calculate_support {ar : Arithmetic} (itemset : list string)
    (self : t) : result float :=
  if decide (total_transactions self = 0) then Ok (Finite 0)
  else
    let itemset : gset string := list_to_set itemset in
    let count := count_baskets itemset (transaction_baskets self) in
    int_truediv count (total_transactions self).

Definition rbind {A B} (r : result A) (k : A → result B) : result B :=
  match r with Ok a => k a | Raise e => Raise e end.

Notation "'let*' x := r 'in' k" := (rbind r (fun x => k))
  (at level 10, x name, r at level 100, k at level 200).

Definition calculate_confidence {ar : Arithmetic}
    (antecedent consequent : string) (self : t) : result float :=
  let* support_a := calculate_support [antecedent] self in
  if float_eq support_a (Finite 0) then Ok (Finite 0)
  else
    let* support_ab := calculate_support [antecedent; consequent] self in
    float_truediv support_ab support_a.

Definition calculate_lift {ar : Arithmetic} (antecedent consequent : string)
    (self : t) : result float :=
  let* confidence := calculate_confidence antecedent consequent self in
  let* support_b := calculate_support [consequent] self in
  if float_eq support_b (Finite 0) then Ok (Finite 0)
  else float_truediv confidence support_b.

Definition generate_product_pairs (self : t) : list (string * string) :=
  let all_products : gset string :=
    foldl (fun acc basket => acc ∪ basket) ∅ (transaction_baskets self) in
  combinations2 (sorted (elements all_products)).

(** One pass of the body of [for product_a, product_b in pairs]. *)
Definition analyze_body {ar : Arithmetic} (self : t)
    (pair : string * string) : result (list Rule) :=
  let '(product_a, product_b) := pair in
  let* support_ab := calculate_support [product_a; product_b] self in
  if float_lt support_ab (Finite (min_support self)) then Ok []
  else
    let* confidence_ab := calculate_confidence product_a product_b self in
    let* confidence_ba := calculate_confidence product_b product_a self in
    if float_lt confidence_ab (Finite (min_confidence self))
       && float_lt confidence_ba (Finite (min_confidence self))
    then Ok []
    else
      let* lift_ab := calculate_lift product_a product_b self in
      let* lift_ba := calculate_lift product_b product_a self in
      Ok [rule_dict product_a product_b support_ab confidence_ab lift_ab;
          rule_dict product_b product_a support_ab confidence_ba lift_ba].

Fixpoint analyze_loop {ar : Arithmetic} (self : t)
    (pairs : list (string * string)) (results : list Rule)
    : result (list Rule) :=
  match pairs with
  | [] => Ok results
  | product_pair :: pairs =>
      let* new := analyze_body self product_pair in
      analyze_loop self pairs (results ++ new)
  end.

(** [dict(zip(products_df['product_id'], products_df['product_name']))]:
    a later row of [products_df] overwrites an earlier one. *)
Definition product_names_dict (products_df : list (string * string))
    : gmap string string :=
  foldl (fun d row => <[fst row := snd row]> d) ∅ products_df.

Definition set_product_a_name (names : gmap string string) (r : Rule) : Rule :=
  mkRule (product_a r) (product_b r) (support r) (confidence r) (lift r)
         (direction r) (names !! product_a r) (product_b_name r).

Definition set_product_b_name (names : gmap string string) (r : Rule) : Rule :=
  mkRule (product_a r) (product_b r) (support r) (confidence r) (lift r)
         (direction r) (product_a_name r) (names !! product_b r).

Definition analyze {ar : Arithmetic} (line_items_df : list LineItem)
    (products_df : option (list (string * string))) (self : t)
    : result (DataFrame * t) :=
  let '(_, self) := build_transaction_baskets line_items_df self in
  let pairs := generate_product_pairs self in
  let* results := analyze_loop self pairs [] in
  let results_df := DataFrame_of_records results in
  match products_df with
  | None => Ok (results_df, self)
  | Some products_df =>
      let product_names := product_names_dict products_df in
      let* _ := df_getitem results_df "product_a" in
      let results_df :=
        df_add_column results_df "product_a_name"
                      (set_product_a_name product_names) in
      let* _ := df_getitem results_df "product_b" in
      let results_df :=
        df_add_column results_df "product_b_name"
                      (set_product_b_name product_names) in
      Ok (results_df, self)
  end.

End MarketBasketAnalyzer.

(** ** [class IncrementalAffinityUpdater] *)

Module IncrementalAffinityUpdater.

Record t : Type := mk {
  cache : AffinityCache.t;
  min_support : Q;
  min_confidence : Q
}.

Definition init (min_support min_confidence : Q) : t :=
  mk AffinityCache.init min_support min_confidence.

Definition set_cache (c : AffinityCache.t) (self : t) : t :=
  mk c (min_support self) (min_confidence self).

Definition initialize_from_line_items (line_items_df : list LineItem)
    (self : t) : t :=
  set_cache
    (AffinityCache.update_with_batch (baskets_of_line_items line_items_df)
                                     (cache self)) self.

(** [line_items] holds the rows of one transaction. *)
Definition process_new_transaction (line_items : list LineItem) (self : t)
    : t :=
  set_cache
    (AffinityCache.update_with_new_transaction
       (list_to_set (product_id <$> line_items)) (cache self)) self.

Definition process_new_batch (line_items_df : list LineItem) (self : t) : t :=
  set_cache
    (AffinityCache.update_with_batch (baskets_of_line_items line_items_df)
                                     (cache self)) self.

Definition get_current_affinities {ar : Arithmetic} (self : t)
    : result (DataFrame * t) :=
  match AffinityCache.get_updated_affinities (min_support self)
          (min_confidence self) (cache self) with
  | Ok (df, c) => Ok (df, set_cache c self)
  | Raise e => Raise e
  end.

End IncrementalAffinityUpdater.


(** ** States of the cache and what the queries compute *)

Module CacheSpec.
Import AffinityCache.

(** The caches that ingestion alone builds from a new cache. *)
Inductive ingested : t → Prop :=
  | ingested_init : ingested init
  | ingested_transaction basket c :
      ingested c → ingested (update_with_new_transaction basket c)
  | ingested_batch baskets c :
      ingested c → ingested (update_with_batch baskets c).

(** The public queries of the cache, and the cache a call leaves behind. *)
Inductive Query : Type :=
  | QSupport (itemset : list string)
  | QConfidence (antecedent consequent : string)
  | QLift (antecedent consequent : string)
  | QUpdatedAffinities (min_support min_confidence : Q)
  | QStatistics.

Definition state_after {A} (r : result (A * t)) : result t :=
  match r with Ok (_, c) => Ok c | Raise e => Raise e end.

Definition value_of {A S} (r : result (A * S)) : result A :=
  match r with Ok (a, _) => Ok a | Raise e => Raise e end.

Definition run_query {ar : Arithmetic} (q : Query) (c : t) : result t :=
  match q with
  | QSupport itemset => state_after (get_support itemset c)
  | QConfidence a b => state_after (get_confidence a b c)
  | QLift a b => state_after (get_lift a b c)
  | QUpdatedAffinities ms mc => state_after (get_updated_affinities ms mc c)
  | QStatistics => state_after (get_statistics c)
  end.

(** The caches that any sequence of calls of the public methods builds. *)
Inductive reachable {ar : Arithmetic} : t → Prop :=
  | reachable_init : reachable init
  | reachable_transaction basket c :
      reachable c → reachable (update_with_new_transaction basket c)
  | reachable_batch baskets c :
      reachable c → reachable (update_with_batch baskets c)
  | reachable_query q c c' :
      reachable c → run_query q c = Ok c' → reachable c'.

(** The two bounds on the counters; the count of a key that is not in the
    dict is what a subscript reads there, [0]. *)
Definition item_count_bound (c : t) : Prop :=
  ∀ x, count_of (item_counts c) x ≤ total_transactions c.

Definition pair_count_bound (c : t) : Prop :=
  ∀ x y, count_of (pair_counts c) (x, y)
         ≤ Z.min (count_of (item_counts c) x) (count_of (item_counts c) y).

(** The keys of [pair_counts] are sorted tuples, and a cache that has
    recorded a pair has seen a transaction. *)
Definition canonical_keys (c : t) : Prop :=
  ∀ a b, is_Some (pair_counts c !! (a, b)) → str_le a b.

Definition well_formed (c : t) : Prop :=
  (pair_counts c ≠ ∅ → total_transactions c ≠ 0) ∧ canonical_keys c.

(** The invariant behind the rules query: no transaction, no pair; and
    every key of [pair_counts] is a sorted tuple. *)
Definition counted (c : t) : Prop :=
  0 ≤ total_transactions c
  ∧ (pair_counts c ≠ ∅ → 0 < total_transactions c)
  ∧ canonical_keys c.

(** Two caches that a subscript cannot tell apart: the same total, the same
    products, and the same count under every key. *)
Definition same_counts (c c' : t) : Prop :=
  total_transactions c' = total_transactions c
  ∧ all_products c' = all_products c
  ∧ (∀ x, count_of (item_counts c') x = count_of (item_counts c) x)
  ∧ (∀ p, count_of (pair_counts c') p = count_of (pair_counts c) p).

(** The values of the metrics as functions of the counts: a count over
    the total, rounded. *)
Definition ratio {ar : Arithmetic} (count total : Z) : float :=
  round (inject_Z count / inject_Z total).

Definition support_item {ar : Arithmetic} (c : t) (x : string) : float :=
  if decide (total_transactions c = 0) then Finite 0
  else ratio (count_of (item_counts c) x) (total_transactions c).

Definition support_key {ar : Arithmetic} (c : t) (p : string * string)
    : float :=
  if decide (total_transactions c = 0) then Finite 0
  else ratio (count_of (pair_counts c) p) (total_transactions c).

Definition support_pair {ar : Arithmetic} (c : t) (a b : string) : float :=
  support_key c (sorted_pair a b).

Definition support_val {ar : Arithmetic} (c : t) (itemset : list string)
    : float :=
  match itemset with
  | [x] => support_item c x
  | [a; b] => support_pair c a b
  | _ => Finite 0
  end.

Definition confidence_val {ar : Arithmetic} (c : t) (a b : string) : float :=
  if float_eq (support_item c a) (Finite 0) then Finite 0
  else float_div (support_pair c a b) (support_item c a).

Definition lift_val {ar : Arithmetic} (c : t) (a b : string) : float :=
  if float_eq (support_item c b) (Finite 0) then Finite 0
  else float_div (confidence_val c a b) (support_item c b).

(** No support is out of the range of a [float]: the divisions of two
    counters do not raise [OverflowError]. *)
Definition finite_supports {ar : Arithmetic} (c : t) : Prop :=
  (∀ x, is_finite (support_item c x)) ∧ (∀ p, is_finite (support_key c p)).

(** The cache a query leaves behind: a subscript with a missing key has
    inserted the key with the count [0]. *)
Definition touch_item (x : string) (c : t) : t :=
  set_item_counts (snd (dd_getitem (item_counts c) x)) c.

Definition touch_pair (p : string * string) (c : t) : t :=
  set_pair_counts (snd (dd_getitem (pair_counts c) p)) c.

Definition after_support (itemset : list string) (c : t) : t :=
  if decide (total_transactions c = 0) then c
  else match itemset with
       | [x] => touch_item x c
       | [a; b] => touch_pair (sorted_pair a b) c
       | _ => c
       end.

Definition after_confidence {ar : Arithmetic} (a b : string) (c : t) : t :=
  if float_eq (support_item c a) (Finite 0) then after_support [a] c
  else after_support [a; b] (after_support [a] c).

Definition after_lift {ar : Arithmetic} (a b : string) (c : t) : t :=
  after_support [b] (after_confidence a b c).

(** The filter of the rules query on one recorded pair, in the words of
    the specification: the pair support reaches [min_support] and one of
    the two confidences reaches [min_confidence]. *)
Definition passes {ar : Arithmetic} (c : t) (min_support min_confidence : Q)
    (entry : (string * string) * Z) : Prop :=
  let '((a, b), count) := entry in
  float_le (Finite min_support) (ratio count (total_transactions c)) = true
  ∧ (float_le (Finite min_confidence) (confidence_val c a b) = true
     ∨ float_le (Finite min_confidence) (confidence_val c b a) = true).

Global Instance passes_dec {ar : Arithmetic} c ms mc entry :
  Decision (passes c ms mc entry).
Proof. destruct entry as [[a b] count]. unfold passes. apply _. Defined.

(** The two directional rules of a recorded pair. *)
Definition pair_rules {ar : Arithmetic} (c : t)
    (entry : (string * string) * Z) : list Rule :=
  let '((a, b), count) := entry in
  let support := ratio count (total_transactions c) in
  [rule_dict a b support (confidence_val c a b) (lift_val c a b);
   rule_dict b a support (confidence_val c b a) (lift_val c b a)].

End CacheSpec.

(** Ingesting one by one, and batch by batch. *)
Definition ingest_one_by_one (baskets : list (gset string))
    (c : AffinityCache.t) : AffinityCache.t :=
  foldl (fun c basket => AffinityCache.update_with_new_transaction basket c)
        c baskets.

Definition ingest_batches (batches : list (list (gset string)))
    (c : AffinityCache.t) : AffinityCache.t :=
  foldl (fun c batch => AffinityCache.update_with_batch batch c) c batches.

(** ** What the batch analyzer computes *)

Module AnalyzerSpec.
Import MarketBasketAnalyzer.

(** The values of the metrics as functions of the baskets. *)
Definition support_of {ar : Arithmetic} (self : t) (itemset : list string)
    : float :=
  if decide (total_transactions self = 0) then Finite 0
  else CacheSpec.ratio
         (count_baskets (list_to_set itemset) (transaction_baskets self))
         (total_transactions self).

Definition confidence_of {ar : Arithmetic} (self : t) (a b : string)
    : float :=
  if float_eq (support_of self [a]) (Finite 0) then Finite 0
  else float_div (support_of self [a; b]) (support_of self [a]).

Definition lift_of {ar : Arithmetic} (self : t) (a b : string) : float :=
  if float_eq (support_of self [b]) (Finite 0) then Finite 0
  else float_div (confidence_of self a b) (support_of self [b]).

(** No support is out of the range of a [float]. *)
Definition finite_supports {ar : Arithmetic} (self : t) : Prop :=
  ∀ itemset, is_finite (support_of self itemset).

(** The filter of [analyze] on one candidate pair, in the words of the
    specification. *)
Definition passes {ar : Arithmetic} (self : t) (p : string * string)
    : Prop :=
  float_le (Finite (min_support self)) (support_of self [fst p; snd p])
    = true
  ∧ (float_le (Finite (min_confidence self))
       (confidence_of self (fst p) (snd p)) = true
     ∨ float_le (Finite (min_confidence self))
         (confidence_of self (snd p) (fst p)) = true).

Global Instance passes_dec {ar : Arithmetic} self p :
  Decision (passes self p).
Proof. unfold passes. apply _. Defined.

(** The two directional rules of a candidate pair. *)
Definition pair_rules {ar : Arithmetic} (self : t) (p : string * string)
    : list Rule :=
  let '(a, b) := p in
  [rule_dict a b (support_of self [a; b]) (confidence_of self a b)
             (lift_of self a b);
   rule_dict b a (support_of self [a; b]) (confidence_of self b a)
             (lift_of self b a)].

(** A candidate pair that no basket holds, and the two rules [analyze]
    makes of it when the thresholds let it through: every metric is zero. *)
Definition apart (self : t) (p : string * string) : Prop :=
  count_baskets {[fst p; snd p]} (transaction_baskets self) = 0.

Global Instance apart_dec self p : Decision (apart self p).
Proof. unfold apart. apply _. Defined.

Definition zero_rules (p : string * string) : list Rule :=
  let '(a, b) := p in
  [rule_dict a b (Finite 0) (Finite 0) (Finite 0);
   rule_dict b a (Finite 0) (Finite 0) (Finite 0)].

(** The analyzer once [build_transaction_baskets] has run. *)
Definition built (line_items_df : list LineItem) (self : t) : t :=
  snd (build_transaction_baskets line_items_df self).

End AnalyzerSpec.

(** ** Sample data *)

Module Sample.

Definition basket_AB : gset string := {["A"; "B"]}.
Definition basket_AC : gset string := {["A"; "C"]}.
Definition basket_ABC : gset string := {["A"; "B"; "C"]}.
Definition basket_X : gset string := {["X"]}.

(** A cache that has seen one transaction, [{A, B}]. *)
Definition cache_AB : AffinityCache.t :=
  AffinityCache.update_with_new_transaction basket_AB AffinityCache.init.

(** The two baskets of the specification's scenario. *)
Definition cache_AB_ABC : AffinityCache.t :=
  AffinityCache.update_with_batch [basket_AB; basket_ABC] AffinityCache.init.

Definition basket_A : gset string := {["A"]}.
Definition basket_B : gset string := {["B"]}.

(** Five baskets: [A] in four, [B] in four, both in three. *)
Definition five_baskets : list (gset string) :=
  [basket_AB; basket_AB; basket_AB; basket_A; basket_B].

Definition lines_five : list LineItem :=
  [mkLineItem "T1" "A"; mkLineItem "T1" "B";
   mkLineItem "T2" "A"; mkLineItem "T2" "B";
   mkLineItem "T3" "A"; mkLineItem "T3" "B";
   mkLineItem "T4" "A"; mkLineItem "T5" "B"].

(** Two transactions of one product each. *)
Definition lines_A_B : list LineItem :=
  [mkLineItem "T1" "A"; mkLineItem "T2" "B"].

(** One transaction of three products. *)
Definition lines_ABC : list LineItem :=
  [mkLineItem "T1" "A"; mkLineItem "T1" "B"; mkLineItem "T1" "C"].

(** Two transactions, [{A, B}] and [{A, B, C}]. *)
Definition lines_AB_ABC : list LineItem :=
  [mkLineItem "T1" "A"; mkLineItem "T1" "B";
   mkLineItem "T2" "A"; mkLineItem "T2" "B"; mkLineItem "T2" "C"].

Definition products : list (string * string) :=
  [("A", "Apple"); ("B", "Bread"); ("C", "Cheese")].

End Sample.

(** ** [DataFrame.nlargest] and the rankings built on it *)

Module Ranking.

(** The rankings can raise two exceptions: the ones the frame accessors
    raise, and [TypeError] when the column to rank by is not numeric. *)
Inductive error : Type :=
  | Exn (e : exn)
  | TypeError (column : string).

Inductive outcome (A : Type) : Type :=
  | Return (a : A)
  | Fail (e : error).
Arguments Return {A} a.
Arguments Fail {A} e.

(** The three [float64] columns of a rule table; every other column of the
    table holds strings. *)
Definition numeric_column (column : string) : option (Rule → float) :=
  if decide (column = "support") then Some support
  else if decide (column = "confidence") then Some confidence
  else if decide (column = "lift") then Some lift
  else None.

(** The order of a ranking: the order of the values, with a NaN below
    every value, so that rows without a value come last. *)
Definition rank_le (x y : float) : bool :=
  match x with
  | NaN => true
  | _ => float_le x y
  end.

(** A stable sort in descending order of [key]: a row goes in front of the
    rows that came after it and do not beat it, so rows with equal keys
    keep their order. *)
Fixpoint insert_desc (key : Rule → float) (x : Rule) (l : list Rule)
    : list Rule :=
  match l with
  | [] => [x]
  | y :: l' =>
      if rank_le (key y) (key x) then x :: y :: l'
      else y :: insert_desc key x l'
  end.

Definition sort_desc (key : Rule → float) (l : list Rule) : list Rule :=
  foldr (insert_desc key) [] l.

(** [df.nlargest(n, column)] with the default [keep='first']: the label is
    looked up first, then its dtype is checked, and the result is the first
    [n] rows of the stable descending sort; [n <= 0] gives no row. *)
Definition nlargest (n : Z) (column : string) (df : DataFrame)
    : outcome DataFrame :=
  if decide (column ∈ columns df) then
    match numeric_column column with
    | Some key =>
        Return (mkDataFrame (columns df)
                  (take (Z.to_nat n) (sort_desc key (rows df))))
    | None => Fail (TypeError column)
    end
  else Fail (Exn (KeyError column)).

(** [MarketBasketAnalyzer.find_top_affinities]; [reset_index] only
    renumbers the rows. *)
Definition find_top_affinities (results_df : DataFrame) (top_n : Z)
    (metric : string) : outcome DataFrame :=
  nlargest top_n metric results_df.

(** [MarketBasketAnalyzer.get_recommendations]: the boolean mask keeps the
    columns of the frame. *)
Definition get_recommendations (results_df : DataFrame)
    (product_id : string) (top_n : Z) : outcome DataFrame :=
  if decide ("product_a" ∈ columns results_df) then
    nlargest top_n "lift"
      (mkDataFrame (columns results_df)
         (filter (fun r => product_a r = product_id) (rows results_df)))
  else Fail (Exn (KeyError "product_a")).

(** [IncrementalAffinityUpdater.get_top_affinities]; [pd.DataFrame()] is
    the frame without columns. *)
Definition get_top_affinities {ar : Arithmetic} (top_n : Z)
    (self : IncrementalAffinityUpdater.t)
    : outcome (DataFrame * IncrementalAffinityUpdater.t) :=
  match IncrementalAffinityUpdater.get_current_affinities self with
  | Raise e => Fail (Exn e)
  | Ok (affinities, self) =>
      if decide (length (rows affinities) = 0%nat)
      then Return (mkDataFrame [] [], self)
      else match nlargest top_n "lift" affinities with
           | Return df => Return (df, self)
           | Fail e => Fail e
           end
  end.

(** [perform_market_basket_analysis] *)
Definition perform_market_basket_analysis {ar : Arithmetic}
    (line_items_df : list LineItem)
    (products_df : option (list (string * string)))
    (min_support min_confidence : Q)
    : result (DataFrame * MarketBasketAnalyzer.t) :=
  MarketBasketAnalyzer.analyze line_items_df products_df
    (MarketBasketAnalyzer.init min_support min_confidence).

(** The order of a ranking: [r1] does not come after [r2]. *)
Definition desc (key : Rule → float) (r1 r2 : Rule) : Prop :=
  rank_le (key r2) (key r1) = true.

End Ranking.

(** ** Counters within their bounds *)

Module Bounds.
Import AffinityCache.

(** Every count lies between zero and what bounds it: the total for an
    item, the counts of its two items for a pair. *)
Definition bounded (c : t) : Prop :=
  (∀ x, 0 ≤ count_of (item_counts c) x ≤ total_transactions c)
  ∧ (∀ x y, 0 ≤ count_of (pair_counts c) (x, y)
            ≤ Z.min (count_of (item_counts c) x)
                    (count_of (item_counts c) y)).

End Bounds.

(** ** More sample data *)

Module Sample2.

Definition rule_of_lift (a b : string) (l : Q) : Rule :=
  rule_dict a b (Finite (1 # 2)) (Finite (1 # 2)) (Finite l).

(** Three rules with the lifts 3, 3/2 and 2. *)
Definition three_rules : DataFrame :=
  mkDataFrame rule_columns
    [rule_of_lift "A" "B" 3; rule_of_lift "A" "C" (3 # 2);
     rule_of_lift "B" "C" 2].

Definition lines_T1 : list LineItem :=
  [mkLineItem "T1" "A"; mkLineItem "T1" "B"].

Definition lines_T2 : list LineItem :=
  [mkLineItem "T2" "A"; mkLineItem "T2" "C"].

End Sample2.
(** * Properties of the order, of [sorted] and of the pair enumeration *)

Lemma string_compare_refl (s : string) : String.compare s s = Eq.
Proof.
  induction s as [|x s IH]; simpl; [done|].
  unfold Ascii.compare. by rewrite N.compare_refl.
Qed.

Lemma string_compare_not_gt_trans (a b c : string) :
  String.compare a b ≠ Gt → String.compare b c ≠ Gt →
  String.compare a c ≠ Gt.
Proof.
  revert b c. induction a as [|x a IH]; intros [|y b] [|z c]; simpl;
    try congruence.
  unfold Ascii.compare.
  destruct (N.compare_spec (Ascii.N_of_ascii x) (Ascii.N_of_ascii y)) as [Hxy|Hxy|Hxy];
    destruct (N.compare_spec (Ascii.N_of_ascii y) (Ascii.N_of_ascii z)) as [Hyz|Hyz|Hyz];
    try congruence.
  - rewrite Hxy, Hyz, N.compare_refl. apply IH.
  - intros _ _. rewrite Hxy, (proj2 (N.compare_lt_iff _ _) Hyz). done.
  - intros _ _. rewrite <- Hyz, (proj2 (N.compare_lt_iff _ _) Hxy). done.
  - intros _ _.
    rewrite (proj2 (N.compare_lt_iff _ _) (N.lt_trans _ _ _ Hxy Hyz)). done.
Qed.

Lemma str_le_compare (a b : string) : str_le a b ↔ String.compare a b ≠ Gt.
Proof.
  unfold str_le, String.leb. destruct (String.compare a b); split; congruence.
Qed.

Global Instance str_le_refl : Reflexive str_le.
Proof. intros a. apply str_le_compare. by rewrite string_compare_refl. Qed.

Global Instance str_le_trans : Transitive str_le.
Proof.
  intros a b c. rewrite !str_le_compare. apply string_compare_not_gt_trans.
Qed.

Global Instance str_le_total : Total str_le.
Proof. intros a b. apply String.leb_total. Qed.

Global Instance str_le_antisymm : AntiSymm (=) str_le.
Proof. intros a b. apply String.leb_antisym. Qed.

Lemma str_lt_irrefl (a : string) : ¬ str_lt a a.
Proof. by intros [_ ?]. Qed.

Lemma sorted_Permutation (l : list string) : sorted l ≡ₚ l.
Proof. apply merge_sort_Permutation. Qed.

Lemma sorted_StronglySorted (l : list string) :
  StronglySorted str_le (sorted l).
Proof. apply StronglySorted_merge_sort; apply _. Qed.

Lemma elem_of_sorted (l : list string) (x : string) : x ∈ sorted l ↔ x ∈ l.
Proof. by rewrite sorted_Permutation. Qed.

Lemma NoDup_sorted (l : list string) : NoDup l → NoDup (sorted l).
Proof. by rewrite sorted_Permutation. Qed.

Lemma sorted_pair_spec (a b : string) :
  sorted_pair a b = if decide (str_le a b) then (a, b) else (b, a).
Proof.
  unfold sorted_pair, sorted, merge_sort. simpl.
  destruct (decide (str_le a b)) as [Hab|Hab].
  - destruct (decide (str_le b a)) as [Hba|Hba]; simpl; [|done].
    by rewrite (anti_symm str_le a b Hab Hba).
  - destruct (decide (str_le b a)) as [Hba|Hba]; simpl; [done|].
    by destruct (total str_le a b).
Qed.

Lemma sorted_pair_comm (a b : string) : sorted_pair a b = sorted_pair b a.
Proof.
  rewrite !sorted_pair_spec.
  destruct (decide (str_le a b)) as [Hab|Hab],
           (decide (str_le b a)) as [Hba|Hba]; try done.
  - by rewrite (anti_symm str_le a b Hab Hba).
  - by destruct (total str_le a b).
Qed.

Lemma sorted_pair_sorted (a b : string) : str_le a b → sorted_pair a b = (a, b).
Proof. intros H. rewrite sorted_pair_spec. by rewrite decide_True. Qed.

Lemma map_seq_S {B} (f : nat → B) (a n : nat) :
  map f (seq (S a) n) = map (fun i => f (S i)) (seq a n).
Proof. by rewrite <- seq_shift, map_map. Qed.

Lemma flat_map_seq_S {B} (f : nat → list B) (a n : nat) :
  flat_map f (seq (S a) n) = flat_map (fun i => f (S i)) (seq a n).
Proof.
  revert a. induction n as [|n IH]; intros a; simpl; [done|].
  by rewrite IH.
Qed.

Lemma map_nth_seq (l : list string) :
  map (fun j => nth j l EmptyString) (seq 0 (length l)) = l.
Proof.
  induction l as [|x l IH]; simpl; [done|].
  by rewrite map_seq_S, IH.
Qed.

(** The index loop enumerates [combinations(l, 2)]. *)
Lemma index_pairs_combinations2 (l : list string) :
  index_pairs l = combinations2 l.
Proof.
  induction l as [|x t IH]; [done|].
  simpl combinations2. rewrite <- IH. clear IH.
  unfold index_pairs. cbn [length seq flat_map].
  apply (f_equal2 app).
  - replace (S (length t) - (0 + 1))%nat with (length t) by lia.
    cbn [Nat.add]. rewrite map_seq_S.
    rewrite <- (map_nth_seq t) at 2. by rewrite map_map.
  - rewrite flat_map_seq_S.
    apply flat_map_ext. intros i.
    replace (S i + 1)%nat with (S (i + 1)) by lia.
    replace (S (length t) - S (i + 1))%nat with (length t - (i + 1))%nat by lia.
    rewrite map_seq_S. done.
Qed.

Lemma elem_of_combinations2_inv {A} (l : list A) (x y : A) :
  (x, y) ∈ combinations2 l → x ∈ l ∧ y ∈ l.
Proof.
  induction l as [|a t IH]; simpl; [by intros ?%elem_of_nil|].
  rewrite elem_of_app, list_elem_of_fmap.
  intros [(z & [= -> ->] & Hz)|H].
  - split; [left|by right].
  - destruct (IH H). split; by right.
Qed.

Lemma NoDup_combinations2 {A} (l : list A) :
  NoDup l → NoDup (combinations2 l).
Proof.
  induction 1 as [|a t Ha Ht IH]; simpl; [constructor|].
  apply NoDup_app. split_and!; [|
    |done].
  - apply NoDup_fmap_2; [|done]. by intros ?? [=].
  - intros [x y] (z & [= -> ->] & Hz)%list_elem_of_fmap
      [Hx _]%elem_of_combinations2_inv. done.
Qed.

Lemma elem_of_combinations2_sorted (l : list string) (x y : string) :
  StronglySorted str_le l → NoDup l →
  (x, y) ∈ combinations2 l ↔ x ∈ l ∧ y ∈ l ∧ str_lt x y.
Proof.
  induction 1 as [|a t Ht IH Ha]; intros Hnd.
  { simpl. split; [by intros ?%elem_of_nil|]. by intros [?%elem_of_nil _]. }
  apply NoDup_cons in Hnd as [Hat Hnd]. specialize (IH Hnd).
  simpl. rewrite elem_of_app, list_elem_of_fmap, IH, !elem_of_cons.
  rewrite Forall_forall in Ha. split.
  - intros [(z & [= -> ->] & Hz)|(Hx & Hy & Hlt)].
    + split_and!; [by left|by right|]. split; [by apply Ha|].
      intros ->. done.
    + split_and!; [by right|by right|done].
  - intros ([->|Hx] & [->|Hy] & Hlt).
    + by destruct (str_lt_irrefl a).
    + left. by exists y.
    + destruct Hlt as [Hle Hne]. destruct Hne.
      apply (anti_symm str_le); [done|]. by apply Ha.
    + right. done.
Qed.

Lemma elem_of_basket_pairs (basket : gset string) (x y : string) :
  (x, y) ∈ basket_pairs basket ↔ x ∈ basket ∧ y ∈ basket ∧ str_lt x y.
Proof.
  unfold basket_pairs. rewrite index_pairs_combinations2.
  rewrite elem_of_combinations2_sorted;
    [|apply sorted_StronglySorted|apply NoDup_sorted, NoDup_elements].
  by rewrite !elem_of_sorted, !elem_of_elements.
Qed.

Lemma NoDup_basket_pairs (basket : gset string) : NoDup (basket_pairs basket).
Proof.
  unfold basket_pairs. rewrite index_pairs_combinations2.
  apply NoDup_combinations2, NoDup_sorted, NoDup_elements.
Qed.

(** * Properties of [defaultdict(int)] *)

Section defaultdict.
Context `{Countable K}.
Implicit Types (d : gmap K Z) (k : K) (l : list K).

Lemma dd_getitem_fst d k : fst (dd_getitem d k) = count_of d k.
Proof. unfold dd_getitem, count_of. by destruct (d !! k). Qed.

Lemma dd_getitem_present d k :
  is_Some (d !! k) → snd (dd_getitem d k) = d.
Proof. unfold dd_getitem. by intros [v ->]. Qed.

Lemma count_of_dd_getitem d k k' :
  count_of (snd (dd_getitem d k)) k' = count_of d k'.
Proof.
  unfold dd_getitem, count_of. destruct (d !! k) eqn:Hk; simpl; [done|].
  destruct (decide (k = k')) as [->|Hne].
  - by rewrite lookup_insert_eq, Hk.
  - by rewrite lookup_insert_ne.
Qed.

Lemma dd_incr_insert d k : dd_incr d k = <[k := count_of d k + 1]> d.
Proof.
  unfold dd_incr, dd_getitem, count_of.
  destruct (d !! k); simpl; [done|]. by rewrite insert_insert_eq.
Qed.

Lemma lookup_foldl_dd_incr d l k :
  NoDup l →
  foldl dd_incr d l !! k =
    if decide (k ∈ l) then Some (count_of d k + 1) else d !! k.
Proof.
  intros Hnd. revert d.
  induction Hnd as [|x l Hx Hnd IH]; intros d; cbn [foldl].
  { destruct (decide (k ∈ [])) as [Hk|Hk]; [|done].
    by apply elem_of_nil in Hk. }
  rewrite IH, dd_incr_insert. unfold count_of.
  destruct (decide (k = x)) as [->|Hne].
  - rewrite decide_False by done. rewrite decide_True by left.
    by rewrite lookup_insert_eq.
  - rewrite lookup_insert_ne by done.
    destruct (decide (k ∈ l)) as [Hin|Hin].
    + rewrite decide_True; [done|by right].
    + rewrite decide_False; [done|]. by intros [?|?]%elem_of_cons.
Qed.

Lemma count_of_foldl_dd_incr d l k :
  NoDup l →
  count_of (foldl dd_incr d l) k =
    count_of d k + (if decide (k ∈ l) then 1 else 0).
Proof.
  intros Hnd. unfold count_of at 1. rewrite lookup_foldl_dd_incr by done.
  destruct (decide (k ∈ l)); simpl; [done|]. unfold count_of. lia.
Qed.

End defaultdict.

(** * What one ingestion does to the counters *)

Module Ingest.
Import AffinityCache.

Lemma foldl_add_item (c : t) (l : list string) :
  foldl add_item c l =
    mk (total_transactions c) (foldl dd_incr (item_counts c) l)
       (pair_counts c) (list_to_set l ∪ all_products c).
Proof.
  revert c. induction l as [|x l IH]; intros c; simpl.
  { destruct c; simpl. f_equal. set_solver. }
  rewrite IH. simpl. f_equal. set_solver.
Qed.

Lemma foldl_add_pair (c : t) (l : list (string * string)) :
  foldl add_pair c l =
    mk (total_transactions c) (item_counts c)
       (foldl dd_incr (pair_counts c) l) (all_products c).
Proof.
  revert c. induction l as [|x l IH]; intros c; simpl.
  { by destruct c. }
  by rewrite IH.
Qed.

Lemma update_with_new_transaction_eq (basket : gset string) (c : t) :
  update_with_new_transaction basket c =
    mk (total_transactions c + 1)
       (foldl dd_incr (item_counts c) (elements basket))
       (foldl dd_incr (pair_counts c) (basket_pairs basket))
       (basket ∪ all_products c).
Proof.
  unfold update_with_new_transaction, basket_pairs.
  rewrite foldl_add_pair, foldl_add_item. simpl.
  by rewrite list_to_set_elements_L.
Qed.

Lemma total_update (basket : gset string) (c : t) :
  total_transactions (update_with_new_transaction basket c) =
    total_transactions c + 1.
Proof. by rewrite update_with_new_transaction_eq. Qed.

Lemma all_products_update (basket : gset string) (c : t) :
  all_products (update_with_new_transaction basket c) =
    basket ∪ all_products c.
Proof. by rewrite update_with_new_transaction_eq. Qed.

Lemma lookup_item_update (basket : gset string) (c : t) (x : string) :
  item_counts (update_with_new_transaction basket c) !! x =
    if decide (x ∈ basket) then Some (count_of (item_counts c) x + 1)
    else item_counts c !! x.
Proof.
  rewrite update_with_new_transaction_eq. simpl.
  rewrite lookup_foldl_dd_incr by apply NoDup_elements.
  destruct (decide (x ∈ basket)) as [Hx|Hx].
  - rewrite decide_True; [done|]. by apply elem_of_elements.
  - rewrite decide_False; [done|]. by rewrite elem_of_elements.
Qed.

Lemma lookup_pair_update (basket : gset string) (c : t)
    (p : string * string) :
  pair_counts (update_with_new_transaction basket c) !! p =
    if decide (p ∈ basket_pairs basket)
    then Some (count_of (pair_counts c) p + 1)
    else pair_counts c !! p.
Proof.
  rewrite update_with_new_transaction_eq. simpl.
  apply lookup_foldl_dd_incr, NoDup_basket_pairs.
Qed.

Lemma count_item_update (basket : gset string) (c : t) (x : string) :
  count_of (item_counts (update_with_new_transaction basket c)) x =
    count_of (item_counts c) x + (if decide (x ∈ basket) then 1 else 0).
Proof.
  unfold count_of at 1. rewrite lookup_item_update.
  destruct (decide (x ∈ basket)); simpl; [done|]. unfold count_of. lia.
Qed.

Lemma count_pair_update (basket : gset string) (c : t)
    (p : string * string) :
  count_of (pair_counts (update_with_new_transaction basket c)) p =
    count_of (pair_counts c) p
    + (if decide (p ∈ basket_pairs basket) then 1 else 0).
Proof.
  unfold count_of at 1. rewrite lookup_pair_update.
  destruct (decide (p ∈ basket_pairs basket)); simpl; [done|].
  unfold count_of. lia.
Qed.

Lemma update_with_batch_cons (basket : gset string)
    (baskets : list (gset string)) (c : t) :
  update_with_batch (basket :: baskets) c =
    update_with_batch baskets (update_with_new_transaction basket c).
Proof. done. Qed.

Lemma update_with_batch_app (l1 l2 : list (gset string)) (c : t) :
  update_with_batch (l1 ++ l2) c =
    update_with_batch l2 (update_with_batch l1 c).
Proof. unfold update_with_batch. by rewrite foldl_app. Qed.

(** Two ingestions commute. *)
Lemma update_with_new_transaction_comm (b1 b2 : gset string) (c : t) :
  update_with_new_transaction b1 (update_with_new_transaction b2 c) =
  update_with_new_transaction b2 (update_with_new_transaction b1 c).
Proof.
  assert (Hext : ∀ c1 c2 : t,
    total_transactions c1 = total_transactions c2 →
    item_counts c1 = item_counts c2 →
    pair_counts c1 = pair_counts c2 →
    all_products c1 = all_products c2 → c1 = c2).
  { intros [] []; simpl; congruence. }
  apply Hext.
  - rewrite !total_update. lia.
  - apply map_eq. intros x.
    rewrite !lookup_item_update, !count_item_update.
    repeat case_decide; try done; f_equal; lia.
  - apply map_eq. intros p.
    rewrite !lookup_pair_update, !count_pair_update.
    repeat case_decide; try done; f_equal; lia.
  - rewrite !all_products_update. set_solver.
Qed.

Lemma update_with_batch_Permutation (l1 l2 : list (gset string)) (c : t) :
  l1 ≡ₚ l2 → update_with_batch l1 c = update_with_batch l2 c.
Proof.
  intros Hp. revert c.
  induction Hp as [|b l1 l2 _ IH|b1 b2 l|l1 l2 l3 _ IH1 _ IH2]; intros c.
  - done.
  - rewrite !update_with_batch_cons. apply IH.
  - rewrite !update_with_batch_cons.
    by rewrite update_with_new_transaction_comm.
  - by rewrite IH1.
Qed.

End Ingest.

(** * Rounding and the order of [float] *)

Module FloatFacts.

Local Open Scope Q_scope.

Lemma pow2_pos e : 0 < 2 ^ e.
Proof. by apply Qpower_0_lt. Qed.

Lemma pow2_le a b : (a <= b)%Z -> 2 ^ a <= 2 ^ b.
Proof. intros. by apply Qpower_le_compat_l. Qed.

Lemma pow2_lt a b : (a < b)%Z -> 2 ^ a < 2 ^ b.
Proof. intros. by apply Qpower_lt_compat_l. Qed.

Lemma pow2_plus a b : 2 ^ (a + b) == 2 ^ a * 2 ^ b.
Proof. by apply Qpower_plus. Qed.

Lemma pow2_inject n : (0 <= n)%Z -> 2 ^ n == inject_Z (2 ^ n).
Proof. intros. by rewrite Zpower_Qpower. Qed.

Lemma pow2_succ a : 2 ^ (a + 1) == 2 * 2 ^ a.
Proof. rewrite pow2_plus. change (2 ^ 1) with 2. ring. Qed.

Lemma floor_log2_spec x :
  0 < x -> 2 ^ floor_log2 x <= x /\ x < 2 ^ (floor_log2 x + 1).
Proof.
  intros Hx. unfold floor_log2.
  destruct x as [p q]. cbn [Qnum Qden].
  assert (Hp : (0 < p)%Z).
  { unfold Qlt in Hx. simpl in Hx. lia. }
  set (a := Z.log2 p). set (b := Z.log2 (Z.pos q)).
  destruct (Z.log2_spec p Hp) as [Ha1 Ha2]. fold a in Ha1, Ha2.
  destruct (Z.log2_spec (Z.pos q)) as [Hb1 Hb2]; [lia|]. fold b in Hb1, Hb2.
  assert (Ha0 : (0 <= a)%Z) by apply Z.log2_nonneg.
  assert (Hb0 : (0 <= b)%Z) by apply Z.log2_nonneg.
  assert (Hx' : p # q == inject_Z p / inject_Z (Z.pos q)) by apply Qmake_Qdiv.
  assert (HA1 : 2 ^ a <= inject_Z p).
  { rewrite pow2_inject by done. by rewrite <- Zle_Qle. }
  assert (HA2 : inject_Z p < 2 * 2 ^ a).
  { rewrite <- pow2_succ, pow2_inject by lia. rewrite <- Zlt_Qlt. by rewrite <- Z.add_1_r in Ha2. }
  assert (HB1 : 2 ^ b <= inject_Z (Z.pos q)).
  { rewrite pow2_inject by done. by rewrite <- Zle_Qle. }
  assert (HB2 : inject_Z (Z.pos q) < 2 * 2 ^ b).
  { rewrite <- pow2_succ, pow2_inject by lia. rewrite <- Zlt_Qlt. by rewrite <- Z.add_1_r in Hb2. }
  assert (Hd : 2 ^ a == 2 ^ (a - b) * 2 ^ b).
  { rewrite <- pow2_plus. by replace (a - b + b)%Z with a by lia. }
  pose proof (pow2_pos a) as Hpa. pose proof (pow2_pos b) as Hpb.
  pose proof (pow2_pos (a - b)) as Hpd.
  assert (Hq : 0 < inject_Z (Z.pos q)) by (rewrite <- (Zlt_Qlt 0); lia).
  set (P := inject_Z p) in *. set (R := inject_Z (Z.pos q)) in *.
  set (D := 2 ^ (a - b)) in *. set (B := 2 ^ b) in *. set (A := 2 ^ a) in *.
  assert (Hup : p # q < 2 * D).
  { rewrite Hx'. apply Qlt_shift_div_r; [done|]. nra. }
  assert (Hlo : D < 2 * (p # q)).
  { rewrite Hx'. assert (E : 2 * (P / R) == (2 * P) / R) by (field; lra). rewrite E.
    apply Qlt_shift_div_l; [done|]. nra. }
  destruct (Qle_bool D (p # q)) eqn:Hc.
  - apply Qle_bool_iff in Hc. split; [done|]. fold D. by rewrite pow2_succ.
  - assert (Hlt : p # q < D).
    { apply Qnot_le_lt. intros H. apply Qle_bool_iff in H. congruence. }
    replace (a - b - 1 + 1)%Z with (a - b)%Z by lia. split; [|done].
    assert (HD : D == 2 * 2 ^ (a - b - 1)).
    { rewrite <- pow2_succ. unfold D. by replace (a - b - 1 + 1)%Z with (a - b)%Z by lia. }
    lra.
Qed.

Lemma floor_log2_mono x y : 0 < x -> x <= y -> (floor_log2 x <= floor_log2 y)%Z.
Proof.
  intros Hx Hxy.
  destruct (floor_log2_spec x Hx) as [H1 _].
  destruct (floor_log2_spec y) as [_ H2]; [lra|].
  destruct (Z.le_gt_cases (floor_log2 x) (floor_log2 y)) as [|Hgt]; [done|].
  pose proof (pow2_le (floor_log2 y + 1) (floor_log2 x)) as H. lapply H; [|lia]. lra.
Qed.

Lemma round_half_even_bounds y :
  (Qfloor y <= round_half_even y <= Qfloor y + 1)%Z.
Proof.
  unfold round_half_even. destruct (_ ?= _); [destruct (Z.even _)| |]; lia.
Qed.

Lemma round_half_even_inject k : round_half_even (inject_Z k) = k.
Proof.
  unfold round_half_even. rewrite Qfloor_Z.
  destruct (Qcompare_spec (inject_Z k - inject_Z k) (1 # 2)) as [H|H|H];
    [lra|done|lra].
Qed.

Lemma round_half_even_mono y z :
  y <= z -> (round_half_even y <= round_half_even z)%Z.
Proof.
  intros Hyz. pose proof (Qfloor_resp_le _ _ Hyz) as Hf.
  destruct (decide (Qfloor y = Qfloor z)) as [Heq|Hne].
  - unfold round_half_even. rewrite <- Heq.
    destruct (Qcompare_spec (y - inject_Z (Qfloor y)) (1 # 2)) as [Hy|Hy|Hy];
      destruct (Qcompare_spec (z - inject_Z (Qfloor y)) (1 # 2)) as [Hz|Hz|Hz];
      try (destruct (Z.even (Qfloor y))); try lia; lra.
  - pose proof (round_half_even_bounds y). pose proof (round_half_even_bounds z). lia.
Qed.

Lemma round_half_even_le y k : y <= inject_Z k -> (round_half_even y <= k)%Z.
Proof. intros H. rewrite <- (round_half_even_inject k). by apply round_half_even_mono. Qed.

Lemma round_half_even_ge y k : inject_Z k <= y -> (k <= round_half_even y)%Z.
Proof. intros H. rewrite <- (round_half_even_inject k). by apply round_half_even_mono. Qed.

Lemma round_magnitude_nonneg x : 0 <= x -> 0 <= round_magnitude x.
Proof.
  intros Hx. unfold round_magnitude.
  pose proof (pow2_pos (grid x)) as Hp.
  assert (H : (0 <= round_half_even (x / 2 ^ grid x))%Z).
  { apply round_half_even_ge. apply Qle_shift_div_l; [done|].
    change (inject_Z 0) with 0. lra. }
  rewrite Zle_Qle in H. change (inject_Z 0) with 0 in H. nra.
Qed.

Lemma round_magnitude_mono x y :
  0 < x -> x <= y -> round_magnitude x <= round_magnitude y.
Proof.
  intros Hx Hxy. unfold round_magnitude.
  assert (Hy : 0 < y) by lra.
  pose proof (floor_log2_mono x y Hx Hxy) as Hlog.
  pose proof (pow2_pos (grid x)) as Hpx. pose proof (pow2_pos (grid y)) as Hpy.
  destruct (decide (grid x = grid y)) as [Heq|Hne].
  - rewrite Heq.
    assert (H : (round_half_even (x / 2 ^ grid y) <= round_half_even (y / 2 ^ grid y))%Z).
    { apply round_half_even_mono. apply Qle_shift_div_l; [done|].
      assert (E : x / 2 ^ grid y * 2 ^ grid y == x) by (field; lra). by rewrite E. }
    rewrite Zle_Qle in H. nra.
  - set (k := floor_log2 y).
    assert (Hgy : grid y = (k - 52)%Z) by (unfold grid in *; fold k; lia).
    assert (Hgx : (grid x <= k - 53)%Z) by (unfold grid in *; fold k in Hlog |- *; lia).
    assert (Hlt : (floor_log2 x < k)%Z) by (unfold grid in *; fold k in Hlog |- *; lia).
    destruct (floor_log2_spec x Hx) as [_ Hx2].
    destruct (floor_log2_spec y Hy) as [Hy1 _]. fold k in Hy1.
    assert (Hxk : x <= 2 ^ k).
    { pose proof (pow2_le (floor_log2 x + 1) k). lapply H; [|lia]. lra. }
    apply Qle_trans with (2 ^ k).
    + assert (Hk : 2 ^ k == inject_Z (2 ^ (k - grid x)) * 2 ^ grid x).
      { rewrite <- pow2_inject by lia. rewrite <- pow2_plus.
        by replace (k - grid x + grid x)%Z with k by lia. }
      assert (H : (round_half_even (x / 2 ^ grid x) <= 2 ^ (k - grid x))%Z).
      { apply round_half_even_le. apply Qle_shift_div_r; [done|]. lra. }
      rewrite Zle_Qle in H. rewrite Hk. nra.
    + rewrite Hgy.
      assert (Hk : 2 ^ k == inject_Z (2 ^ 52) * 2 ^ (k - 52)).
      { rewrite <- pow2_inject by lia. rewrite <- pow2_plus.
        by replace (52 + (k - 52))%Z with k by lia. }
      assert (H : (2 ^ 52 <= round_half_even (y / 2 ^ (k - 52)))%Z).
      { apply round_half_even_ge. apply Qle_shift_div_l; [by apply pow2_pos|]. lra. }
      rewrite Zle_Qle in H. pose proof (pow2_pos (k - 52)). rewrite Hk. nra.
Qed.

(** [round_magnitude] is a correct rounding: the result is a multiple of
    the last place with at most 53 bits, and it is within half a unit in
    the last place of [x]. *)
Lemma round_half_even_error y :
  - (1 # 2) <= inject_Z (round_half_even y) - y <= 1 # 2.
Proof.
  unfold round_half_even.
  pose proof (Qfloor_le y) as Hlo. pose proof (Qlt_floor y) as Hhi.
  rewrite inject_Z_plus in Hhi. change (inject_Z 1) with 1 in Hhi.
  destruct (Qcompare_spec (y - inject_Z (Qfloor y)) (1 # 2)) as [H|H|H];
    [destruct (Z.even (Qfloor y))| |];
    rewrite ?inject_Z_plus; change (inject_Z 1) with 1; lra.
Qed.

Lemma round_magnitude_nearest x :
  0 < x →
  ∃ m, (0 <= m <= 2 ^ 53)%Z
       ∧ round_magnitude x == inject_Z m * 2 ^ grid x
       ∧ - (2 ^ grid x / 2) <= round_magnitude x - x <= 2 ^ grid x / 2.
Proof.
  intros Hx. unfold round_magnitude.
  pose proof (pow2_pos (grid x)) as Hp.
  set (y := x / 2 ^ grid x).
  assert (Hy : x == y * 2 ^ grid x) by (unfold y; field; lra).
  exists (round_half_even y). split_and!.
  - apply round_half_even_ge. unfold y. change (inject_Z 0) with 0.
    apply Qle_shift_div_l; [done|]. lra.
  - apply round_half_even_le. unfold y.
    apply Qle_shift_div_r; [done|].
    destruct (floor_log2_spec x Hx) as [_ Hlt].
    assert (Hk : 2 ^ (floor_log2 x + 1) <= inject_Z (2 ^ 53) * 2 ^ grid x).
    { rewrite <- (pow2_inject 53) by done. rewrite <- pow2_plus.
      apply pow2_le. unfold grid. lia. }
    lra.
  - done.
  - pose proof (round_half_even_error y) as [He _]. clearbody y.
    set (P := 2 ^ grid x) in *. set (m := inject_Z (round_half_even y)) in *.
    assert (H : 0 <= (m - y + (1 # 2)) * P)
      by (apply Qmult_le_0_compat; lra).
    assert (E : (m - y + (1 # 2)) * P == m * P - y * P + P / 2) by field.
    rewrite E in H. lra.
  - pose proof (round_half_even_error y) as [_ He]. clearbody y.
    set (P := 2 ^ grid x) in *. set (m := inject_Z (round_half_even y)) in *.
    assert (H : 0 <= ((1 # 2) - (m - y)) * P)
      by (apply Qmult_le_0_compat; lra).
    assert (E : ((1 # 2) - (m - y)) * P == P / 2 - m * P + y * P) by field.
    rewrite E in H. lra.
Qed.

Lemma float_lt_Finite (p q : Q) : float_lt (Finite p) (Finite q) = true ↔ p < q.
Proof.
  unfold float_lt. simpl.
  destruct (Qcompare_spec p q) as [H|H|H]; split; try done; intros; lra.
Qed.

Lemma float_le_Finite (p q : Q) : float_le (Finite p) (Finite q) = true ↔ p <= q.
Proof.
  unfold float_le. simpl.
  destruct (Qcompare_spec p q) as [H|H|H]; split; try done; intros; lra.
Qed.

Lemma float_eq_Finite (p q : Q) : float_eq (Finite p) (Finite q) = true ↔ p == q.
Proof.
  unfold float_eq. simpl.
  destruct (Qcompare_spec p q) as [H|H|H]; split; try done; intros; lra.
Qed.

Lemma float_eq_zero_false (q : Q) :
  float_eq (Finite q) (Finite 0) = false ↔ ¬ q == 0.
Proof.
  rewrite <- float_eq_Finite. by destruct (float_eq _ _).
Qed.

(** Below the threshold, or at least the threshold: one of the two, when
    no NaN is compared. *)
Lemma float_lt_false (x y : float) :
  x ≠ NaN → y ≠ NaN → float_lt x y = false ↔ float_le y x = true.
Proof.
  intros Hx Hy. unfold float_lt, float_le.
  destruct x as [p|[]|], y as [q|[]|]; simpl; try done.
  rewrite <- (Qcompare_antisym p q).
  by destruct (p ?= q).
Qed.

Lemma float_lt_true (x y : float) :
  float_lt x y = true → float_le y x = false.
Proof.
  unfold float_lt, float_le.
  destruct x as [p|[]|], y as [q|[]|]; simpl; try done.
  rewrite <- (Qcompare_antisym p q).
  by destruct (p ?= q).
Qed.

Lemma float_le_not_NaN (x y : float) :
  float_le x y = true → x ≠ NaN ∧ y ≠ NaN.
Proof. by destruct x as [p|[]|], y as [q|[]|]. Qed.

Lemma float_le_refl (x : float) : x ≠ NaN → float_le x x = true.
Proof.
  destruct x as [p|[]|]; try done. intros _. apply float_le_Finite. lra.
Qed.

Lemma float_le_trans (x y z : float) :
  float_le x y = true → float_le y z = true → float_le x z = true.
Proof.
  destruct x as [p|[]|], y as [q|[]|], z as [r|[]|]; try done.
  rewrite !float_le_Finite. intros. lra.
Qed.

Lemma float_le_unit (x : float) :
  float_le (Finite 0) x = true → float_le x (Finite 1) = true →
  ∃ q, x = Finite q ∧ 0 <= q <= 1.
Proof.
  destruct x as [q|[]|]; try done.
  rewrite !float_le_Finite. intros. by exists q.
Qed.

(** ** [round64] is a lawful rounding *)

Lemma pack_false_mono (v w : Q) :
  v <= w → float_le (pack false v) (pack false w) = true.
Proof.
  intros Hvw. unfold pack.
  destruct (Qle_bool (2 ^ 1024) v) eqn:Hv, (Qle_bool (2 ^ 1024) w) eqn:Hw;
    try done.
  - apply Qle_bool_iff in Hv.
    assert (H : 2 ^ 1024 <= w) by lra. apply Qle_bool_iff in H. congruence.
  - apply float_le_Finite. by rewrite !Qred_correct.
Qed.

Lemma pack_true_mono (v w : Q) :
  v <= w → float_le (pack true w) (pack true v) = true.
Proof.
  intros Hvw. unfold pack.
  destruct (Qle_bool (2 ^ 1024) v) eqn:Hv, (Qle_bool (2 ^ 1024) w) eqn:Hw;
    try done.
  - apply Qle_bool_iff in Hv.
    assert (H : 2 ^ 1024 <= w) by lra. apply Qle_bool_iff in H. congruence.
  - apply float_le_Finite. rewrite !Qred_correct. lra.
Qed.

Lemma pack_false_nonneg (v : Q) :
  0 <= v → float_le (Finite 0) (pack false v) = true.
Proof.
  intros Hv. unfold pack. destruct (Qle_bool _ _); [done|].
  apply float_le_Finite. by rewrite Qred_correct.
Qed.

Lemma pack_true_nonpos (v : Q) :
  0 <= v → float_le (pack true v) (Finite 0) = true.
Proof.
  intros Hv. unfold pack. destruct (Qle_bool _ _); [done|].
  apply float_le_Finite. rewrite Qred_correct. lra.
Qed.

Lemma round64_proper (x y : Q) : x == y → round64 x = round64 y.
Proof.
  intros Hxy. unfold round64.
  assert (H1 : Qred x = Qred y) by by apply Qred_complete.
  assert (H2 : Qred (- x) = Qred (- y)) by (apply Qred_complete; lra).
  rewrite H1, H2.
  destruct (Qcompare_spec x 0), (Qcompare_spec y 0); try done; lra.
Qed.

Lemma round64_mono (x y : Q) :
  x <= y → float_le (round64 x) (round64 y) = true.
Proof.
  intros Hxy. unfold round64.
  destruct (Qcompare_spec x 0) as [Hx|Hx|Hx],
           (Qcompare_spec y 0) as [Hy|Hy|Hy]; try lra.
  - done.
  - apply pack_false_nonneg, round_magnitude_nonneg. rewrite Qred_correct. lra.
  - apply pack_true_nonpos, round_magnitude_nonneg. rewrite Qred_correct. lra.
  - apply pack_true_mono, round_magnitude_mono; rewrite !Qred_correct; lra.
  - apply float_le_trans with (Finite 0).
    + apply pack_true_nonpos, round_magnitude_nonneg.
      rewrite Qred_correct. lra.
    + apply pack_false_nonneg, round_magnitude_nonneg.
      rewrite Qred_correct. lra.
  - apply pack_false_mono, round_magnitude_mono; rewrite !Qred_correct; lra.
Qed.

End FloatFacts.

Global Instance binary64_lawful : Lawful binary64.
Proof.
  split.
  - apply FloatFacts.round64_proper.
  - by vm_compute.
  - by vm_compute.
  - apply FloatFacts.round64_mono.
Qed.

Global Instance exact_lawful : Lawful exact_arithmetic.
Proof.
  split; simpl.
  - intros x y Hxy. f_equal. by apply Qred_complete.
  - done.
  - done.
  - intros x y Hxy. apply FloatFacts.float_le_Finite.
    by rewrite !Qred_correct.
Qed.

(** * What the roundings keep *)

Module Rounding.
Import FloatFacts CacheSpec.

Section laws.
Context {ar : Arithmetic} {laws : Lawful ar}.

Lemma round_not_NaN (x : Q) : round x ≠ NaN.
Proof.
  assert (H : float_le (round x) (round x) = true)
    by (apply round_mono; apply Qle_refl).
  by apply float_le_not_NaN in H as [? _].
Qed.

Lemma round_nonneg (x : Q) :
  (0 <= x)%Q → float_le (Finite 0) (round x) = true.
Proof. intros Hx. rewrite <- round_zero. by apply round_mono. Qed.

Lemma round_unit (x : Q) :
  (0 <= x <= 1)%Q → ∃ q, round x = Finite q ∧ (0 <= q <= 1)%Q.
Proof.
  intros [H0 H1]. apply float_le_unit.
  - by apply round_nonneg.
  - rewrite <- round_one. by apply round_mono.
Qed.

Lemma round_zero_num (y : Q) : round (0 / y) = Finite 0.
Proof.
  rewrite <- round_zero. apply round_proper. unfold Qdiv. apply Qmult_0_l.
Qed.

Lemma ratio_zero (T : Z) : ratio 0 T = Finite 0.
Proof. unfold ratio. apply round_zero_num. Qed.

Lemma Qdiv_Z_bounds (n T : Z) :
  0 ≤ n ≤ T → T ≠ 0 → (0 <= inject_Z n / inject_Z T <= 1)%Q.
Proof.
  intros Hn HT.
  assert (HT' : (0 < inject_Z T)%Q).
  { change 0%Q with (inject_Z 0). rewrite <- Zlt_Qlt. lia. }
  split.
  - apply Qle_shift_div_l; [done|]. rewrite Qmult_0_l.
    change 0%Q with (inject_Z 0). rewrite <- Zle_Qle. lia.
  - apply Qle_shift_div_r; [done|]. rewrite Qmult_1_l.
    rewrite <- Zle_Qle. lia.
Qed.

Lemma Qdiv_Z_mono (n m T : Z) :
  n ≤ m → 0 < T → (inject_Z n / inject_Z T <= inject_Z m / inject_Z T)%Q.
Proof.
  intros Hnm HT. unfold Qdiv. apply Qmult_le_compat_r.
  - rewrite <- Zle_Qle. lia.
  - apply Qinv_le_0_compat. change 0%Q with (inject_Z 0).
    rewrite <- Zle_Qle. lia.
Qed.

Lemma Qdiv_unit_interval (x y : Q) :
  (0 <= x)%Q → (x <= y)%Q → ¬ (y == 0)%Q → (0 <= x / y <= 1)%Q.
Proof.
  intros Hx Hxy Hy.
  assert (Hy' : (0 < y)%Q).
  { apply Qle_lt_or_eq in Hx as [Hx|Hx].
    - eapply Qlt_le_trans; eauto.
    - rewrite <- Hx in Hxy. apply Qle_lt_or_eq in Hxy as [|Heq]; [done|].
      destruct Hy. by symmetry. }
  split.
  - apply Qle_shift_div_l; [done|]. by rewrite Qmult_0_l.
  - apply Qle_shift_div_r; [done|]. by rewrite Qmult_1_l.
Qed.

(** A count within its total: the ratio is a value between 0 and 1, and
    a larger count has a ratio that is not smaller. *)
Lemma ratio_unit (n T : Z) :
  0 ≤ n ≤ T → T ≠ 0 → ∃ q, ratio n T = Finite q ∧ (0 <= q <= 1)%Q.
Proof. intros Hn HT. by apply round_unit, Qdiv_Z_bounds. Qed.

Lemma ratio_mono (n m T : Z) :
  n ≤ m → 0 < T → float_le (ratio n T) (ratio m T) = true.
Proof. intros Hnm HT. by apply round_mono, Qdiv_Z_mono. Qed.

Lemma float_div_Finite_not_NaN (p q : Q) :
  float_div (Finite p) (Finite q) ≠ NaN.
Proof. apply round_not_NaN. Qed.

(** The quotient of two values, the first between zero and the second. *)
Lemma float_div_unit (p q : Q) :
  (0 <= p)%Q → (p <= q)%Q → ¬ (q == 0)%Q →
  ∃ r, float_div (Finite p) (Finite q) = Finite r ∧ (0 <= r <= 1)%Q.
Proof. intros H0 Hpq Hq. by apply round_unit, Qdiv_unit_interval. Qed.

Lemma float_div_zero_num (y : float) :
  is_finite y → float_div (Finite 0) y = Finite 0.
Proof. destruct y as [q| |]; try done. intros _. apply round_zero_num. Qed.

End laws.

Lemma int_truediv_ratio {ar : Arithmetic} (n T : Z) :
  T ≠ 0 → is_finite (ratio n T) → int_truediv n T = Ok (ratio n T).
Proof.
  intros HT Hf. unfold int_truediv, ratio in *. rewrite decide_False by done.
  by destruct (round _).
Qed.

Lemma int_truediv_zero {ar : Arithmetic} (n : Z) :
  int_truediv n 0 = Raise ZeroDivisionError.
Proof. done. Qed.

Lemma float_truediv_ok {ar : Arithmetic} (x y : float) :
  float_eq y (Finite 0) = false → float_truediv x y = Ok (float_div x y).
Proof. intros H. unfold float_truediv. by rewrite H. Qed.

End Rounding.

(** * The queries of the cache *)

Module Queries.
Import AffinityCache CacheSpec FloatFacts Rounding.

Lemma same_counts_refl (c : t) : same_counts c c.
Proof. by repeat split. Qed.

Lemma same_counts_trans (c1 c2 c3 : t) :
  same_counts c1 c2 → same_counts c2 c3 → same_counts c1 c3.
Proof.
  intros (Ht & Ha & Hi & Hp) (Ht' & Ha' & Hi' & Hp'). split_and!.
  - congruence.
  - congruence.
  - intros x. by rewrite Hi', Hi.
  - intros p. by rewrite Hp', Hp.
Qed.

Lemma same_counts_touch_item (x : string) (c : t) :
  same_counts c (touch_item x c).
Proof.
  unfold touch_item. split_and!; simpl; try done.
  intros y. apply count_of_dd_getitem.
Qed.

Lemma same_counts_touch_pair (p : string * string) (c : t) :
  same_counts c (touch_pair p c).
Proof.
  unfold touch_pair. split_and!; simpl; try done.
  intros q. apply count_of_dd_getitem.
Qed.

Lemma same_counts_after_support (itemset : list string) (c : t) :
  same_counts c (after_support itemset c).
Proof.
  unfold after_support. case_decide; [apply same_counts_refl|].
  destruct itemset as [|x [|y [|z l]]];
    auto using same_counts_refl, same_counts_touch_item,
               same_counts_touch_pair.
Qed.

Section arith.
Context {ar : Arithmetic}.

Lemma same_counts_after_confidence (a b : string) (c : t) :
  same_counts c (after_confidence a b c).
Proof.
  unfold after_confidence. destruct (float_eq _ _).
  - apply same_counts_after_support.
  - eapply same_counts_trans; apply same_counts_after_support.
Qed.

Lemma same_counts_after_lift (a b : string) (c : t) :
  same_counts c (after_lift a b c).
Proof.
  unfold after_lift. eapply same_counts_trans;
    [apply same_counts_after_confidence|apply same_counts_after_support].
Qed.

Lemma support_item_same (c c' : t) (x : string) :
  same_counts c c' → support_item c' x = support_item c x.
Proof.
  intros (Ht & _ & Hi & _). unfold support_item. by rewrite Ht, Hi.
Qed.

Lemma support_key_same (c c' : t) (p : string * string) :
  same_counts c c' → support_key c' p = support_key c p.
Proof.
  intros (Ht & _ & _ & Hp). unfold support_key. by rewrite Ht, Hp.
Qed.

Lemma support_pair_same (c c' : t) (a b : string) :
  same_counts c c' → support_pair c' a b = support_pair c a b.
Proof. apply support_key_same. Qed.

Lemma support_pair_comm (c : t) (a b : string) :
  support_pair c b a = support_pair c a b.
Proof. unfold support_pair. by rewrite sorted_pair_comm. Qed.

Lemma confidence_val_same (c c' : t) (a b : string) :
  same_counts c c' → confidence_val c' a b = confidence_val c a b.
Proof.
  intros H. unfold confidence_val.
  by rewrite (support_item_same _ _ _ H), (support_pair_same _ _ _ _ H).
Qed.

Lemma lift_val_same (c c' : t) (a b : string) :
  same_counts c c' → lift_val c' a b = lift_val c a b.
Proof.
  intros H. unfold lift_val.
  by rewrite (support_item_same _ _ _ H), (confidence_val_same _ _ _ _ H).
Qed.

Lemma finite_supports_same (c c' : t) :
  same_counts c c' → finite_supports c → finite_supports c'.
Proof.
  intros Hs [Hi Hp]. split.
  - intros x. by rewrite (support_item_same c).
  - intros p. by rewrite (support_key_same c).
Qed.

Lemma finite_after_support (itemset : list string) (c : t) :
  finite_supports c → finite_supports (after_support itemset c).
Proof. apply finite_supports_same, same_counts_after_support. Qed.

Lemma finite_after_confidence (a b : string) (c : t) :
  finite_supports c → finite_supports (after_confidence a b c).
Proof. apply finite_supports_same, same_counts_after_confidence. Qed.

(** What each query returns and the cache it leaves, when no division of
    two counters is out of range. *)
Lemma get_support_eq (itemset : list string) (c : t) :
  finite_supports c →
  get_support itemset c = Ok (support_val c itemset, after_support itemset c).
Proof.
  intros [Hi Hp].
  unfold get_support, after_support, support_val, bind, get_total, ret.
  destruct (decide (total_transactions c = 0)) as [Ht|Ht].
  { destruct itemset as [|x [|y [|z l]]]; try done;
      unfold support_item, support_pair, support_key;
      by rewrite decide_True. }
  destruct itemset as [|x [|y [|z l]]]; try done.
  - specialize (Hi x). unfold support_item in *.
    rewrite decide_False in Hi |- * by done.
    unfold read_item_count, touch_item, lift_result.
    rewrite <- dd_getitem_fst in Hi |- *.
    destruct (dd_getitem (item_counts c) x) as [v d]. simpl in *.
    by rewrite int_truediv_ratio.
  - specialize (Hp (sorted_pair x y)). unfold support_pair, support_key in *.
    rewrite decide_False in Hp |- * by done.
    unfold read_pair_count, touch_pair, lift_result.
    rewrite <- dd_getitem_fst in Hp |- *.
    destruct (dd_getitem (pair_counts c) (sorted_pair x y)) as [v d].
    simpl in *. by rewrite int_truediv_ratio.
Qed.

Lemma get_confidence_eq (a b : string) (c : t) :
  finite_supports c →
  get_confidence a b c = Ok (confidence_val c a b, after_confidence a b c).
Proof.
  intros Hf. unfold get_confidence, bind. rewrite get_support_eq by done.
  unfold confidence_val, after_confidence.
  change (support_val c [a]) with (support_item c a).
  destruct (float_eq (support_item c a) (Finite 0)) eqn:Hz; [done|].
  rewrite get_support_eq by by apply finite_after_support.
  change (support_val ?c' [a; b]) with (support_pair c' a b).
  rewrite (support_pair_same c) by apply same_counts_after_support.
  unfold lift_result. by rewrite float_truediv_ok.
Qed.

Lemma get_lift_eq (a b : string) (c : t) :
  finite_supports c →
  get_lift a b c = Ok (lift_val c a b, after_lift a b c).
Proof.
  intros Hf. unfold get_lift, bind.
  rewrite get_confidence_eq by done.
  rewrite get_support_eq by by apply finite_after_confidence.
  unfold lift_val, after_lift.
  change (support_val ?c' [b]) with (support_item c' b).
  rewrite (support_item_same c) by apply same_counts_after_confidence.
  destruct (float_eq (support_item c b) (Finite 0)) eqn:Hz; [done|].
  unfold lift_result. by rewrite float_truediv_ok.
Qed.

Lemma pair_counts_after_support_item (x : string) (c : t) :
  pair_counts (after_support [x] c) = pair_counts c.
Proof. unfold after_support. by case_decide. Qed.

Lemma pair_counts_after_support_pair (a b : string) (c : t) :
  is_Some (pair_counts c !! sorted_pair a b) →
  pair_counts (after_support [a; b] c) = pair_counts c.
Proof.
  intros Hk. unfold after_support, touch_pair. case_decide; [done|].
  simpl. by apply dd_getitem_present.
Qed.

Lemma pair_counts_after_confidence (a b : string) (c : t) :
  is_Some (pair_counts c !! sorted_pair a b) →
  pair_counts (after_confidence a b c) = pair_counts c.
Proof.
  intros Hk. unfold after_confidence. destruct (float_eq _ _).
  - apply pair_counts_after_support_item.
  - rewrite pair_counts_after_support_pair;
      rewrite pair_counts_after_support_item; done.
Qed.

Lemma pair_counts_after_lift (a b : string) (c : t) :
  is_Some (pair_counts c !! sorted_pair a b) →
  pair_counts (after_lift a b c) = pair_counts c.
Proof.
  intros Hk. unfold after_lift.
  rewrite pair_counts_after_support_item.
  by apply pair_counts_after_confidence.
Qed.

(** A query on a recorded pair, run in a cache that a subscript cannot
    tell from [c0]. *)
Lemma get_confidence_recorded (c0 c : t) (a b : string) :
  finite_supports c0 →
  same_counts c0 c → is_Some (pair_counts c !! sorted_pair a b) →
  ∃ c', get_confidence a b c = Ok (confidence_val c0 a b, c')
        ∧ same_counts c0 c' ∧ pair_counts c' = pair_counts c.
Proof.
  intros Hf Hs Hk. exists (after_confidence a b c). split_and!.
  - rewrite get_confidence_eq by by eapply finite_supports_same.
    by rewrite (confidence_val_same c0).
  - eapply same_counts_trans; [done|apply same_counts_after_confidence].
  - by apply pair_counts_after_confidence.
Qed.

Lemma get_lift_recorded (c0 c : t) (a b : string) :
  finite_supports c0 →
  same_counts c0 c → is_Some (pair_counts c !! sorted_pair a b) →
  ∃ c', get_lift a b c = Ok (lift_val c0 a b, c')
        ∧ same_counts c0 c' ∧ pair_counts c' = pair_counts c.
Proof.
  intros Hf Hs Hk. exists (after_lift a b c). split_and!.
  - rewrite get_lift_eq by by eapply finite_supports_same.
    by rewrite (lift_val_same c0).
  - eapply same_counts_trans; [done|apply same_counts_after_lift].
  - by apply pair_counts_after_lift.
Qed.

Context {laws : Lawful ar}.

Lemma confidence_val_not_NaN (c : t) (a b : string) :
  finite_supports c → confidence_val c a b ≠ NaN.
Proof.
  intros [Hi Hp]. unfold confidence_val. destruct (float_eq _ _); [done|].
  specialize (Hi a). specialize (Hp (sorted_pair a b)).
  unfold support_pair.
  destruct (support_item c a), (support_key c (sorted_pair a b)); try done.
  apply float_div_Finite_not_NaN.
Qed.

(** The test of the code, [support < min_support], against the words of
    the specification, support at least [min_support]. *)
Lemma below_threshold (x : float) (threshold : Q) :
  x ≠ NaN →
  float_lt x (Finite threshold) = negb (float_le (Finite threshold) x).
Proof.
  intros Hx. destruct (float_lt x (Finite threshold)) eqn:Hlt.
  - by rewrite (float_lt_true _ _ Hlt).
  - apply float_lt_false in Hlt; [|done|done]. by rewrite Hlt.
Qed.

Lemma affinities_body_eq (ms mc : Q) (c0 c : t)
    (entry : (string * string) * Z) :
  finite_supports c0 →
  total_transactions c0 ≠ 0 → canonical_keys c0 →
  pair_counts c0 !! fst entry = Some (snd entry) →
  same_counts c0 c → pair_counts c = pair_counts c0 →
  ∃ c', affinities_body ms mc entry c =
          Ok (if decide (passes c0 ms mc entry) then pair_rules c0 entry
              else [], c')
        ∧ same_counts c0 c' ∧ pair_counts c' = pair_counts c0.
Proof.
  destruct entry as [[a b] n]. simpl fst; simpl snd.
  intros Hf Ht Hcan Hn Hs Hpc.
  assert (Hab : sorted_pair a b = (a, b)).
  { apply sorted_pair_sorted, Hcan. by rewrite Hn. }
  assert (Hba : sorted_pair b a = (a, b)) by by rewrite sorted_pair_comm.
  assert (Hk : ∀ c1, pair_counts c1 = pair_counts c0 →
                is_Some (pair_counts c1 !! (a, b))).
  { intros c1 ->. by rewrite Hn. }
  assert (Hfin : is_finite (ratio n (total_transactions c0))).
  { destruct Hf as [_ Hp]. specialize (Hp (a, b)).
    unfold support_key, count_of in Hp.
    by rewrite decide_False, Hn in Hp by done. }
  unfold affinities_body, bind, get_total, lift_result.
  destruct Hs as (Htc & Hs'). pose proof (conj Htc Hs') as Hs.
  rewrite Htc, int_truediv_ratio by done.
  unfold passes, pair_rules.
  set (s := ratio n (total_transactions c0)) in *.
  assert (Hs0 : s ≠ NaN) by by destruct s.
  rewrite (below_threshold s ms Hs0).
  destruct (decide _) as [[Hle Hconf]|Hnot].
  - rewrite Hle. simpl.
    destruct (get_confidence_recorded c0 c a b) as (c1 & -> & Hs1 & Hp1);
      [done|done|rewrite Hab; by apply Hk|].
    rewrite Hpc in Hp1.
    destruct (get_confidence_recorded c0 c1 b a) as (c2 & -> & Hs2 & Hp2);
      [done|done|rewrite Hba; by apply Hk|].
    rewrite Hp1 in Hp2.
    rewrite !below_threshold by by apply confidence_val_not_NaN.
    assert (Hand : negb (float_le (Finite mc) (confidence_val c0 a b))
                   && negb (float_le (Finite mc) (confidence_val c0 b a))
                   = false).
    { destruct Hconf as [-> | ->]; simpl; [done|]. apply andb_false_r. }
    rewrite Hand.
    destruct (get_lift_recorded c0 c2 a b) as (c3 & -> & Hs3 & Hp3);
      [done|done|rewrite Hab; by apply Hk|].
    rewrite Hp2 in Hp3.
    destruct (get_lift_recorded c0 c3 b a) as (c4 & -> & Hs4 & Hp4);
      [done|done|rewrite Hba; by apply Hk|].
    rewrite Hp3 in Hp4.
    by exists c4.
  - destruct (float_le (Finite ms) s) eqn:Hle; simpl; [|by exists c].
    destruct (get_confidence_recorded c0 c a b) as (c1 & -> & Hs1 & Hp1);
      [done|done|rewrite Hab; by apply Hk|].
    rewrite Hpc in Hp1.
    destruct (get_confidence_recorded c0 c1 b a) as (c2 & -> & Hs2 & Hp2);
      [done|done|rewrite Hba; by apply Hk|].
    rewrite Hp1 in Hp2.
    rewrite !below_threshold by by apply confidence_val_not_NaN.
    assert (Hand : negb (float_le (Finite mc) (confidence_val c0 a b))
                   && negb (float_le (Finite mc) (confidence_val c0 b a))
                   = true).
    { destruct (float_le (Finite mc) (confidence_val c0 a b)) eqn:H1;
        [destruct Hnot; split; [done|by left]|].
      destruct (float_le (Finite mc) (confidence_val c0 b a)) eqn:H2;
        [destruct Hnot; split; [done|by right]|]. done. }
    rewrite Hand. by exists c2.
Qed.

Lemma affinities_loop_eq (ms mc : Q) (c0 : t)
    (entries : list ((string * string) * Z)) :
  finite_supports c0 →
  (entries ≠ [] → total_transactions c0 ≠ 0) → canonical_keys c0 →
  (∀ e, e ∈ entries → pair_counts c0 !! fst e = Some (snd e)) →
  ∀ (results : list Rule) (c : t),
    same_counts c0 c → pair_counts c = pair_counts c0 →
    ∃ c', affinities_loop ms mc (size (pair_counts c0)) entries results c =
            Ok (results
                ++ flat_map (pair_rules c0) (filter (passes c0 ms mc) entries),
                c')
          ∧ same_counts c0 c' ∧ pair_counts c' = pair_counts c0.
Proof.
  intros Hf Ht Hcan. induction entries as [|e entries IH];
    intros Hin results c Hs Hpc; simpl affinities_loop.
  { rewrite Hpc, decide_True by done. exists c.
    by rewrite filter_nil, app_nil_r. }
  rewrite Hpc, decide_True by done.
  destruct (affinities_body_eq ms mc c0 c e) as (c1 & -> & Hs1 & Hp1);
    [done|by apply Ht|done|apply Hin; by left|done|done|].
  destruct (IH) with (results := results ++
      (if decide (passes c0 ms mc e) then pair_rules c0 e else []))
      (c := c1) as (c2 & -> & Hs2 & Hp2); try done.
  { intros _. by apply Ht. }
  { intros e' He'. apply Hin. by right. }
  exists c2. split_and!; [|done|done].
  rewrite filter_cons. destruct (decide (passes c0 ms mc e)); simpl.
  - by rewrite <- app_assoc.
  - by rewrite app_nil_r.
Qed.

(** The rules query on a well formed cache. *)
Lemma get_updated_affinities_eq (ms mc : Q) (c : t) :
  finite_supports c → well_formed c →
  ∃ c', get_updated_affinities ms mc c =
          Ok (DataFrame_of_records
                (flat_map (pair_rules c)
                   (filter (passes c ms mc) (map_to_list (pair_counts c)))),
              c')
        ∧ same_counts c c' ∧ pair_counts c' = pair_counts c.
Proof.
  intros Hf [Ht Hcan]. unfold get_updated_affinities.
  assert (H1 : map_to_list (pair_counts c) ≠ [] → total_transactions c ≠ 0).
  { intros Hne. apply Ht. intros Hemp. apply Hne.
    rewrite Hemp. apply map_to_list_empty. }
  assert (H2 : ∀ e, e ∈ map_to_list (pair_counts c) →
                pair_counts c !! fst e = Some (snd e)).
  { intros [k v] Hkv. by apply elem_of_map_to_list in Hkv. }
  destruct (affinities_loop_eq ms mc c _ Hf H1 Hcan H2 [] c
              (same_counts_refl c) eq_refl) as (c' & -> & Hs & Hp).
  by exists c'.
Qed.

End arith.

End Queries.

(** * Invariants of the cache *)

Module Invariants.
Import AffinityCache CacheSpec Ingest Bounds.

Lemma update_with_batch_ind (P : t → Prop) :
  (∀ basket c, P c → P (update_with_new_transaction basket c)) →
  ∀ baskets c, P c → P (update_with_batch baskets c).
Proof.
  intros Hstep baskets. induction baskets as [|b bs IH]; intros c Hc; [done|].
  rewrite update_with_batch_cons. by apply IH, Hstep.
Qed.

Lemma item_count_bound_update (basket : gset string) (c : t) :
  item_count_bound c → item_count_bound (update_with_new_transaction basket c).
Proof.
  intros Hc x. rewrite count_item_update, total_update.
  specialize (Hc x). case_decide; lia.
Qed.

Lemma pair_count_bound_update (basket : gset string) (c : t) :
  pair_count_bound c → pair_count_bound (update_with_new_transaction basket c).
Proof.
  intros Hc x y. rewrite count_pair_update, !count_item_update.
  specialize (Hc x y).
  destruct (decide ((x, y) ∈ basket_pairs basket)) as [Hin|Hin].
  - apply elem_of_basket_pairs in Hin as (Hx & Hy & _).
    rewrite !decide_True by done. lia.
  - repeat case_decide; lia.
Qed.

Lemma item_count_bound_init : item_count_bound init.
Proof. intros x. unfold count_of. simpl. by rewrite lookup_empty. Qed.

Lemma pair_count_bound_init : pair_count_bound init.
Proof.
  intros x y. unfold count_of. simpl. by rewrite !lookup_empty.
Qed.

Lemma ingested_bounds (c : t) :
  ingested c → item_count_bound c ∧ pair_count_bound c.
Proof.
  induction 1 as [|b c _ [IHi IHp]|bs c _ [IHi IHp]].
  - split; [apply item_count_bound_init|apply pair_count_bound_init].
  - split; [by apply item_count_bound_update|by apply pair_count_bound_update].
  - split.
    + apply update_with_batch_ind; [apply item_count_bound_update|done].
    + apply update_with_batch_ind; [apply pair_count_bound_update|done].
Qed.

Lemma counted_well_formed (c : t) : counted c → well_formed c.
Proof. intros (H0 & Hp & Hk). split; [|done]. intros Hne. apply Hp in Hne. lia. Qed.

Lemma counted_init : counted init.
Proof.
  split_and!; simpl; [done|done|].
  intros a b [v Hv]. simpl in Hv. by rewrite lookup_empty in Hv.
Qed.

Lemma counted_update (basket : gset string) (c : t) :
  counted c → counted (update_with_new_transaction basket c).
Proof.
  intros (H0 & Hp & Hk). split_and!.
  - rewrite total_update. lia.
  - intros _. rewrite total_update. lia.
  - intros a b. rewrite lookup_pair_update.
    destruct (decide ((a, b) ∈ basket_pairs basket)) as [Hin|Hin].
    + intros _. by apply elem_of_basket_pairs in Hin as (_ & _ & [Hle _]).
    + apply Hk.
Qed.

Lemma counted_after_support (itemset : list string) (c : t) :
  counted c → counted (after_support itemset c).
Proof.
  intros (H0 & Hp & Hk). unfold after_support. case_decide as Ht; [done|].
  destruct itemset as [|x [|y [|z l]]]; try done.
  unfold touch_pair, dd_getitem.
  destruct (pair_counts c !! sorted_pair x y) eqn:Hxy; [by destruct c|].
  split_and!; simpl; [done|lia|].
  intros a b. unfold set_pair_counts. simpl.
  destruct (decide (sorted_pair x y = (a, b))) as [Heq|Hne].
  - intros _. rewrite sorted_pair_spec in Heq.
    destruct (decide (str_le x y)) as [Hle|Hle]; injection Heq as <- <-;
      [done|]. by destruct (total str_le x y).
  - rewrite lookup_insert_ne by done. apply Hk.
Qed.

(** The bounds, with zero below. *)
Lemma bounded_init : bounded init.
Proof.
  split; intros; unfold count_of; simpl; rewrite ?lookup_empty; simpl; lia.
Qed.

Lemma bounded_update (basket : gset string) (c : t) :
  bounded c → bounded (update_with_new_transaction basket c).
Proof.
  intros [Hi Hp]. split.
  - intros x. rewrite count_item_update, total_update.
    specialize (Hi x). case_decide; lia.
  - intros x y. rewrite count_pair_update, !count_item_update.
    specialize (Hp x y).
    destruct (decide ((x, y) ∈ basket_pairs basket)) as [Hin|Hin].
    + apply elem_of_basket_pairs in Hin as (Hx & Hy & _).
      rewrite !decide_True by done. lia.
    + repeat case_decide; lia.
Qed.

Lemma bounded_same_counts (c c' : t) :
  same_counts c c' → bounded c → bounded c'.
Proof.
  intros (Ht & _ & Hi & Hp) [Bi Bp]. split.
  - intros x. rewrite Hi, Ht. apply Bi.
  - intros x y. rewrite Hp, !Hi. apply Bp.
Qed.

Lemma ingested_bounded (c : t) : ingested c → bounded c.
Proof.
  induction 1 as [|b c _ IH|bs c _ IH].
  - apply bounded_init.
  - by apply bounded_update.
  - apply update_with_batch_ind; [apply bounded_update|done].
Qed.

Lemma ingested_counted (c : t) : ingested c → counted c.
Proof.
  induction 1 as [|b c _ IH|bs c _ IH].
  - apply counted_init.
  - by apply counted_update.
  - apply update_with_batch_ind; [apply counted_update|done].
Qed.

Section arith.
Context {ar : Arithmetic}.

Lemma counted_after_confidence (a b : string) (c : t) :
  counted c → counted (after_confidence a b c).
Proof.
  intros Hc. unfold after_confidence.
  destruct (float_eq _ _); auto using counted_after_support.
Qed.

Lemma counted_after_lift (a b : string) (c : t) :
  counted c → counted (after_lift a b c).
Proof.
  intros Hc. unfold after_lift.
  auto using counted_after_support, counted_after_confidence.
Qed.

Lemma ingested_reachable (c : t) : ingested c → reachable c.
Proof. induction 1; by constructor. Qed.

Context {laws : Lawful ar}.

(** Counters within their bounds: no division of two counters is out of
    range, every support is a value between 0 and 1. *)
Lemma bounded_support_item (c : t) (x : string) :
  bounded c → ∃ q, support_item c x = Finite q ∧ (0 <= q <= 1)%Q.
Proof.
  intros [Hi _]. unfold support_item. case_decide.
  - by exists 0%Q.
  - by apply Rounding.ratio_unit.
Qed.

Lemma bounded_support_key (c : t) (p : string * string) :
  bounded c → ∃ q, support_key c p = Finite q ∧ (0 <= q <= 1)%Q.
Proof.
  intros [Hi Hp]. unfold support_key. case_decide.
  - by exists 0%Q.
  - destruct p as [x y]. apply Rounding.ratio_unit; [|done].
    specialize (Hi x). specialize (Hp x y). lia.
Qed.

Lemma bounded_finite (c : t) : bounded c → finite_supports c.
Proof.
  intros Hb. split.
  - intros x. by destruct (bounded_support_item c x Hb) as (q & -> & _).
  - intros p. by destruct (bounded_support_key c p Hb) as (q & -> & _).
Qed.

(** The queries keep every count: only keys with the count [0] can
    appear. *)
Lemma run_query_same_counts (q : Query) (c c' : t) :
  finite_supports c → well_formed c → run_query q c = Ok c' →
  same_counts c c'.
Proof.
  intros Hf Hwf. destruct q as [itemset|a b|a b|ms mc|]; simpl.
  - rewrite Queries.get_support_eq by done. intros [= <-].
    apply Queries.same_counts_after_support.
  - rewrite Queries.get_confidence_eq by done. intros [= <-].
    apply Queries.same_counts_after_confidence.
  - rewrite Queries.get_lift_eq by done. intros [= <-].
    apply Queries.same_counts_after_lift.
  - destruct (Queries.get_updated_affinities_eq ms mc c Hf Hwf)
      as (c1 & -> & Hs & _). by intros [= <-].
  - intros [= <-]. apply Queries.same_counts_refl.
Qed.

Lemma counted_run_query (q : Query) (c c' : t) :
  finite_supports c → counted c → run_query q c = Ok c' → counted c'.
Proof.
  intros Hf Hc. destruct q as [itemset|a b|a b|ms mc|]; simpl.
  - rewrite Queries.get_support_eq by done. intros [= <-].
    by apply counted_after_support.
  - rewrite Queries.get_confidence_eq by done. intros [= <-].
    by apply counted_after_confidence.
  - rewrite Queries.get_lift_eq by done. intros [= <-].
    by apply counted_after_lift.
  - destruct (Queries.get_updated_affinities_eq ms mc c)
      as (c1 & -> & (Ht & _) & Hp); [done|by apply counted_well_formed|].
    intros [= <-]. destruct Hc as (H0 & Hpos & Hk).
    unfold counted, canonical_keys. rewrite Ht, Hp. done.
  - by intros [= <-].
Qed.

Lemma reachable_counted_bounded (c : t) : reachable c → counted c ∧ bounded c.
Proof.
  induction 1 as [|b c _ [IHc IHb]|bs c _ [IHc IHb]|q c c' _ [IHc IHb] Hq].
  - split; [apply counted_init|apply bounded_init].
  - split; [by apply counted_update|by apply bounded_update].
  - split.
    + apply update_with_batch_ind; [apply counted_update|done].
    + apply update_with_batch_ind; [apply bounded_update|done].
  - pose proof (bounded_finite c IHb) as Hf. split.
    + by eapply counted_run_query.
    + eapply bounded_same_counts; [|exact IHb].
      eapply run_query_same_counts; [done| |exact Hq].
      by apply counted_well_formed.
Qed.

Lemma reachable_counted (c : t) : reachable c → counted c.
Proof. by intros [? _]%reachable_counted_bounded. Qed.

Lemma reachable_bounded (c : t) : reachable c → bounded c.
Proof. by intros [_ ?]%reachable_counted_bounded. Qed.

Lemma reachable_well_formed (c : t) : reachable c → well_formed c.
Proof. intros Hc. by apply counted_well_formed, reachable_counted. Qed.

Lemma reachable_finite (c : t) : reachable c → finite_supports c.
Proof. intros Hc. by apply bounded_finite, reachable_bounded. Qed.

End arith.

End Invariants.

(** * The batch analyzer *)

Module Analyzer.
Import MarketBasketAnalyzer AnalyzerSpec.

Lemma count_baskets_nonneg (itemset : gset string)
    (baskets : list (gset string)) :
  0 ≤ count_baskets itemset baskets.
Proof. unfold count_baskets. lia. Qed.

Lemma count_baskets_le_length (itemset : gset string)
    (baskets : list (gset string)) :
  count_baskets itemset baskets ≤ Z.of_nat (length baskets).
Proof.
  unfold count_baskets.
  pose proof (length_filter (fun basket => itemset ⊆ basket) baskets). lia.
Qed.

Section arith.
Context {ar : Arithmetic}.

Lemma support_of_swap (self : t) (x y : string) :
  support_of self [y; x] = support_of self [x; y].
Proof.
  unfold support_of.
  assert (Hset : (list_to_set [y; x] : gset string) = list_to_set [x; y])
    by set_solver.
  by rewrite Hset.
Qed.

Lemma calculate_support_eq (itemset : list string) (self : t) :
  finite_supports self →
  calculate_support itemset self = Ok (support_of self itemset).
Proof.
  intros Hf. specialize (Hf itemset).
  unfold calculate_support, support_of in *.
  destruct (decide (total_transactions self = 0)); [done|].
  by apply Rounding.int_truediv_ratio.
Qed.

Lemma calculate_confidence_eq (a b : string) (self : t) :
  finite_supports self →
  calculate_confidence a b self = Ok (confidence_of self a b).
Proof.
  intros Hf. unfold calculate_confidence, confidence_of, rbind.
  rewrite !calculate_support_eq by done.
  destruct (float_eq (support_of self [a]) (Finite 0)) eqn:Hz; [done|].
  by apply Rounding.float_truediv_ok.
Qed.

Lemma calculate_lift_eq (a b : string) (self : t) :
  finite_supports self →
  calculate_lift a b self = Ok (lift_of self a b).
Proof.
  intros Hf. unfold calculate_lift, lift_of, rbind.
  rewrite calculate_confidence_eq, calculate_support_eq by done.
  destruct (float_eq (support_of self [b]) (Finite 0)) eqn:Hz; [done|].
  by apply Rounding.float_truediv_ok.
Qed.

Context {laws : Lawful ar}.

(** With as many transactions as baskets, every support is a value
    between 0 and 1. *)
Lemma support_of_unit (self : t) (itemset : list string) :
  total_transactions self = Z.of_nat (length (transaction_baskets self)) →
  ∃ q, support_of self itemset = Finite q ∧ (0 <= q <= 1)%Q.
Proof.
  intros Ht. unfold support_of. case_decide.
  - by exists 0%Q.
  - apply Rounding.ratio_unit; [|done]. rewrite Ht.
    split; [apply count_baskets_nonneg|apply count_baskets_le_length].
Qed.

Lemma sized_finite (self : t) :
  total_transactions self = Z.of_nat (length (transaction_baskets self)) →
  finite_supports self.
Proof.
  intros Ht itemset.
  by destruct (support_of_unit self itemset Ht) as (q & -> & _).
Qed.

Lemma built_finite (line_items_df : list LineItem) (self : t) :
  finite_supports (built line_items_df self).
Proof. by apply sized_finite. Qed.

Lemma confidence_of_not_NaN (self : t) (a b : string) :
  finite_supports self → confidence_of self a b ≠ NaN.
Proof.
  intros Hf. unfold confidence_of. destruct (float_eq _ _); [done|].
  pose proof (Hf [a]). pose proof (Hf [a; b]).
  destruct (support_of self [a]), (support_of self [a; b]); try done.
  apply Rounding.float_div_Finite_not_NaN.
Qed.

Lemma analyze_body_eq (self : t) (p : string * string) :
  finite_supports self →
  analyze_body self p =
    Ok (if decide (passes self p) then pair_rules self p else []).
Proof.
  intros Hf. destruct p as [a b].
  unfold analyze_body, rbind, passes, pair_rules.
  rewrite calculate_support_eq, !calculate_confidence_eq, !calculate_lift_eq
    by done.
  simpl fst; simpl snd.
  assert (Hs0 : support_of self [a; b] ≠ NaN).
  { pose proof (Hf [a; b]). by destruct (support_of self [a; b]). }
  rewrite !Queries.below_threshold
    by (done || by apply confidence_of_not_NaN).
  destruct (decide _) as [[Hle Hconf]|Hnot].
  - rewrite Hle. simpl.
    assert (Hand : negb (float_le (Finite (min_confidence self))
                           (confidence_of self a b))
                   && negb (float_le (Finite (min_confidence self))
                              (confidence_of self b a)) = false).
    { destruct Hconf as [-> | ->]; simpl; [done|]. apply andb_false_r. }
    by rewrite Hand.
  - destruct (float_le _ (support_of self [a; b])) eqn:Hle; simpl; [|done].
    assert (Hand : negb (float_le (Finite (min_confidence self))
                           (confidence_of self a b))
                   && negb (float_le (Finite (min_confidence self))
                              (confidence_of self b a)) = true).
    { destruct (float_le _ (confidence_of self a b)) eqn:H1;
        [destruct Hnot; split; [done|by left]|].
      destruct (float_le _ (confidence_of self b a)) eqn:H2;
        [destruct Hnot; split; [done|by right]|]. done. }
    by rewrite Hand.
Qed.

Lemma analyze_loop_eq (self : t) (pairs : list (string * string))
    (results : list Rule) :
  finite_supports self →
  analyze_loop self pairs results =
    Ok (results ++ flat_map (pair_rules self) (filter (passes self) pairs)).
Proof.
  intros Hf. revert results.
  induction pairs as [|p pairs IH]; intros results; cbn [analyze_loop].
  { by rewrite filter_nil, app_nil_r. }
  rewrite analyze_body_eq by done. unfold rbind. rewrite IH, filter_cons.
  destruct (decide (passes self p)); simpl.
  - by rewrite <- app_assoc.
  - by rewrite app_nil_r.
Qed.

(** [analyze] without a product table. *)
Lemma analyze_None_eq (line_items_df : list LineItem) (self : t) :
  analyze line_items_df None self =
    Ok (DataFrame_of_records
          (flat_map (pair_rules (built line_items_df self))
             (filter (passes (built line_items_df self))
                (generate_product_pairs (built line_items_df self)))),
        built line_items_df self).
Proof.
  pose proof (built_finite line_items_df self) as Hf.
  unfold analyze, built in *. simpl in *. by rewrite analyze_loop_eq.
Qed.

(** [analyze] with a product table: the first column read is missing from
    an empty frame. *)
Lemma analyze_Some_eq (line_items_df : list LineItem)
    (products_df : list (string * string)) (self : t) :
  analyze line_items_df (Some products_df) self =
    match flat_map (pair_rules (built line_items_df self))
            (filter (passes (built line_items_df self))
               (generate_product_pairs (built line_items_df self))) with
    | [] => Raise (KeyError "product_a")
    | results =>
        Ok (mkDataFrame
              (rule_columns ++ ["product_a_name"; "product_b_name"])
              (set_product_b_name (product_names_dict products_df)
               <$> (set_product_a_name (product_names_dict products_df)
                    <$> results)),
            built line_items_df self)
    end.
Proof.
  pose proof (built_finite line_items_df self) as Hf.
  unfold analyze, built in *. simpl in *. rewrite analyze_loop_eq by done.
  simpl. destruct (flat_map _ _) as [|r rs]; done.
Qed.

End arith.

End Analyzer.

(** * Rule tables *)

Lemma rows_DataFrame_of_records (results : list Rule) :
  rows (DataFrame_of_records results) = results.
Proof. by destruct results. Qed.

Lemma elem_of_flat_map {A B} (f : A → list B) (l : list A) (y : B) :
  y ∈ flat_map f l ↔ ∃ x, x ∈ l ∧ y ∈ f x.
Proof.
  rewrite list_elem_of_In, in_flat_map. split.
  - intros (x & Hx & Hy). exists x. by rewrite !list_elem_of_In.
  - intros (x & Hx & Hy). exists x. by rewrite <- !list_elem_of_In.
Qed.

(** Lift over exact rationals is the pair support over the product of the
    two supports, whichever way the rule points. *)
Lemma lift_formula (sab sa sb : Q) :
  ¬ (sa == 0)%Q → ¬ (sb == 0)%Q →
  (sab / sa / sb == sab / (sa * sb))%Q ∧ (sab / sa / sb == sab / sb / sa)%Q.
Proof. intros Ha Hb. split; field; by split. Qed.

(** * The counters after a batch, in terms of the baskets *)

Module BatchCounts.
Import AffinityCache Ingest Analyzer.
#[local] Abbreviation count_baskets := MarketBasketAnalyzer.count_baskets.

Lemma count_baskets_cons (itemset basket : gset string)
    (baskets : list (gset string)) :
  count_baskets itemset (basket :: baskets) =
    (if decide (itemset ⊆ basket) then 1 else 0)
    + count_baskets itemset baskets.
Proof.
  unfold count_baskets. rewrite filter_cons.
  destruct (decide (itemset ⊆ basket)); simpl length; lia.
Qed.

Lemma count_baskets_pos (itemset : gset string)
    (baskets : list (gset string)) :
  0 < count_baskets itemset baskets ↔
  ∃ basket, basket ∈ baskets ∧ itemset ⊆ basket.
Proof.
  induction baskets as [|b bs IH].
  { unfold count_baskets. simpl. split; [lia|].
    by intros (b & Hb%elem_of_nil & _). }
  rewrite count_baskets_cons. pose proof (count_baskets_nonneg itemset bs).
  destruct (decide (itemset ⊆ b)) as [Hsub|Hsub].
  - split; [|lia]. intros _. exists b. split; [by left|done].
  - rewrite Z.add_0_l, IH. split.
    + intros (b' & Hb' & Hs). exists b'. split; [by right|done].
    + intros (b' & [->|Hb']%elem_of_cons & Hs); [done|]. by exists b'.
Qed.

Lemma total_update_with_batch (baskets : list (gset string)) (c : t) :
  total_transactions (update_with_batch baskets c) =
    total_transactions c + Z.of_nat (length baskets).
Proof.
  revert c. induction baskets as [|b bs IH]; intros c.
  { simpl. lia. }
  rewrite update_with_batch_cons, IH, total_update. simpl length. lia.
Qed.

Lemma count_item_batch (baskets : list (gset string)) (c : t) (x : string) :
  count_of (item_counts (update_with_batch baskets c)) x =
    count_of (item_counts c) x + count_baskets {[x]} baskets.
Proof.
  revert c. induction baskets as [|b bs IH]; intros c.
  { unfold count_baskets. simpl. lia. }
  rewrite update_with_batch_cons, IH, count_item_update, count_baskets_cons.
  destruct (decide (x ∈ b)), (decide ({[x]} ⊆ b)); try lia; set_solver.
Qed.

Lemma basket_pairs_subseteq (basket : gset string) (x y : string) :
  str_lt x y → (x, y) ∈ basket_pairs basket ↔ {[x; y]} ⊆ basket.
Proof.
  intros Hlt. rewrite elem_of_basket_pairs. set_solver.
Qed.

Lemma count_pair_batch (baskets : list (gset string)) (c : t)
    (x y : string) :
  str_lt x y →
  count_of (pair_counts (update_with_batch baskets c)) (x, y) =
    count_of (pair_counts c) (x, y) + count_baskets {[x; y]} baskets.
Proof.
  intros Hlt. revert c. induction baskets as [|b bs IH]; intros c.
  { unfold count_baskets. simpl. lia. }
  rewrite update_with_batch_cons, IH, count_pair_update, count_baskets_cons.
  pose proof (basket_pairs_subseteq b x y Hlt).
  destruct (decide ((x, y) ∈ basket_pairs b)), (decide ({[x; y]} ⊆ b));
    try lia; tauto.
Qed.

Lemma is_Some_pair_batch (baskets : list (gset string)) (c : t)
    (p : string * string) :
  is_Some (pair_counts (update_with_batch baskets c) !! p) ↔
  is_Some (pair_counts c !! p)
  ∨ ∃ basket, basket ∈ baskets ∧ p ∈ basket_pairs basket.
Proof.
  revert c. induction baskets as [|b bs IH]; intros c.
  { simpl. split; [by left|]. intros [H|(b & Hb%elem_of_nil & _)]; done. }
  rewrite update_with_batch_cons, IH, lookup_pair_update.
  destruct (decide (p ∈ basket_pairs b)) as [Hin|Hin]; split.
  - intros _. right. exists b. split; [by left|done].
  - intros _. left. done.
  - intros [H|(b' & Hb' & Hp)]; [by left|].
    right. exists b'. split; [by right|done].
  - intros [H|(b' & [->|Hb']%elem_of_cons & Hp)]; [by left|done|].
    right. by exists b'.
Qed.

(** A new cache after one batch: an entry of [pair_counts] is a sorted
    pair of distinct products together with the number of baskets that
    hold both. *)
Lemma lookup_pair_batch_init (baskets : list (gset string))
    (x y : string) (n : Z) :
  pair_counts (update_with_batch baskets init) !! (x, y) = Some n →
  str_lt x y ∧ n = count_baskets {[x; y]} baskets ∧ 0 < n.
Proof.
  intros Hn.
  assert (Hs : is_Some (pair_counts (update_with_batch baskets init)
                        !! (x, y))) by by rewrite Hn.
  apply is_Some_pair_batch in Hs as [[v Hv]|(b & Hb & Hp)].
  { simpl in Hv. by rewrite lookup_empty in Hv. }
  pose proof Hp as (Hx & Hy & Hlt)%elem_of_basket_pairs.
  pose proof (count_pair_batch baskets init x y Hlt) as Hc.
  unfold count_of at 1 in Hc. rewrite Hn in Hc. simpl in Hc.
  unfold count_of in Hc. rewrite lookup_empty in Hc. simpl in Hc.
  split; [done|]. split; [lia|]. rewrite Hc, Z.add_0_l.
  apply count_baskets_pos. exists b. split; [done|].
  by apply basket_pairs_subseteq.
Qed.

Lemma is_Some_pair_batch_init (baskets : list (gset string))
    (x y : string) :
  is_Some (pair_counts (update_with_batch baskets init) !! (x, y)) ↔
  str_lt x y ∧ 0 < count_baskets {[x; y]} baskets.
Proof.
  split.
  - intros [n Hn]. apply lookup_pair_batch_init in Hn as (? & -> & ?). done.
  - intros [Hlt Hpos]. apply is_Some_pair_batch. right.
    apply count_baskets_pos in Hpos as (b & Hb & Hsub).
    exists b. split; [done|]. by apply basket_pairs_subseteq.
Qed.

(** The candidate pairs of the analyzer. *)
Lemma elem_of_foldl_union (baskets : list (gset string)) (acc : gset string)
    (x : string) :
  x ∈ foldl (fun acc basket => acc ∪ basket) acc baskets ↔
  x ∈ acc ∨ ∃ basket, basket ∈ baskets ∧ x ∈ basket.
Proof.
  revert acc. induction baskets as [|b bs IH]; intros acc; simpl.
  { split; [by left|]. intros [H|(b & Hb%elem_of_nil & _)]; done. }
  rewrite IH, elem_of_union. split.
  - intros [[H|H]|(b' & Hb' & Hx)]; [by left| |].
    + right. exists b. split; [by left|done].
    + right. exists b'. split; [by right|done].
  - intros [H|(b' & [->|Hb']%elem_of_cons & Hx)].
    + left. by left.
    + left. by right.
    + right. by exists b'.
Qed.

Lemma elem_of_generate_product_pairs (self : MarketBasketAnalyzer.t)
    (x y : string) :
  (x, y) ∈ MarketBasketAnalyzer.generate_product_pairs self ↔
  str_lt x y
  ∧ (∃ basket, basket ∈ MarketBasketAnalyzer.transaction_baskets self
               ∧ x ∈ basket)
  ∧ (∃ basket, basket ∈ MarketBasketAnalyzer.transaction_baskets self
               ∧ y ∈ basket).
Proof.
  unfold MarketBasketAnalyzer.generate_product_pairs.
  rewrite elem_of_combinations2_sorted;
    [|apply sorted_StronglySorted|apply NoDup_sorted, NoDup_elements].
  rewrite !elem_of_sorted, !elem_of_elements, !elem_of_foldl_union.
  split.
  - intros ([H|Hx] & [H'|Hy] & Hlt); try by apply not_elem_of_empty in H.
    + by apply not_elem_of_empty in H'.
    + done.
  - intros (Hlt & Hx & Hy). split_and!; [by right|by right|done].
Qed.

Lemma NoDup_generate_product_pairs (self : MarketBasketAnalyzer.t) :
  NoDup (MarketBasketAnalyzer.generate_product_pairs self).
Proof.
  unfold MarketBasketAnalyzer.generate_product_pairs.
  apply NoDup_combinations2, NoDup_sorted, NoDup_elements.
Qed.

End BatchCounts.

(** * The batch analyzer against a cache that has ingested its baskets *)

Lemma fmap_filter_agree {A B} (f : A → B) (P : A → Prop) (R : B → Prop)
    `{∀ x, Decision (P x)} `{∀ y, Decision (R y)} (l : list A) :
  (∀ x, x ∈ l → P x ↔ R (f x)) → f <$> filter P l = filter R (f <$> l).
Proof.
  induction l as [|x l IH]; intros Hl; [done|].
  rewrite fmap_cons, !filter_cons.
  assert (Hx : P x ↔ R (f x)) by (apply Hl; by left).
  assert (IH' : f <$> filter P l = filter R (f <$> l)).
  { apply IH. intros y Hy. apply Hl. by right. }
  destruct (decide (P x)), (decide (R (f x))); try tauto.
  by rewrite fmap_cons, IH'.
Qed.

Lemma flat_map_fmap_agree {A B C} (f : A → list C) (g : B → list C)
    (h : A → B) (l : list A) :
  (∀ x, x ∈ l → f x = g (h x)) → flat_map f l = flat_map g (h <$> l).
Proof.
  induction l as [|x l IH]; intros Hl; [done|].
  simpl. rewrite (Hl x) by by left. f_equal.
  apply IH. intros y Hy. apply Hl. by right.
Qed.

Lemma filter_constant {A} (P : A → Prop) `{∀ x, Decision (P x)}
    (cond : bool) (l : list A) :
  (∀ x, x ∈ l → P x ↔ cond = true) →
  filter P l = if cond then l else [].
Proof.
  induction l as [|x l IH]; intros Hl; [by destruct cond|].
  rewrite filter_cons.
  assert (Hx : P x ↔ cond = true) by (apply Hl; by left).
  rewrite IH by (intros y Hy; apply Hl; by right).
  destruct (decide (P x)) as [HP|HP], cond; try done.
  - by apply Hx in HP.
  - destruct HP. by apply Hx.
Qed.

Lemma flat_map_agree {A B} (f g : A → list B) (l : list A) :
  (∀ x, x ∈ l → f x = g x) → flat_map f l = flat_map g l.
Proof.
  induction l as [|x l IH]; intros Hl; [done|].
  simpl. rewrite (Hl x) by by left. f_equal.
  apply IH. intros y Hy. apply Hl. by right.
Qed.

Lemma length_flat_map_two {A B} (f : A → list B) (l : list A) :
  (∀ x, length (f x) = 2%nat) →
  length (flat_map f l) = (2 * length l)%nat.
Proof.
  intros Hf. induction l as [|x l IH]; [done|].
  simpl. rewrite length_app, Hf, IH. lia.
Qed.

Module Equivalence.
Import BatchCounts Analyzer FloatFacts.

Section agree.
Context {ar : Arithmetic} {laws : Lawful ar}.
Variable self : MarketBasketAnalyzer.t.
Variable c : AffinityCache.t.
Hypothesis Htotal :
  MarketBasketAnalyzer.total_transactions self =
    Z.of_nat (length (MarketBasketAnalyzer.transaction_baskets self)).
Hypothesis Hcache :
  c = AffinityCache.update_with_batch
        (MarketBasketAnalyzer.transaction_baskets self) AffinityCache.init.

Lemma total_agree :
  AffinityCache.total_transactions c =
    MarketBasketAnalyzer.total_transactions self.
Proof. rewrite Hcache, total_update_with_batch, Htotal. simpl. lia. Qed.

Lemma cache_finite : CacheSpec.finite_supports c.
Proof.
  apply Invariants.bounded_finite, Invariants.ingested_bounded.
  rewrite Hcache. apply CacheSpec.ingested_batch, CacheSpec.ingested_init.
Qed.

Lemma cache_well_formed : CacheSpec.well_formed c.
Proof.
  apply Invariants.counted_well_formed, Invariants.ingested_counted.
  rewrite Hcache. apply CacheSpec.ingested_batch, CacheSpec.ingested_init.
Qed.

Lemma analyzer_finite : AnalyzerSpec.finite_supports self.
Proof. by apply sized_finite. Qed.

Lemma support_item_agree (x : string) :
  CacheSpec.support_item c x = AnalyzerSpec.support_of self [x].
Proof.
  unfold CacheSpec.support_item, AnalyzerSpec.support_of.
  rewrite total_agree. case_decide; [done|].
  rewrite Hcache, count_item_batch.
  assert (Hset : (list_to_set [x] : gset string) = {[x]}) by set_solver.
  rewrite Hset. unfold count_of. simpl. by rewrite lookup_empty.
Qed.

Lemma support_pair_agree (x y : string) :
  str_lt x y →
  CacheSpec.support_pair c x y = AnalyzerSpec.support_of self [x; y]
  ∧ CacheSpec.support_pair c y x = AnalyzerSpec.support_of self [y; x].
Proof.
  intros Hlt.
  assert (H1 : CacheSpec.support_pair c x y
               = AnalyzerSpec.support_of self [x; y]).
  { unfold CacheSpec.support_pair, CacheSpec.support_key,
      AnalyzerSpec.support_of.
    rewrite total_agree. case_decide; [done|].
    rewrite sorted_pair_sorted by apply Hlt.
    rewrite Hcache, count_pair_batch by done.
    assert (Hset : (list_to_set [x; y] : gset string) = {[x; y]})
      by set_solver.
    rewrite Hset. unfold count_of. simpl. by rewrite lookup_empty. }
  split; [done|]. rewrite support_of_swap, <- H1.
  apply Queries.support_pair_comm.
Qed.

Lemma confidence_agree (x y : string) :
  str_lt x y →
  CacheSpec.confidence_val c x y = AnalyzerSpec.confidence_of self x y
  ∧ CacheSpec.confidence_val c y x = AnalyzerSpec.confidence_of self y x.
Proof.
  intros Hlt. destruct (support_pair_agree x y Hlt) as [H1 H2].
  unfold CacheSpec.confidence_val, AnalyzerSpec.confidence_of.
  by rewrite !support_item_agree, H1, H2.
Qed.

Lemma lift_agree (x y : string) :
  str_lt x y →
  CacheSpec.lift_val c x y = AnalyzerSpec.lift_of self x y
  ∧ CacheSpec.lift_val c y x = AnalyzerSpec.lift_of self y x.
Proof.
  intros Hlt. destruct (confidence_agree x y Hlt) as [H1 H2].
  unfold CacheSpec.lift_val, AnalyzerSpec.lift_of.
  by rewrite !support_item_agree, H1, H2.
Qed.

(** A recorded entry carries the count the analyzer finds by scanning. *)
Lemma entry_agree (x y : string) (n : Z) :
  AffinityCache.pair_counts c !! (x, y) = Some n →
  str_lt x y
  ∧ CacheSpec.ratio n (AffinityCache.total_transactions c)
    = AnalyzerSpec.support_of self [x; y].
Proof.
  intros Hn. rewrite Hcache in Hn.
  pose proof Hn as (Hlt & Hcount & Hpos)%lookup_pair_batch_init.
  split; [done|].
  destruct (support_pair_agree x y Hlt) as [<- _].
  unfold CacheSpec.support_pair, CacheSpec.support_key.
  rewrite sorted_pair_sorted by apply Hlt.
  unfold count_of. rewrite Hcache, Hn. simpl.
  rewrite decide_False; [done|].
  rewrite total_update_with_batch. simpl.
  destruct (MarketBasketAnalyzer.transaction_baskets self) as [|b bs];
    [|simpl length; lia].
  rewrite Hcount in Hpos. unfold MarketBasketAnalyzer.count_baskets in Hpos.
  simpl in Hpos. lia.
Qed.

Lemma pair_rules_agree (x y : string) (n : Z) :
  AffinityCache.pair_counts c !! (x, y) = Some n →
  CacheSpec.pair_rules c ((x, y), n) = AnalyzerSpec.pair_rules self (x, y).
Proof.
  intros Hn. destruct (entry_agree x y n Hn) as [Hlt Hs].
  destruct (confidence_agree x y Hlt) as [Hc1 Hc2].
  destruct (lift_agree x y Hlt) as [Hl1 Hl2].
  unfold CacheSpec.pair_rules, AnalyzerSpec.pair_rules.
  by rewrite Hs, Hc1, Hc2, Hl1, Hl2.
Qed.

Lemma passes_agree (x y : string) (n : Z) :
  AffinityCache.pair_counts c !! (x, y) = Some n →
  CacheSpec.passes c (MarketBasketAnalyzer.min_support self)
    (MarketBasketAnalyzer.min_confidence self) ((x, y), n)
  ↔ AnalyzerSpec.passes self (x, y).
Proof.
  intros Hn. destruct (entry_agree x y n Hn) as [Hlt Hs].
  destruct (confidence_agree x y Hlt) as [Hc1 Hc2].
  unfold CacheSpec.passes, AnalyzerSpec.passes. simpl fst; simpl snd.
  by rewrite Hs, Hc1, Hc2.
Qed.

Lemma recorded_is_candidate (x y : string) :
  is_Some (AffinityCache.pair_counts c !! (x, y)) →
  (x, y) ∈ MarketBasketAnalyzer.generate_product_pairs self.
Proof.
  rewrite Hcache, is_Some_pair_batch_init. intros [Hlt Hpos].
  apply count_baskets_pos in Hpos as (b & Hb & Hsub).
  apply elem_of_generate_product_pairs.
  split; [done|]. split; exists b; (split; [done|set_solver]).
Qed.

(** The recorded pairs are the candidate pairs that some basket holds. *)
Lemma recorded_iff (x y : string) :
  is_Some (AffinityCache.pair_counts c !! (x, y))
  ↔ (x, y) ∈ MarketBasketAnalyzer.generate_product_pairs self
    ∧ ¬ AnalyzerSpec.apart self (x, y).
Proof.
  split.
  - intros Hs. split; [by apply recorded_is_candidate|].
    rewrite Hcache in Hs. apply is_Some_pair_batch_init in Hs as [_ Hpos].
    unfold AnalyzerSpec.apart. simpl. lia.
  - intros [(Hlt & _)%elem_of_generate_product_pairs Hnot].
    rewrite Hcache. apply is_Some_pair_batch_init. split; [done|].
    unfold AnalyzerSpec.apart in Hnot. simpl in Hnot.
    pose proof (count_baskets_nonneg {[x; y]}
                  (MarketBasketAnalyzer.transaction_baskets self)). lia.
Qed.

(** A pair that no basket holds has the support, the confidences and the
    lifts zero. *)
Lemma apart_support (x y : string) :
  AnalyzerSpec.apart self (x, y) →
  AnalyzerSpec.support_of self [x; y] = Finite 0
  ∧ AnalyzerSpec.support_of self [y; x] = Finite 0.
Proof.
  intros Hz.
  assert (H1 : AnalyzerSpec.support_of self [x; y] = Finite 0).
  { unfold AnalyzerSpec.support_of. case_decide; [done|].
    assert (Hset : (list_to_set [x; y] : gset string) = {[x; y]})
      by set_solver.
    unfold AnalyzerSpec.apart in Hz. simpl in Hz.
    rewrite Hset, Hz. apply Rounding.ratio_zero. }
  split; [done|]. by rewrite support_of_swap.
Qed.

Lemma zero_confidence (x y : string) :
  AnalyzerSpec.support_of self [x; y] = Finite 0 →
  AnalyzerSpec.confidence_of self x y = Finite 0.
Proof.
  intros Hz. unfold AnalyzerSpec.confidence_of.
  destruct (float_eq _ _); [done|]. rewrite Hz.
  apply Rounding.float_div_zero_num, analyzer_finite.
Qed.

Lemma zero_lift (x y : string) :
  AnalyzerSpec.support_of self [x; y] = Finite 0 →
  AnalyzerSpec.lift_of self x y = Finite 0.
Proof.
  intros Hz. unfold AnalyzerSpec.lift_of.
  destruct (float_eq _ _); [done|]. rewrite (zero_confidence x y Hz).
  apply Rounding.float_div_zero_num, analyzer_finite.
Qed.

Lemma apart_rules (p : string * string) :
  AnalyzerSpec.apart self p →
  AnalyzerSpec.pair_rules self p = AnalyzerSpec.zero_rules p.
Proof.
  destruct p as [x y]. intros [H1 H2]%apart_support.
  unfold AnalyzerSpec.pair_rules, AnalyzerSpec.zero_rules.
  by rewrite H1, (zero_confidence x y H1), (zero_confidence y x H2),
    (zero_lift x y H1), (zero_lift y x H2).
Qed.

(** It passes the filter exactly when both thresholds let zero through. *)
Lemma apart_passes (p : string * string) :
  AnalyzerSpec.apart self p →
  AnalyzerSpec.passes self p
  ↔ Qle_bool (MarketBasketAnalyzer.min_support self) 0
    && Qle_bool (MarketBasketAnalyzer.min_confidence self) 0 = true.
Proof.
  destruct p as [x y]. intros [H1 H2]%apart_support.
  unfold AnalyzerSpec.passes. simpl fst; simpl snd.
  rewrite H1, (zero_confidence x y H1), (zero_confidence y x H2).
  rewrite andb_true_iff, !Qle_bool_iff, !float_le_Finite. tauto.
Qed.

Lemma passing_recorded_Permutation :
  fst <$> filter (CacheSpec.passes c (MarketBasketAnalyzer.min_support self)
                    (MarketBasketAnalyzer.min_confidence self))
            (map_to_list (AffinityCache.pair_counts c))
  ≡ₚ filter (AnalyzerSpec.passes self)
       (filter (fun p => ¬ AnalyzerSpec.apart self p)
          (MarketBasketAnalyzer.generate_product_pairs self)).
Proof.
  rewrite (fmap_filter_agree fst _ (AnalyzerSpec.passes self)).
  2:{ intros [[x y] n] Hin%elem_of_map_to_list. by apply passes_agree. }
  apply NoDup_Permutation.
  - apply NoDup_filter, NoDup_fst_map_to_list.
  - apply NoDup_filter, NoDup_filter, NoDup_generate_product_pairs.
  - intros [x y]. rewrite !list_elem_of_filter.
    assert (Hkeys : (x, y) ∈ (map_to_list (AffinityCache.pair_counts c)).*1
                    ↔ is_Some (AffinityCache.pair_counts c !! (x, y))).
    { rewrite list_elem_of_fmap. split.
      - intros ([k v] & -> & Hkv%elem_of_map_to_list). by exists v.
      - intros [v Hv]. exists ((x, y), v). split; [done|].
        by apply elem_of_map_to_list. }
    rewrite Hkeys, recorded_iff. tauto.
Qed.

(** The rules of the analyzer: the rules of the cache and, when both
    thresholds let zero through, the zero rules of the pairs that no basket
    holds. *)
Lemma rules_Permutation :
  flat_map (AnalyzerSpec.pair_rules self)
    (filter (AnalyzerSpec.passes self)
       (MarketBasketAnalyzer.generate_product_pairs self))
  ≡ₚ flat_map (CacheSpec.pair_rules c)
       (filter (CacheSpec.passes c (MarketBasketAnalyzer.min_support self)
                  (MarketBasketAnalyzer.min_confidence self))
          (map_to_list (AffinityCache.pair_counts c)))
     ++ (if Qle_bool (MarketBasketAnalyzer.min_support self) 0
            && Qle_bool (MarketBasketAnalyzer.min_confidence self) 0
         then flat_map AnalyzerSpec.zero_rules
                (filter (AnalyzerSpec.apart self)
                   (MarketBasketAnalyzer.generate_product_pairs self))
         else []).
Proof.
  set (cands := MarketBasketAnalyzer.generate_product_pairs self).
  assert (Hsplit :
    filter (AnalyzerSpec.passes self) cands
    ≡ₚ filter (AnalyzerSpec.passes self)
         (filter (fun p => ¬ AnalyzerSpec.apart self p) cands)
       ++ filter (AnalyzerSpec.passes self)
            (filter (AnalyzerSpec.apart self) cands)).
  { rewrite <- filter_app. apply filter_Permutation.
    rewrite Permutation_app_comm. symmetry. apply filter_app_complement. }
  rewrite Hsplit, flat_map_app. apply Permutation_app.
  - rewrite (flat_map_fmap_agree (CacheSpec.pair_rules c)
               (AnalyzerSpec.pair_rules self) fst).
    2:{ intros [[x y] n] [_ Hin%elem_of_map_to_list]%list_elem_of_filter.
        by apply pair_rules_agree. }
    apply Permutation_flat_map. symmetry. apply passing_recorded_Permutation.
  - rewrite (filter_constant (AnalyzerSpec.passes self)
               (Qle_bool (MarketBasketAnalyzer.min_support self) 0
                && Qle_bool (MarketBasketAnalyzer.min_confidence self) 0)).
    2:{ intros p [Hp _]%list_elem_of_filter. by apply apart_passes. }
    destruct (_ && _); [|done].
    apply Permutation_refl'. apply flat_map_agree.
    intros p [Hp _]%list_elem_of_filter. by apply apart_rules.
Qed.

End agree.

End Equivalence.

Lemma columns_DataFrame_of_records_Permutation (l l' : list Rule) :
  l ≡ₚ l' →
  columns (DataFrame_of_records l) = columns (DataFrame_of_records l').
Proof.
  intros Hp. destruct l as [|r l], l' as [|r' l']; try done.
  - by apply Permutation_nil_cons in Hp.
  - symmetry in Hp. by apply Permutation_nil_cons in Hp.
Qed.

(** * The scenarios of the specification, evaluated *)

Module Scenario.
Import AffinityCache CacheSpec Sample.

Example two_baskets_counts :
  total_transactions cache_AB_ABC = 2
  ∧ item_counts cache_AB_ABC = {["A" := 2; "B" := 2; "C" := 1]}
  ∧ pair_counts cache_AB_ABC =
      {[("A", "B") := 2; ("A", "C") := 1; ("B", "C") := 1]}
  ∧ all_products cache_AB_ABC = {["A"; "B"; "C"]}.
Proof. split_and!; by vm_compute. Qed.

Example two_baskets_metrics :
  support_val cache_AB_ABC ["A"; "B"] = Finite 1
  ∧ support_val cache_AB_ABC ["A"; "C"] = Finite (1 # 2)
  ∧ confidence_val cache_AB_ABC "A" "B" = Finite 1
  ∧ confidence_val cache_AB_ABC "A" "C" = Finite (1 # 2).
Proof. split_and!; by vm_compute. Qed.

Example single_item_basket_no_pair :
  pair_counts (update_with_new_transaction basket_X cache_AB_ABC)
    = pair_counts cache_AB_ABC
  ∧ item_counts (update_with_new_transaction basket_X cache_AB_ABC) !! "X"
    = Some 1.
Proof. split; by vm_compute. Qed.

(** Three baskets [{A, B}], [{A, B}], [{A, C}] and both thresholds at one
    half: the pair [(A, B)] stays, the pair [(A, C)] goes. *)
Example threshold_filtering :
  ∃ df c',
    get_updated_affinities (1 # 2) (1 # 2)
      (update_with_batch [basket_AB; basket_AB; basket_AC] init)
      = Ok (df, c')
    ∧ (product_a <$> rows df) = ["A"; "B"]
    ∧ (product_b <$> rows df) = ["B"; "A"].
Proof. eexists _, _. split_and!; by vm_compute. Qed.

(** ** Rounding *)

(** [3 / 5] is the double [0.6], [4 / 5] the double [0.8], and the quotient
    of the two doubles is [0.7499999999999999], one unit in the last place
    below [0.75]. *)
Example quotients_of_doubles :
  int_truediv 3 5 = Ok (Finite (5404319552844595 # 9007199254740992))
  ∧ int_truediv 4 5 = Ok (Finite (3602879701896397 # 4503599627370496))
  ∧ float_truediv (Finite (5404319552844595 # 9007199254740992))
      (Finite (3602879701896397 # 4503599627370496))
    = Ok (Finite (6755399441055743 # 9007199254740992))
  ∧ float_lt (Finite (6755399441055743 # 9007199254740992)) (Finite (3 # 4))
    = true.
Proof. split_and!; by vm_compute. Qed.

(** A quotient that is out of range: [int / int] raises, [float / float]
    gives an infinity; a quotient too small for a double is zero. *)
Example quotients_out_of_range :
  int_truediv (2 ^ 1024) 1 = Raise OverflowError
  ∧ float_truediv (Finite (2 ^ 1000)) (Finite (1 # 2 ^ 100))
    = Ok (Infinity false)
  ∧ int_truediv 1 (2 ^ 1076) = Ok (Finite 0)
  ∧ int_truediv 1 0 = Raise ZeroDivisionError
  ∧ float_truediv (Finite 1) (Finite 0) = Raise ZeroDivisionError.
Proof. split_and!; by vm_compute. Qed.

(** The rounding against the division of the standard library's binary64,
    on quotients of two [int]s and on quotients of two such quotients. *)
Example int_truediv_as_library :
  Forall (fun '(a, b) =>
            int_truediv a b = Ok (IEEE.to_float (IEEE.int_div a b)))
    [(3, 5); (4, 5); (1, 3); (2, 3); (-1, 3); (1, 10); (7, 1000);
     (1, 7); (22, 7); (10 ^ 30, 3); (1, 3 ^ 40); (2 ^ 53 + 1, 2 ^ 53 - 1);
     (2 ^ 54 + 2, 4); (2 ^ 54 + 6, 4); (3, 2 ^ 1075); (1, 2 ^ 1075);
     (2 ^ 1024 - 2 ^ 970 - 1, 1); (-5, 2 ^ 1030)].
Proof. repeat constructor; by vm_compute. Qed.

Example float_truediv_as_library :
  Forall (fun '(a, b, c, d) =>
            float_truediv (round (inject_Z a / inject_Z b))
                          (round (inject_Z c / inject_Z d))
            = Ok (IEEE.to_float (IEEE.div_of_divs a b c d)))
    [(3, 5, 4, 5); (1, 3, 2, 3); (2, 3, 1, 3); (1, 10, 3, 10);
     (3, 5, 3, 5); (1, 7, 5, 7); (-1, 3, 1, 7); (1, 3, 10 ^ 20, 7);
     (10 ^ 300, 1, 1, 10 ^ 300); (1, 10 ^ 300, 10 ^ 300, 1)].
Proof. repeat constructor; by vm_compute. Qed.

(** Five baskets, [A] in four, [B] in four, both in three, and the
    thresholds one half and three quarters: the support of the pair is
    [0.6] and both confidences are [0.7499999999999999], so neither path
    returns a rule.  Without rounding the confidences would be three
    quarters, and the pair would stay. *)
Example rounding_drops_a_pair :
  (∃ df c',
     get_updated_affinities (1 # 2) (3 # 4) (update_with_batch five_baskets init)
       = Ok (df, c')
     ∧ rows df = [])
  ∧ (∃ df self',
       MarketBasketAnalyzer.analyze lines_five None
         (MarketBasketAnalyzer.init (1 # 2) (3 # 4)) = Ok (df, self')
       ∧ rows df = [])
  ∧ get_confidence "A" "B" (update_with_batch five_baskets init)
    = Ok (Finite (6755399441055743 # 9007199254740992),
          update_with_batch five_baskets init)
  ∧ (∃ df c',
       get_updated_affinities (ar := exact_arithmetic) (1 # 2) (3 # 4)
         (update_with_batch five_baskets init) = Ok (df, c')
       ∧ (product_a <$> rows df) = ["A"; "B"]
       ∧ (confidence <$> rows df) = [Finite (3 # 4); Finite (3 # 4)]).
Proof.
  split_and!.
  - eexists _, _. split; by vm_compute.
  - eexists _, _. split; by vm_compute.
  - by vm_compute.
  - eexists _, _. split_and!; by vm_compute.
Qed.

End Scenario.

(** * The cache: ingestion *)

Module CacheResults.
Import AffinityCache CacheSpec Sample.

Lemma ingest_one_by_one_batch (baskets : list (gset string)) (c : t) :
  ingest_one_by_one baskets c = update_with_batch baskets c.
Proof. done. Qed.

Lemma ingest_batches_concat (batches : list (list (gset string))) (c : t) :
  ingest_batches batches c = update_with_batch (concat batches) c.
Proof.
  revert c. induction batches as [|batch batches IH]; intros c; [done|].
  simpl. rewrite Ingest.update_with_batch_app. apply IH.
Qed.

(** C3. The baskets of a finite multiset, ingested from a new cache, give
    the same cache (the same [total_transactions], [item_counts],
    [pair_counts], and [all_products] as well) in whatever order they are
    ingested one by one, and however they are cut into batches for
    [update_with_batch]. *)
Theorem ingestion_order_irrelevant
    (baskets baskets' : list (gset string))
    (batches : list (list (gset string))) :
  baskets ≡ₚ baskets' → concat batches ≡ₚ baskets →
  ingest_one_by_one baskets init = ingest_one_by_one baskets' init
  ∧ ingest_batches batches init = ingest_one_by_one baskets init
  ∧ update_with_batch baskets init = ingest_one_by_one baskets init.
Proof.
  intros Hperm Hcat. split_and!.
  - by apply Ingest.update_with_batch_Permutation.
  - rewrite ingest_batches_concat.
    by apply Ingest.update_with_batch_Permutation.
  - done.
Qed.

Lemma ingestion_order_irrelevant_witness :
  ingest_one_by_one [basket_AB; basket_ABC; basket_X] init
    = ingest_one_by_one [basket_X; basket_AB; basket_ABC] init
  ∧ ingest_batches [[basket_ABC]; [basket_X; basket_AB]] init
    = ingest_one_by_one [basket_AB; basket_ABC; basket_X] init
  ∧ update_with_batch [basket_AB; basket_ABC; basket_X] init
    = ingest_one_by_one [basket_AB; basket_ABC; basket_X] init.
Proof.
  apply (ingestion_order_irrelevant
           [basket_AB; basket_ABC; basket_X]
           [basket_X; basket_AB; basket_ABC]
           [[basket_ABC]; [basket_X; basket_AB]]).
  - apply (Permutation_app_comm [basket_AB; basket_ABC] [basket_X]).
  - apply (Permutation_app_comm [basket_ABC; basket_X] [basket_AB]).
Defined.

(** C4, against the claim: ingesting the empty basket into a new cache
    does not leave the cache as it was, [total_transactions] becomes [1]. *)
Lemma empty_basket_counts_a_transaction :
  update_with_new_transaction ∅ init ≠ init
  ∧ total_transactions (update_with_new_transaction ∅ init) = 1.
Proof. split; [discriminate|reflexivity]. Qed.

(** C4, as amended. Neither ingestion raises (both are total functions);
    an empty batch leaves the whole cache unchanged; an empty basket leaves
    [item_counts], [pair_counts] and [all_products] unchanged and adds [1]
    to [total_transactions]. *)
Theorem empty_ingestion (c : t) :
  update_with_batch [] c = c
  ∧ update_with_new_transaction ∅ c =
      mk (total_transactions c + 1) (item_counts c) (pair_counts c)
         (all_products c).
Proof.
  split; [done|].
  rewrite Ingest.update_with_new_transaction_eq.
  assert (Hp : basket_pairs ∅ = []).
  { unfold basket_pairs. by rewrite elements_empty. }
  rewrite Hp, elements_empty. simpl. f_equal. set_solver.
Qed.

(** C7. In every cache that ingestion builds from a new cache, the count
    of every item is at most [total_transactions] and the count of every
    pair is at most the smaller of the counts of its two items; and both
    bounds are kept by each ingestion, of one basket or of a batch. *)
Theorem count_bounds_invariant :
  (∀ c, ingested c → item_count_bound c ∧ pair_count_bound c)
  ∧ (∀ c basket,
       item_count_bound c ∧ pair_count_bound c →
       item_count_bound (update_with_new_transaction basket c)
       ∧ pair_count_bound (update_with_new_transaction basket c))
  ∧ (∀ c baskets,
       item_count_bound c ∧ pair_count_bound c →
       item_count_bound (update_with_batch baskets c)
       ∧ pair_count_bound (update_with_batch baskets c)).
Proof.
  split_and!.
  - apply Invariants.ingested_bounds.
  - intros c basket [Hi Hp].
    split; [by apply Invariants.item_count_bound_update
           |by apply Invariants.pair_count_bound_update].
  - intros c baskets [Hi Hp]. split.
    + apply Invariants.update_with_batch_ind;
        [apply Invariants.item_count_bound_update|done].
    + apply Invariants.update_with_batch_ind;
        [apply Invariants.pair_count_bound_update|done].
Qed.

Lemma count_bounds_invariant_witness :
  ingested cache_AB_ABC
  ∧ item_count_bound cache_AB_ABC ∧ pair_count_bound cache_AB_ABC
  ∧ item_count_bound (update_with_new_transaction basket_AC cache_AB_ABC)
  ∧ pair_count_bound (update_with_new_transaction basket_AC cache_AB_ABC).
Proof.
  assert (Hc : ingested cache_AB_ABC) by (apply ingested_batch, ingested_init).
  destruct count_bounds_invariant as (Hall & Hone & _).
  split; [done|]. split; [apply Hall, Hc|]. split; [apply Hall, Hc|].
  apply Hone, Hall, Hc.
Defined.

End CacheResults.

(** * The cache: queries *)

Module QueryResults.
Import AffinityCache CacheSpec Sample.

(** The queries keep every count: only keys with the count [0] can
    appear. *)
Lemma queries_keep_counts (q : Query) (c c' : t) :
  reachable c → run_query q c = Ok c' → same_counts c c'.
Proof.
  intros Hc. apply Invariants.run_query_same_counts.
  - by apply Invariants.reachable_finite.
  - by apply Invariants.reachable_well_formed.
Qed.

Lemma get_statistics_keeps_cache (c : t) :
  state_after (get_statistics c) = Ok c.
Proof. done. Qed.

Lemma cache_AB_finite : finite_supports cache_AB.
Proof.
  apply Invariants.reachable_finite, reachable_transaction, reachable_init.
Qed.

(** C6, on the code: a support query for a product the cache has not seen
    writes to the cache.  After the transaction [{A, B}], asking for the
    support of [Z] leaves the key [Z] in [item_counts], and asking for the
    support of the pair [(A, Z)] leaves a second key in [pair_counts], which
    [get_statistics] then counts as a pair. *)
Theorem support_query_writes_cache :
  (∃ v c', get_support ["Z"] cache_AB = Ok (v, c')
           ∧ item_counts cache_AB !! "Z" = None
           ∧ item_counts c' !! "Z" = Some 0
           ∧ c' ≠ cache_AB)
  ∧ (∃ v c' st st',
       get_support ["A"; "Z"] cache_AB = Ok (v, c')
       ∧ get_statistics cache_AB = Ok (st, cache_AB)
       ∧ get_statistics c' = Ok (st', c')
       ∧ unique_pairs st = 1%nat ∧ unique_pairs st' = 2%nat).
Proof.
  split.
  - rewrite Queries.get_support_eq by apply cache_AB_finite.
    eexists _, _. split; [done|].
    assert (Hnone : item_counts cache_AB !! "Z" = None) by by vm_compute.
    assert (Hsome : item_counts (after_support ["Z"] cache_AB) !! "Z"
                    = Some 0) by by vm_compute.
    split_and!; [done|done|]. intros Heq. rewrite Heq in Hsome. congruence.
  - rewrite Queries.get_support_eq by apply cache_AB_finite.
    eexists _, _, _, _.
    split; [done|]. split; [done|]. split; [done|]. by vm_compute.
Qed.

(** C9. In a cache that calls of the public methods have built and that
    has ingested no basket ([total_transactions] is zero), a new cache
    among them, [get_support], [get_confidence] and [get_lift] return
    [0.0], [get_updated_affinities] returns the empty table and
    [get_statistics] returns, all leaving the cache as it is.  In every
    cache that the public methods can build, a recorded pair means
    [total_transactions] is not zero, so the rules query returns a table:
    its division by [total_transactions] never raises. *)
Theorem empty_store_queries (c : t) :
  reachable c →
  (total_transactions c = 0 →
   (∀ itemset, get_support itemset c = Ok (Finite 0, c))
   ∧ (∀ a b, get_confidence a b c = Ok (Finite 0, c))
   ∧ (∀ a b, get_lift a b c = Ok (Finite 0, c))
   ∧ (∀ ms mc, get_updated_affinities ms mc c = Ok (mkDataFrame [] [], c))
   ∧ (∃ st, get_statistics c = Ok (st, c)))
  ∧ (pair_counts c ≠ ∅ → total_transactions c ≠ 0)
  ∧ (∀ ms mc, ∃ df c', get_updated_affinities ms mc c = Ok (df, c')).
Proof.
  intros Hc.
  pose proof (Invariants.reachable_counted c Hc) as (H0 & Hpos & Hk).
  pose proof (Invariants.reachable_well_formed c Hc) as Hwf.
  pose proof (Invariants.reachable_finite c Hc) as Hf.
  split_and!.
  - intros Ht.
    assert (Hsup : ∀ itemset, get_support itemset c = Ok (Finite 0, c)).
    { intros itemset. unfold get_support, bind, get_total.
      by rewrite decide_True. }
    assert (Hconf : ∀ a b, get_confidence a b c = Ok (Finite 0, c)).
    { intros a b. unfold get_confidence, bind. by rewrite Hsup. }
    assert (Hpc : pair_counts c = ∅).
    { destruct (decide (pair_counts c = ∅)) as [|Hne]; [done|].
      apply Hpos in Hne. lia. }
    split_and!; [done|done| | |by eexists].
    + intros a b. unfold get_lift, bind. by rewrite Hconf, Hsup.
    + intros ms mc. unfold get_updated_affinities.
      rewrite Hpc, map_to_list_empty. simpl.
      rewrite Hpc, decide_True by done. done.
  - apply Hwf.
  - intros ms mc.
    destruct (Queries.get_updated_affinities_eq ms mc c Hf Hwf)
      as (c' & Heq & _). eauto.
Qed.

Lemma empty_store_queries_witness :
  ((∀ itemset, get_support itemset init = Ok (Finite 0, init))
   ∧ (∀ a b, get_confidence a b init = Ok (Finite 0, init))
   ∧ (∀ a b, get_lift a b init = Ok (Finite 0, init))
   ∧ (∀ ms mc,
        get_updated_affinities ms mc init = Ok (mkDataFrame [] [], init))
   ∧ (∃ st, get_statistics init = Ok (st, init)))
  ∧ (∀ ms mc, ∃ df c', get_updated_affinities ms mc cache_AB = Ok (df, c')).
Proof.
  split.
  - apply (empty_store_queries init reachable_init). reflexivity.
  - apply (empty_store_queries cache_AB).
    apply reachable_transaction, reachable_init.
Defined.

(** The support of an itemset that is neither one item nor a pair. *)
Lemma get_support_other_arity {ar : Arithmetic} (itemset : list string)
    (c : t) :
  length itemset ≠ 1%nat → length itemset ≠ 2%nat →
  get_support itemset c = Ok (Finite 0, c).
Proof.
  intros H1 H2. unfold get_support, bind, get_total, ret.
  destruct (decide _); [done|].
  by destruct itemset as [|x [|y [|z l]]].
Qed.

End QueryResults.

(** * Support of other arities, symmetry of lift, empty results *)

Module MetricResults.
Import CacheSpec AnalyzerSpec Sample.

(** C8, against the claim: the analyzer gives the three products of the one
    transaction the support [1.0], not [0.0]. *)
Lemma calculate_support_three_items :
  MarketBasketAnalyzer.calculate_support ["A"; "B"; "C"]
    (built lines_ABC (MarketBasketAnalyzer.init 0 0)) = Ok (Finite 1)
  ∧ float_eq (Finite 1) (Finite 0) = false.
Proof. split; by vm_compute. Qed.

(** C8, as amended. For an itemset that is neither one item nor a pair,
    [AffinityCache.get_support] returns [0.0] and leaves the cache as it
    is; [MarketBasketAnalyzer.calculate_support] has no such case: it
    returns [0.0] when there is no transaction, and otherwise the number of
    baskets that hold every item of the itemset divided by
    [total_transactions]; with as many transactions as baskets, which is
    what [build_transaction_baskets] leaves, the division does not raise
    and the result is the share of those baskets, rounded, a value
    between 0 and 1. *)
Theorem support_other_arity (itemset : list string) (c : AffinityCache.t)
    (self : MarketBasketAnalyzer.t) :
  length itemset ≠ 1%nat → length itemset ≠ 2%nat →
  AffinityCache.get_support itemset c = Ok (Finite 0, c)
  ∧ MarketBasketAnalyzer.calculate_support itemset self =
      (if decide (MarketBasketAnalyzer.total_transactions self = 0)
       then Ok (Finite 0)
       else int_truediv
              (MarketBasketAnalyzer.count_baskets (list_to_set itemset)
                 (MarketBasketAnalyzer.transaction_baskets self))
              (MarketBasketAnalyzer.total_transactions self))
  ∧ (MarketBasketAnalyzer.total_transactions self
       = Z.of_nat (length (MarketBasketAnalyzer.transaction_baskets self)) →
     ∃ q, MarketBasketAnalyzer.calculate_support itemset self = Ok (Finite q)
          ∧ (0 <= q <= 1)%Q
          ∧ Finite q =
              if decide (MarketBasketAnalyzer.total_transactions self = 0)
              then Finite 0
              else ratio
                     (MarketBasketAnalyzer.count_baskets (list_to_set itemset)
                        (MarketBasketAnalyzer.transaction_baskets self))
                     (MarketBasketAnalyzer.total_transactions self)).
Proof.
  intros H1 H2. split_and!.
  - by apply QueryResults.get_support_other_arity.
  - done.
  - intros Ht.
    destruct (Analyzer.support_of_unit self itemset Ht) as (q & Hq & Hr).
    exists q. split; [|split; [done|by rewrite <- Hq]].
    rewrite Analyzer.calculate_support_eq by by apply Analyzer.sized_finite.
    by rewrite Hq.
Qed.

Lemma support_other_arity_witness :
  AffinityCache.get_support ["A"; "B"; "C"] cache_AB_ABC
    = Ok (Finite 0, cache_AB_ABC)
  ∧ MarketBasketAnalyzer.calculate_support ["A"; "B"; "C"]
      (built lines_AB_ABC (MarketBasketAnalyzer.init 0 0))
    = Ok (Finite (1 # 2)).
Proof.
  destruct (support_other_arity ["A"; "B"; "C"] cache_AB_ABC
              (built lines_AB_ABC (MarketBasketAnalyzer.init 0 0)))
    as (Hc & Ha & Hb); [simpl; lia|simpl; lia|].
  split; [exact Hc|].
  destruct Hb as (q & -> & _ & Hq); [reflexivity|].
  rewrite Hq. by vm_compute.
Defined.

Lemma exact_cache_finite (c : AffinityCache.t) :
  CacheSpec.finite_supports (ar := exact_arithmetic) c.
Proof.
  split; intros; unfold support_item, support_key; by case_decide.
Qed.

Lemma exact_analyzer_finite (self : MarketBasketAnalyzer.t) :
  AnalyzerSpec.finite_supports (ar := exact_arithmetic) self.
Proof. intros itemset. unfold support_of. by case_decide. Qed.

(** Without rounding, lift is the pair support over the product of the two
    supports, whichever way the rule points. *)
Lemma exact_lift (sab sa sb : Q) :
  ¬ (sa == 0)%Q → ¬ (sb == 0)%Q →
  ∃ l_ab l_ba,
    (if float_eq (Finite sb) (Finite 0) then Finite 0
     else float_div (ar := exact_arithmetic)
            (if float_eq (Finite sa) (Finite 0) then Finite 0
             else float_div (ar := exact_arithmetic) (Finite sab) (Finite sa))
            (Finite sb)) = Finite l_ab
    ∧ (if float_eq (Finite sa) (Finite 0) then Finite 0
       else float_div (ar := exact_arithmetic)
              (if float_eq (Finite sb) (Finite 0) then Finite 0
               else float_div (ar := exact_arithmetic) (Finite sab)
                      (Finite sb))
              (Finite sa)) = Finite l_ba
    ∧ (l_ab == l_ba)%Q ∧ (l_ab == sab / (sa * sb))%Q.
Proof.
  intros Ha Hb.
  rewrite (proj2 (FloatFacts.float_eq_zero_false sa) Ha),
          (proj2 (FloatFacts.float_eq_zero_false sb) Hb).
  simpl. eexists _, _. split; [done|]. split; [done|].
  rewrite !Qred_correct.
  destruct (lift_formula sab sa sb Ha Hb) as [H1 H2]. by split.
Qed.

(** C10. Under exact rational arithmetic, when the supports of [a] and of
    [b] are not zero, [get_lift a b] and [get_lift b a] return equal
    rationals, both the pair support over the product of the two supports;
    so do [calculate_lift a b] and [calculate_lift b a] of the batch
    analyzer. *)
Theorem lift_symmetric (a b : string) :
  (∀ c : AffinityCache.t,
     ¬ (value (support_item (ar := exact_arithmetic) c a) == 0)%Q →
     ¬ (value (support_item (ar := exact_arithmetic) c b) == 0)%Q →
     ∃ l_ab c1 l_ba c2,
       AffinityCache.get_lift (ar := exact_arithmetic) a b c
         = Ok (Finite l_ab, c1)
       ∧ AffinityCache.get_lift (ar := exact_arithmetic) b a c
         = Ok (Finite l_ba, c2)
       ∧ (l_ab == l_ba)%Q
       ∧ (l_ab == value (support_pair (ar := exact_arithmetic) c a b)
                  / (value (support_item (ar := exact_arithmetic) c a)
                     * value (support_item (ar := exact_arithmetic) c b)))%Q)
  ∧ (∀ self : MarketBasketAnalyzer.t,
       ¬ (value (support_of (ar := exact_arithmetic) self [a]) == 0)%Q →
       ¬ (value (support_of (ar := exact_arithmetic) self [b]) == 0)%Q →
       ∃ l_ab l_ba,
         MarketBasketAnalyzer.calculate_lift (ar := exact_arithmetic) a b self
           = Ok (Finite l_ab)
         ∧ MarketBasketAnalyzer.calculate_lift (ar := exact_arithmetic)
             b a self = Ok (Finite l_ba)
         ∧ (l_ab == l_ba)%Q
         ∧ (l_ab == value (support_of (ar := exact_arithmetic) self [a; b])
                    / (value (support_of (ar := exact_arithmetic) self [a])
                       * value (support_of (ar := exact_arithmetic) self
                                  [b])))%Q).
Proof.
  split.
  - intros c Ha Hb.
    pose proof (exact_cache_finite c) as Hf.
    rewrite !Queries.get_lift_eq by done.
    unfold lift_val, confidence_val.
    rewrite (Queries.support_pair_comm c a b).
    destruct Hf as [Hi Hp].
    pose proof (Hi a) as Fa. pose proof (Hi b) as Fb.
    pose proof (Hp (sorted_pair a b)) as Fab. unfold support_pair in *.
    destruct (support_item c a) as [sa| |]; [|done|done].
    destruct (support_item c b) as [sb| |]; [|done|done].
    destruct (support_key c (sorted_pair a b)) as [sab| |]; [|done|done].
    simpl in Ha, Hb.
    destruct (exact_lift sab sa sb Ha Hb) as (l_ab & l_ba & -> & -> & H1 & H2).
    eexists l_ab, _, l_ba, _. split; [done|]. split; [done|]. by split.
  - intros self Ha Hb.
    pose proof (exact_analyzer_finite self) as Hf.
    rewrite !Analyzer.calculate_lift_eq by done.
    unfold lift_of, confidence_of.
    rewrite (Analyzer.support_of_swap self a b).
    pose proof (Hf [a]) as Fa. pose proof (Hf [b]) as Fb.
    pose proof (Hf [a; b]) as Fab.
    destruct (support_of self [a]) as [sa| |]; [|done|done].
    destruct (support_of self [b]) as [sb| |]; [|done|done].
    destruct (support_of self [a; b]) as [sab| |]; [|done|done].
    simpl in Ha, Hb.
    destruct (exact_lift sab sa sb Ha Hb) as (l_ab & l_ba & -> & -> & H1 & H2).
    eexists l_ab, l_ba. split; [done|]. split; [done|]. by split.
Qed.

Lemma lift_symmetric_witness :
  (∃ l_ab c1 l_ba c2,
     AffinityCache.get_lift (ar := exact_arithmetic) "A" "C" cache_AB_ABC
       = Ok (Finite l_ab, c1)
     ∧ AffinityCache.get_lift (ar := exact_arithmetic) "C" "A" cache_AB_ABC
       = Ok (Finite l_ba, c2)
     ∧ (l_ab == l_ba)%Q
     ∧ (l_ab == value (support_pair (ar := exact_arithmetic) cache_AB_ABC
                         "A" "C")
                / (value (support_item (ar := exact_arithmetic) cache_AB_ABC
                            "A")
                   * value (support_item (ar := exact_arithmetic)
                              cache_AB_ABC "C")))%Q)
  ∧ (∃ l_ab l_ba,
       MarketBasketAnalyzer.calculate_lift (ar := exact_arithmetic) "A" "C"
         (built lines_AB_ABC (MarketBasketAnalyzer.init 0 0))
         = Ok (Finite l_ab)
       ∧ MarketBasketAnalyzer.calculate_lift (ar := exact_arithmetic) "C" "A"
           (built lines_AB_ABC (MarketBasketAnalyzer.init 0 0))
         = Ok (Finite l_ba)
       ∧ (l_ab == l_ba)%Q
       ∧ (l_ab == value (support_of (ar := exact_arithmetic)
                           (built lines_AB_ABC (MarketBasketAnalyzer.init 0 0))
                           ["A"; "C"])
                  / (value (support_of (ar := exact_arithmetic)
                              (built lines_AB_ABC
                                 (MarketBasketAnalyzer.init 0 0)) ["A"])
                     * value (support_of (ar := exact_arithmetic)
                                (built lines_AB_ABC
                                   (MarketBasketAnalyzer.init 0 0))
                                ["C"])))%Q).
Proof.
  destruct (lift_symmetric "A" "C") as [Hc Ha]. split.
  - apply Hc; vm_compute; discriminate.
  - apply Ha; vm_compute; discriminate.
Defined.

(** Confidence does depend on the direction: after [{A, B}] and
    [{A, B, C}], [A → C] has confidence one half and [C → A] has one. *)
Lemma confidence_asymmetric :
  confidence_val cache_AB_ABC "A" "C" = Finite (1 # 2)
  ∧ confidence_val cache_AB_ABC "C" "A" = Finite 1.
Proof. split; by vm_compute. Qed.

(** C5, on the code: with a product table and no rule, [analyze] raises
    [KeyError] on the column [product_a], which the empty frame does not
    have; without a product table it returns the empty frame.  No rule
    means no line item at all, or no candidate pair that passes. *)
Theorem analyze_without_rules (line_items_df : list LineItem)
    (products_df : list (string * string)) (self : MarketBasketAnalyzer.t) :
  line_items_df = []
  ∨ filter (passes (built line_items_df self))
      (MarketBasketAnalyzer.generate_product_pairs (built line_items_df self))
    = [] →
  MarketBasketAnalyzer.analyze line_items_df None self
    = Ok (mkDataFrame [] [], built line_items_df self)
  ∧ MarketBasketAnalyzer.analyze line_items_df (Some products_df) self
    = Raise (KeyError "product_a").
Proof.
  intros H.
  assert (Hnil : filter (passes (built line_items_df self))
                   (MarketBasketAnalyzer.generate_product_pairs
                      (built line_items_df self)) = []).
  { destruct H as [->|H]; [done|exact H]. }
  rewrite Analyzer.analyze_None_eq, Analyzer.analyze_Some_eq, Hnil. done.
Qed.

Lemma analyze_without_rules_witness :
  MarketBasketAnalyzer.analyze [] None (MarketBasketAnalyzer.init (1 # 100) (1 # 10))
    = Ok (mkDataFrame [] [],
          built [] (MarketBasketAnalyzer.init (1 # 100) (1 # 10)))
  ∧ MarketBasketAnalyzer.analyze [] (Some products)
      (MarketBasketAnalyzer.init (1 # 100) (1 # 10))
    = Raise (KeyError "product_a").
Proof.
  apply (analyze_without_rules [] products
           (MarketBasketAnalyzer.init (1 # 100) (1 # 10))).
  left. reflexivity.
Defined.

End MetricResults.

(** * The rules query, and batch against incremental *)

Module RuleResults.
Import Sample.



(** The updater that was initialized from a table of line items asks the
    cache that has ingested the baskets of the table. *)
Lemma get_current_affinities_initialized (line_items_df : list LineItem)
    (ms mc : Q) :
  CacheSpec.value_of
    (IncrementalAffinityUpdater.get_current_affinities
       (IncrementalAffinityUpdater.initialize_from_line_items line_items_df
          (IncrementalAffinityUpdater.init ms mc)))
  = CacheSpec.value_of
      (AffinityCache.get_updated_affinities ms mc
         (AffinityCache.update_with_batch
            (baskets_of_line_items line_items_df) AffinityCache.init)).
Proof.
  unfold IncrementalAffinityUpdater.get_current_affinities. simpl.
  by destruct (AffinityCache.get_updated_affinities _ _ _) as [[df c]|e].
Qed.

(** C1, against the claim: with both thresholds at zero and the two
    transactions [{A}] and [{B}], the analyzer returns the two rules of the
    pair [(A, B)], which no basket holds, and the cache that has ingested
    the same two baskets returns none. *)
Lemma batch_incremental_differ_at_zero :
  ∃ df_batch self' df_incr c',
    MarketBasketAnalyzer.analyze lines_A_B None
      (MarketBasketAnalyzer.init 0 0) = Ok (df_batch, self')
    ∧ AffinityCache.get_updated_affinities 0 0
        (AffinityCache.update_with_batch (baskets_of_line_items lines_A_B)
           AffinityCache.init) = Ok (df_incr, c')
    ∧ (product_a <$> rows df_batch) = ["A"; "B"]
    ∧ (product_b <$> rows df_batch) = ["B"; "A"]
    ∧ rows df_incr = [].
Proof. eexists _, _, _, _. split_and!; by vm_compute. Qed.

(** C1, as amended. [analyze] on a table of line items returns the rules
    that [get_updated_affinities], with the same thresholds, returns on a
    new cache that has ingested the baskets of the table in any order, with
    the same support, confidence and lift, and, only when [min_support] and
    [min_confidence] are both zero or less, two more rules for every pair
    of products of the table that no basket holds together, with support,
    confidence and lift zero; all up to the order of the rows.  So the two
    tables hold the same rules exactly when one of the thresholds is above
    zero or every two products of the table share a basket. *)
Theorem batch_incremental_rules (line_items_df : list LineItem)
    (self : MarketBasketAnalyzer.t) (baskets : list (gset string)) :
  baskets ≡ₚ baskets_of_line_items line_items_df →
  ∃ rows_batch rows_incr c',
    MarketBasketAnalyzer.analyze line_items_df None self
      = Ok (DataFrame_of_records rows_batch,
            AnalyzerSpec.built line_items_df self)
    ∧ AffinityCache.get_updated_affinities
        (MarketBasketAnalyzer.min_support self)
        (MarketBasketAnalyzer.min_confidence self)
        (AffinityCache.update_with_batch baskets AffinityCache.init)
      = Ok (DataFrame_of_records rows_incr, c')
    ∧ rows_batch
      ≡ₚ rows_incr
         ++ (if Qle_bool (MarketBasketAnalyzer.min_support self) 0
                && Qle_bool (MarketBasketAnalyzer.min_confidence self) 0
             then flat_map AnalyzerSpec.zero_rules
                    (filter (AnalyzerSpec.apart
                               (AnalyzerSpec.built line_items_df self))
                       (MarketBasketAnalyzer.generate_product_pairs
                          (AnalyzerSpec.built line_items_df self)))
             else [])
    ∧ (rows_batch ≡ₚ rows_incr
       ↔ (0 < MarketBasketAnalyzer.min_support self)%Q
         ∨ (0 < MarketBasketAnalyzer.min_confidence self)%Q
         ∨ filter (AnalyzerSpec.apart (AnalyzerSpec.built line_items_df self))
             (MarketBasketAnalyzer.generate_product_pairs
                (AnalyzerSpec.built line_items_df self)) = []).
Proof.
  intros Hbaskets.
  rewrite (Ingest.update_with_batch_Permutation _ _ _ Hbaskets).
  set (self' := AnalyzerSpec.built line_items_df self).
  set (c := AffinityCache.update_with_batch
              (baskets_of_line_items line_items_df) AffinityCache.init).
  destruct (Queries.get_updated_affinities_eq
              (MarketBasketAnalyzer.min_support self)
              (MarketBasketAnalyzer.min_confidence self) c
              (Equivalence.cache_finite self' c eq_refl)
              (Equivalence.cache_well_formed self' c eq_refl))
    as (c' & Heq & _).
  pose proof (Equivalence.rules_Permutation self' c eq_refl eq_refl)
    as Hperm.
  change (MarketBasketAnalyzer.min_support self')
    with (MarketBasketAnalyzer.min_support self) in Hperm.
  change (MarketBasketAnalyzer.min_confidence self')
    with (MarketBasketAnalyzer.min_confidence self) in Hperm.
  eexists _, _, c'. split; [apply Analyzer.analyze_None_eq|].
  split; [exact Heq|]. fold self'. split; [exact Hperm|].
  set (apart_pairs := filter (AnalyzerSpec.apart self')
         (MarketBasketAnalyzer.generate_product_pairs self')) in *.
  set (rows_incr := flat_map (CacheSpec.pair_rules c) _) in *.
  set (rows_batch := flat_map (AnalyzerSpec.pair_rules self') _) in *.
  assert (Hlen : length (flat_map AnalyzerSpec.zero_rules apart_pairs)
                 = (2 * length apart_pairs)%nat).
  { apply length_flat_map_two. by intros [a b]. }
  destruct (Qle_bool (MarketBasketAnalyzer.min_support self) 0) eqn:Hms;
    [destruct (Qle_bool (MarketBasketAnalyzer.min_confidence self) 0)
       eqn:Hmc|]; simpl in Hperm.
  - apply Qle_bool_iff in Hms, Hmc. split.
    + intros Hsame. right. right.
      apply Permutation_length in Hperm, Hsame.
      rewrite length_app, Hlen in Hperm.
      destruct apart_pairs; [done|simpl in Hperm; lia].
    + intros [Hlt|[Hlt|Hnil]].
      * by apply Qlt_not_le in Hlt.
      * by apply Qlt_not_le in Hlt.
      * rewrite Hnil in Hperm. simpl in Hperm. by rewrite app_nil_r in Hperm.
  - rewrite app_nil_r in Hperm. split; [|done]. intros _. right. left.
    apply Qnot_le_lt. intros H. apply Qle_bool_iff in H. congruence.
  - rewrite app_nil_r in Hperm. split; [|done]. intros _. left.
    apply Qnot_le_lt. intros H. apply Qle_bool_iff in H. congruence.
Qed.

Lemma batch_incremental_rules_witness :
  ∃ rows_batch rows_incr c',
    MarketBasketAnalyzer.analyze lines_A_B None
      (MarketBasketAnalyzer.init 0 0)
      = Ok (DataFrame_of_records rows_batch,
            AnalyzerSpec.built lines_A_B (MarketBasketAnalyzer.init 0 0))
    ∧ AffinityCache.get_updated_affinities 0 0
        (AffinityCache.update_with_batch [basket_B; basket_A]
           AffinityCache.init)
      = Ok (DataFrame_of_records rows_incr, c')
    ∧ rows_batch
      ≡ₚ rows_incr
         ++ [rule_dict "A" "B" (Finite 0) (Finite 0) (Finite 0);
             rule_dict "B" "A" (Finite 0) (Finite 0) (Finite 0)].
Proof.
  destruct (batch_incremental_rules lines_A_B
              (MarketBasketAnalyzer.init 0 0) [basket_B; basket_A])
    as (rows_batch & rows_incr & c' & Hb & Hi & Hperm & _).
  { assert (Hb : baskets_of_line_items lines_A_B = [basket_A; basket_B])
      by by vm_compute.
    rewrite Hb. apply perm_swap. }
  exists rows_batch, rows_incr, c'. split; [exact Hb|]. split; [exact Hi|].
  assert (Hz : flat_map AnalyzerSpec.zero_rules
                 (filter (AnalyzerSpec.apart
                            (AnalyzerSpec.built lines_A_B
                               (MarketBasketAnalyzer.init 0 0)))
                    (MarketBasketAnalyzer.generate_product_pairs
                       (AnalyzerSpec.built lines_A_B
                          (MarketBasketAnalyzer.init 0 0))))
               = [rule_dict "A" "B" (Finite 0) (Finite 0) (Finite 0);
                  rule_dict "B" "A" (Finite 0) (Finite 0) (Finite 0)])
    by by vm_compute.
  rewrite <- Hz. exact Hperm.
Defined.

(** One basket [{A, B}] and both thresholds at zero: every pair of
    products shares a basket, and the two paths return the same table. *)
Example batch_incremental_same_single_basket :
  ∃ df self' c',
    MarketBasketAnalyzer.analyze Sample2.lines_T1 None
      (MarketBasketAnalyzer.init 0 0) = Ok (df, self')
    ∧ AffinityCache.get_updated_affinities 0 0
        (AffinityCache.update_with_batch
           (baskets_of_line_items Sample2.lines_T1) AffinityCache.init)
      = Ok (df, c')
    ∧ (product_a <$> rows df) = ["A"; "B"]
    ∧ (product_b <$> rows df) = ["B"; "A"].
Proof. eexists _, _, _. split_and!; by vm_compute. Qed.

End RuleResults.

(** * The basket builder *)

Module BasketBuilder.
Import Sample Sample2.

Lemma elem_of_group_keys (df : list LineItem) (t : string) :
  t ∈ group_keys df ↔ t ∈ transaction_id <$> df.
Proof. unfold group_keys. by rewrite elem_of_sorted, elem_of_remove_dups. Qed.

Lemma NoDup_group_keys (df : list LineItem) : NoDup (group_keys df).
Proof. apply NoDup_sorted, NoDup_remove_dups. Qed.

Lemma elem_of_group_basket (df : list LineItem) (t x : string) :
  x ∈ group_basket df t ↔ mkLineItem t x ∈ df.
Proof.
  unfold group_basket. rewrite elem_of_list_to_set, list_elem_of_fmap. split.
  - intros ([t' x'] & -> & [Ht Hr]%list_elem_of_filter).
    simpl in *. by subst.
  - intros Hr. exists (mkLineItem t x). split; [done|].
    by apply list_elem_of_filter.
Qed.

Lemma group_keys_ext (df df' : list LineItem) :
  (∀ t, t ∈ transaction_id <$> df ↔ t ∈ transaction_id <$> df') →
  group_keys df = group_keys df'.
Proof.
  intros Hids. apply (StronglySorted_unique str_le).
  - apply sorted_StronglySorted.
  - apply sorted_StronglySorted.
  - apply NoDup_Permutation; [apply NoDup_group_keys..|].
    intros t. by rewrite !elem_of_group_keys.
Qed.

(** X1. The baskets are a function of the set of rows: the order of the rows
    and a row that is repeated change nothing. *)
Theorem baskets_depend_on_row_set (df df' : list LineItem) :
  (∀ r, r ∈ df ↔ r ∈ df') →
  baskets_of_line_items df = baskets_of_line_items df'.
Proof.
  intros Hrows. unfold baskets_of_line_items.
  assert (Hkeys : group_keys df = group_keys df').
  { apply group_keys_ext. intros t. rewrite !list_elem_of_fmap.
    split; intros (r & -> & Hr); exists r; (split; [done|by apply Hrows]). }
  rewrite Hkeys. apply list_fmap_ext. intros i t _.
  apply set_eq. intros x. by rewrite !elem_of_group_basket.
Qed.

Lemma baskets_depend_on_row_set_witness :
  baskets_of_line_items
    [mkLineItem "T2" "C"; mkLineItem "T1" "A"; mkLineItem "T2" "C";
     mkLineItem "T1" "B"; mkLineItem "T2" "A"]
  = baskets_of_line_items (lines_T1 ++ lines_T2).
Proof.
  apply baskets_depend_on_row_set. intros r.
  unfold lines_T1, lines_T2. simpl app.
  rewrite !elem_of_cons, !elem_of_nil. tauto.
Defined.

(** X2. There is one basket for each distinct transaction id, none of them
    empty; a basket holds exactly the products of the rows of its
    transaction; and [build_transaction_baskets] sets [total_transactions]
    to the number of distinct transaction ids. *)
Theorem baskets_of_line_items_spec (df : list LineItem)
    (self : MarketBasketAnalyzer.t) :
  length (baskets_of_line_items df)
    = length (remove_dups (transaction_id <$> df))
  ∧ (∀ b, b ∈ baskets_of_line_items df ↔
          ∃ t, t ∈ transaction_id <$> df
               ∧ ∀ x, x ∈ b ↔ mkLineItem t x ∈ df)
  ∧ (∀ b, b ∈ baskets_of_line_items df → b ≠ ∅)
  ∧ MarketBasketAnalyzer.total_transactions (AnalyzerSpec.built df self)
    = Z.of_nat (length (remove_dups (transaction_id <$> df)))
  ∧ MarketBasketAnalyzer.transaction_baskets (AnalyzerSpec.built df self)
    = baskets_of_line_items df.
Proof.
  assert (Hlen : length (baskets_of_line_items df)
                 = length (remove_dups (transaction_id <$> df))).
  { unfold baskets_of_line_items, group_keys.
    by rewrite length_fmap, sorted_Permutation. }
  assert (Hmem : ∀ b, b ∈ baskets_of_line_items df ↔
            ∃ t, t ∈ transaction_id <$> df
                 ∧ ∀ x, x ∈ b ↔ mkLineItem t x ∈ df).
  { intros b. unfold baskets_of_line_items. rewrite list_elem_of_fmap. split.
    - intros (t & -> & Ht%elem_of_group_keys). exists t. split; [done|].
      intros x. apply elem_of_group_basket.
    - intros (t & Ht & Hb). exists t. split; [|by apply elem_of_group_keys].
      apply set_eq. intros x. by rewrite Hb, elem_of_group_basket. }
  split_and!; [done|done| |by simpl; rewrite Hlen|done].
  intros b (t & Ht & Hb)%Hmem ->.
  apply list_elem_of_fmap in Ht as ([t' x] & -> & Hr). simpl in Hb.
  apply (not_elem_of_empty (C := gset string) x). by apply Hb.
Qed.

End BasketBuilder.

(** * The counters after ingestion *)

Module CounterFacts.
Import AffinityCache CacheSpec Ingest BatchCounts Bounds Sample.

Lemma is_Some_item_batch (baskets : list (gset string)) (c : t)
    (x : string) :
  is_Some (item_counts (update_with_batch baskets c) !! x) ↔
  is_Some (item_counts c !! x) ∨ ∃ basket, basket ∈ baskets ∧ x ∈ basket.
Proof.
  revert c. induction baskets as [|b bs IH]; intros c.
  { simpl. split; [by left|]. intros [H|(b & Hb%elem_of_nil & _)]; done. }
  rewrite update_with_batch_cons, IH, lookup_item_update.
  destruct (decide (x ∈ b)) as [Hin|Hin]; split.
  - intros _. right. exists b. split; [by left|done].
  - intros _. left. done.
  - intros [H|(b' & Hb' & Hx)]; [by left|].
    right. exists b'. split; [by right|done].
  - intros [H|(b' & [->|Hb']%elem_of_cons & Hx)]; [by left|done|].
    right. by exists b'.
Qed.

Lemma all_products_batch (baskets : list (gset string)) (c : t)
    (x : string) :
  x ∈ all_products (update_with_batch baskets c) ↔
  x ∈ all_products c ∨ ∃ basket, basket ∈ baskets ∧ x ∈ basket.
Proof.
  revert c. induction baskets as [|b bs IH]; intros c.
  { simpl. split; [by left|]. intros [H|(b & Hb%elem_of_nil & _)]; done. }
  rewrite update_with_batch_cons, IH, all_products_update, elem_of_union.
  split.
  - intros [[H|H]|(b' & Hb' & Hx)].
    + right. exists b. split; [by left|done].
    + by left.
    + right. exists b'. split; [by right|done].
  - intros [H|(b' & [->|Hb']%elem_of_cons & Hx)].
    + left. by right.
    + left. by left.
    + right. by exists b'.
Qed.

Lemma ingested_as_batch (c : t) :
  ingested c → ∃ baskets, c = update_with_batch baskets init.
Proof.
  induction 1 as [|b c _ [bs ->]|bs' c _ [bs ->]].
  - by exists [].
  - exists (bs ++ [b]). by rewrite update_with_batch_app.
  - exists (bs ++ bs'). by rewrite update_with_batch_app.
Qed.

(** X3. After the baskets have been ingested into a new cache, in one batch,
    [total_transactions] is the number of baskets, the count of a product
    is the number of baskets that hold it, the count under a key [(a, b)]
    is the number of baskets that hold both when [a] sorts strictly before
    [b] and there is no such key otherwise, and [all_products] is the union
    of the baskets.  No key with the count zero is stored. *)
Theorem ingested_counters_exact (baskets : list (gset string)) :
  total_transactions (update_with_batch baskets init)
    = Z.of_nat (length baskets)
  ∧ (∀ x, count_of (item_counts (update_with_batch baskets init)) x
          = MarketBasketAnalyzer.count_baskets {[x]} baskets)
  ∧ (∀ x, is_Some (item_counts (update_with_batch baskets init) !! x) ↔
          ∃ basket, basket ∈ baskets ∧ x ∈ basket)
  ∧ (∀ a b, count_of (pair_counts (update_with_batch baskets init)) (a, b)
            = if decide (str_lt a b)
              then MarketBasketAnalyzer.count_baskets {[a; b]} baskets
              else 0)
  ∧ (∀ a b, is_Some (pair_counts (update_with_batch baskets init) !! (a, b))
            ↔ str_lt a b
              ∧ ∃ basket, basket ∈ baskets ∧ a ∈ basket ∧ b ∈ basket)
  ∧ (∀ x, x ∈ all_products (update_with_batch baskets init) ↔
          ∃ basket, basket ∈ baskets ∧ x ∈ basket).
Proof.
  assert (Hpair : ∀ a b,
    is_Some (pair_counts (update_with_batch baskets init) !! (a, b))
    ↔ str_lt a b ∧ ∃ basket, basket ∈ baskets ∧ a ∈ basket ∧ b ∈ basket).
  { intros a b. rewrite is_Some_pair_batch_init, count_baskets_pos.
    split; intros (Hlt & bk & Hb & H); (split; [done|]); exists bk;
      (split; [done|]); set_solver. }
  split_and!.
  - rewrite total_update_with_batch. simpl. lia.
  - intros x. rewrite count_item_batch. unfold count_of. simpl.
    by rewrite lookup_empty.
  - intros x. rewrite is_Some_item_batch. simpl. rewrite lookup_empty.
    split; [|by right]. intros [[v Hv]|H]; done.
  - intros a b. destruct (decide (str_lt a b)) as [Hlt|Hlt].
    + rewrite count_pair_batch by done. unfold count_of. simpl.
      by rewrite lookup_empty.
    + unfold count_of.
      destruct (pair_counts (update_with_batch baskets init) !! (a, b))
        eqn:Hl; [|done].
      assert (Hs : is_Some (pair_counts (update_with_batch baskets init)
                            !! (a, b))) by by rewrite Hl.
      apply Hpair in Hs as [? _]. done.
  - done.
  - intros x. rewrite all_products_batch. simpl.
    split; [|by right]. intros [H|H]; [|done].
    by apply not_elem_of_empty in H.
Qed.

Lemma ingested_dom_item_counts (c : t) :
  ingested c → dom (item_counts c) = all_products c.
Proof.
  intros [bs ->]%ingested_as_batch.
  apply set_eq. intros x.
  rewrite elem_of_dom, is_Some_item_batch, all_products_batch. simpl.
  rewrite lookup_empty. split.
  - intros [[v Hv]|H]; [done|by right].
  - intros [H|H]; [by apply not_elem_of_empty in H|by right].
Qed.

Lemma ingested_pair_keys (c : t) (a b : string) :
  ingested c → is_Some (pair_counts c !! (a, b)) →
  str_lt a b ∧ a ∈ all_products c ∧ b ∈ all_products c.
Proof.
  intros [bs ->]%ingested_as_batch.
  rewrite is_Some_pair_batch_init, count_baskets_pos.
  intros (Hlt & bk & Hb & Hsub). split; [done|].
  rewrite !all_products_batch.
  split; right; exists bk; (split; [done|set_solver]).
Qed.

Lemma count_pair_batch_other (baskets : list (gset string)) (c : t)
    (x y : string) :
  ¬ str_lt x y →
  count_of (pair_counts (update_with_batch baskets c)) (x, y)
    = count_of (pair_counts c) (x, y).
Proof.
  intros Hlt. revert c. induction baskets as [|b bs IH]; intros c; [done|].
  rewrite update_with_batch_cons, IH, count_pair_update.
  rewrite decide_False; [lia|].
  by intros (_ & _ & ?)%elem_of_basket_pairs.
Qed.

(** X4. A cache that ingestion alone has built is the result of one batch on a
    new cache; the keys of [item_counts] are exactly [all_products]; a key
    of [pair_counts] is a strictly sorted pair of known products; and every
    stored count is positive. *)
Theorem ingested_cache_shape (c : t) :
  ingested c →
  (∃ baskets, c = update_with_batch baskets init)
  ∧ dom (item_counts c) = all_products c
  ∧ (∀ a b, is_Some (pair_counts c !! (a, b)) →
            str_lt a b ∧ a ∈ all_products c ∧ b ∈ all_products c)
  ∧ (∀ x n, item_counts c !! x = Some n → 0 < n)
  ∧ (∀ p n, pair_counts c !! p = Some n → 0 < n).
Proof.
  intros Hc. pose proof (ingested_dom_item_counts c Hc) as Hdom.
  apply ingested_as_batch in Hc as [bs ->]. split_and!.
  - by exists bs.
  - exact Hdom.
  - intros a b. apply ingested_pair_keys.
    apply ingested_batch, ingested_init.
  - intros x n Hn.
    assert (Hs : is_Some (item_counts (update_with_batch bs init) !! x))
      by by rewrite Hn.
    apply is_Some_item_batch in Hs as [[v Hv]|(bk & Hb & Hx)].
    { simpl in Hv. by rewrite lookup_empty in Hv. }
    pose proof (count_item_batch bs init x) as Hc.
    unfold count_of at 1 in Hc. rewrite Hn in Hc. simpl in Hc.
    unfold count_of in Hc. rewrite lookup_empty in Hc. simpl in Hc.
    rewrite Hc, Z.add_0_l. apply count_baskets_pos.
    exists bk. split; [done|set_solver].
  - intros [a b] n Hn. by apply lookup_pair_batch_init in Hn as (_ & _ & ?).
Qed.

Lemma ingested_cache_shape_witness :
  (∃ baskets, cache_AB_ABC = update_with_batch baskets init)
  ∧ dom (item_counts cache_AB_ABC) = all_products cache_AB_ABC
  ∧ (∀ a b, is_Some (pair_counts cache_AB_ABC !! (a, b)) →
            str_lt a b ∧ a ∈ all_products cache_AB_ABC
            ∧ b ∈ all_products cache_AB_ABC)
  ∧ (∀ x n, item_counts cache_AB_ABC !! x = Some n → 0 < n)
  ∧ (∀ p n, pair_counts cache_AB_ABC !! p = Some n → 0 < n).
Proof.
  apply ingested_cache_shape. apply ingested_batch, ingested_init.
Defined.

End CounterFacts.

(** * The range of the metrics *)

Module MetricRange.
Import AffinityCache CacheSpec Bounds Sample.

(** The supports of a pair and of its two products, in a cache whose
    counters are within their bounds. *)
Lemma support_pair_le_item (c : t) (a b : string) :
  bounded c →
  ∃ s_ab s_a s_b,
    support_pair c a b = Finite s_ab
    ∧ support_item c a = Finite s_a ∧ support_item c b = Finite s_b
    ∧ (0 <= s_ab)%Q ∧ (s_ab <= s_a)%Q ∧ (s_ab <= s_b)%Q
    ∧ (s_a <= 1)%Q ∧ (s_b <= 1)%Q.
Proof.
  intros Hb. pose proof Hb as [Hi Hp].
  destruct (Invariants.bounded_support_item c a Hb) as (s_a & Ha & Ha0 & Ha1).
  destruct (Invariants.bounded_support_item c b Hb) as (s_b & Hb' & Hb0 & Hb1).
  destruct (Invariants.bounded_support_key c (sorted_pair a b) Hb)
    as (s_ab & Hab & Hab0 & Hab1).
  exists s_ab, s_a, s_b. split_and!; try done.
  - assert (Hle : float_le (support_pair c a b) (support_item c a) = true).
    { unfold support_pair, support_key, support_item.
      case_decide as Ht; [done|].
      apply Rounding.ratio_mono; [|specialize (Hi a); lia].
      rewrite sorted_pair_spec. case_decide.
      - specialize (Hp a b). lia.
      - specialize (Hp b a). lia. }
    unfold support_pair in Hle. rewrite Ha, Hab in Hle.
    by apply FloatFacts.float_le_Finite.
  - assert (Hle : float_le (support_pair c a b) (support_item c b) = true).
    { unfold support_pair, support_key, support_item.
      case_decide as Ht; [done|].
      apply Rounding.ratio_mono; [|specialize (Hi a); lia].
      rewrite sorted_pair_spec. case_decide.
      - specialize (Hp a b). lia.
      - specialize (Hp b a). lia. }
    unfold support_pair in Hle. rewrite Hb', Hab in Hle.
    by apply FloatFacts.float_le_Finite.
Qed.

Lemma confidence_val_range (c : t) (a b : string) :
  bounded c → ∃ q, confidence_val c a b = Finite q ∧ (0 <= q <= 1)%Q.
Proof.
  intros Hb. unfold confidence_val.
  destruct (support_pair_le_item c a b Hb)
    as (s_ab & s_a & s_b & -> & -> & _ & H0 & Ha & _).
  destruct (float_eq (Finite s_a) (Finite 0)) eqn:Hz.
  - by exists 0%Q.
  - apply FloatFacts.float_eq_zero_false in Hz.
    by apply Rounding.float_div_unit.
Qed.

Lemma lift_val_nonneg (c : t) (a b : string) :
  bounded c → float_le (Finite 0) (lift_val c a b) = true.
Proof.
  intros Hb. unfold lift_val.
  destruct (confidence_val_range c a b Hb) as (q & -> & Hq0 & _).
  destruct (Invariants.bounded_support_item c b Hb) as (s_b & -> & Hb0 & _).
  destruct (float_eq (Finite s_b) (Finite 0)) eqn:Hz; [done|].
  apply FloatFacts.float_eq_zero_false in Hz.
  apply Rounding.round_nonneg.
  apply Qle_shift_div_l; [|by rewrite Qmult_0_l].
  apply Qle_lt_or_eq in Hb0 as [|Heq]; [done|]. destruct Hz. by symmetry.
Qed.

(** X6. In every cache that calls of the public methods can build,
    [get_support] returns a value between 0 and 1, for any itemset. *)
Theorem support_in_unit_interval (c : t) (itemset : list string) :
  reachable c →
  ∃ v c', get_support itemset c = Ok (Finite v, c') ∧ (0 <= v <= 1)%Q.
Proof.
  intros Hc. pose proof (Invariants.reachable_bounded c Hc) as Hb.
  rewrite Queries.get_support_eq by by apply Invariants.bounded_finite.
  destruct itemset as [|x [|y [|z l]]]; simpl.
  - by eexists 0%Q, _.
  - destruct (Invariants.bounded_support_item c x Hb) as (q & -> & Hq).
    by eexists q, _.
  - destruct (Invariants.bounded_support_key c (sorted_pair x y) Hb)
      as (q & Hq & Hr).
    unfold support_pair. rewrite Hq. by eexists q, _.
  - by eexists 0%Q, _.
Qed.

Lemma support_in_unit_interval_witness :
  ∃ v c', get_support ["A"; "C"] cache_AB_ABC = Ok (Finite v, c')
          ∧ (0 <= v <= 1)%Q.
Proof.
  apply support_in_unit_interval.
  apply reachable_batch, reachable_init.
Defined.

(** X7. In every such cache the support of a pair is at most the support of
    each of its two products. *)
Theorem pair_support_at_most_item_support (c : t) (a b : string) :
  reachable c →
  ∃ s_ab s_a s_b c1 c2 c3,
    get_support [a; b] c = Ok (Finite s_ab, c1)
    ∧ get_support [a] c = Ok (Finite s_a, c2)
    ∧ get_support [b] c = Ok (Finite s_b, c3)
    ∧ (s_ab <= s_a)%Q ∧ (s_ab <= s_b)%Q.
Proof.
  intros Hc. pose proof (Invariants.reachable_bounded c Hc) as Hb.
  rewrite !Queries.get_support_eq by by apply Invariants.bounded_finite.
  simpl.
  destruct (support_pair_le_item c a b Hb)
    as (s_ab & s_a & s_b & -> & -> & -> & _ & Ha & Hb' & _).
  by eexists s_ab, s_a, s_b, _, _, _.
Qed.

Lemma pair_support_at_most_item_support_witness :
  ∃ s_ab s_a s_b c1 c2 c3,
    get_support ["A"; "C"] cache_AB_ABC = Ok (Finite s_ab, c1)
    ∧ get_support ["A"] cache_AB_ABC = Ok (Finite s_a, c2)
    ∧ get_support ["C"] cache_AB_ABC = Ok (Finite s_b, c3)
    ∧ (s_ab <= s_a)%Q ∧ (s_ab <= s_b)%Q.
Proof.
  apply pair_support_at_most_item_support.
  apply reachable_batch, reachable_init.
Defined.

(** X8. In every such cache [get_confidence] returns a value between 0 and 1
    and [get_lift] a value that is not negative. *)
Theorem confidence_in_unit_interval (c : t) (a b : string) :
  reachable c →
  ∃ conf l c1 c2,
    get_confidence a b c = Ok (Finite conf, c1)
    ∧ get_lift a b c = Ok (l, c2)
    ∧ (0 <= conf <= 1)%Q ∧ float_le (Finite 0) l = true.
Proof.
  intros Hc. pose proof (Invariants.reachable_bounded c Hc) as Hb.
  rewrite Queries.get_confidence_eq, Queries.get_lift_eq
    by by apply Invariants.bounded_finite.
  destruct (confidence_val_range c a b Hb) as (q & Hq & Hr).
  rewrite Hq. eexists q, _, _, _. split; [done|]. split; [done|].
  split; [done|]. by apply lift_val_nonneg.
Qed.

Lemma confidence_in_unit_interval_witness :
  ∃ conf l c1 c2,
    get_confidence "C" "A" cache_AB_ABC = Ok (Finite conf, c1)
    ∧ get_lift "C" "A" cache_AB_ABC = Ok (l, c2)
    ∧ (0 <= conf <= 1)%Q ∧ float_le (Finite 0) l = true.
Proof.
  apply confidence_in_unit_interval.
  apply reachable_batch, reachable_init.
Defined.

(** X9. The support of a pair does not depend on the order in which the two
    products are given: the two calls return the same value and leave the
    same cache. *)
Theorem support_symmetric (c : t) (a b : string) :
  get_support [a; b] c = get_support [b; a] c.
Proof. unfold get_support. by rewrite (sorted_pair_comm a b). Qed.

End MetricRange.

(** * The batch analyzer: range of the support, agreement with the cache *)

Module AnalyzerFacts.
Import AnalyzerSpec BatchCounts Sample.

Lemma str_lt_total (a b : string) : a ≠ b → str_lt a b ∨ str_lt b a.
Proof.
  intros Hne. destruct (total str_le a b); [left|right]; split; congruence.
Qed.

Lemma count_baskets_antitone (s1 s2 : gset string)
    (baskets : list (gset string)) :
  s1 ⊆ s2 →
  MarketBasketAnalyzer.count_baskets s2 baskets
    ≤ MarketBasketAnalyzer.count_baskets s1 baskets.
Proof.
  intros Hsub. induction baskets as [|b bs IH].
  { done. }
  rewrite !count_baskets_cons.
  destruct (decide (s2 ⊆ b)), (decide (s1 ⊆ b)); try lia.
  set_solver.
Qed.

(** X11. Once the baskets are built, the support of any itemset lies between 0
    and 1, and an itemset that contains another has at most its support. *)
Theorem calculate_support_range (df : list LineItem)
    (self : MarketBasketAnalyzer.t) (small large : list string) :
  (∀ x, x ∈ small → x ∈ large) →
  ∃ s_small s_large,
    MarketBasketAnalyzer.calculate_support small (built df self)
      = Ok (Finite s_small)
    ∧ MarketBasketAnalyzer.calculate_support large (built df self)
      = Ok (Finite s_large)
    ∧ (0 <= s_large)%Q ∧ (s_large <= s_small)%Q ∧ (s_small <= 1)%Q.
Proof.
  intros Hsub.
  rewrite !Analyzer.calculate_support_eq by apply Analyzer.built_finite.
  destruct (Analyzer.support_of_unit (built df self) small eq_refl)
    as (s_small & Hs & _ & Hs1).
  destruct (Analyzer.support_of_unit (built df self) large eq_refl)
    as (s_large & Hl & Hl0 & _).
  assert (Hle : float_le (support_of (built df self) large)
                  (support_of (built df self) small) = true).
  { unfold support_of. case_decide as Ht; [done|].
    apply Rounding.ratio_mono.
    - apply count_baskets_antitone. intros x.
      rewrite !elem_of_list_to_set. apply Hsub.
    - change (MarketBasketAnalyzer.total_transactions (built df self))
        with (Z.of_nat (length (MarketBasketAnalyzer.transaction_baskets
                                  (built df self)))) in *. lia. }
  rewrite Hs, Hl in Hle |- *. apply FloatFacts.float_le_Finite in Hle.
  by exists s_small, s_large.
Qed.

Lemma calculate_support_range_witness :
  ∃ s_small s_large,
    MarketBasketAnalyzer.calculate_support ["A"]
      (built lines_AB_ABC (MarketBasketAnalyzer.init 0 0))
      = Ok (Finite s_small)
    ∧ MarketBasketAnalyzer.calculate_support ["A"; "B"; "C"]
        (built lines_AB_ABC (MarketBasketAnalyzer.init 0 0))
      = Ok (Finite s_large)
    ∧ (0 <= s_large)%Q ∧ (s_large <= s_small)%Q ∧ (s_small <= 1)%Q.
Proof.
  apply calculate_support_range. intros x. rewrite !elem_of_cons. tauto.
Defined.

(** X12. On the baskets of one table of line items, the cache and the analyzer
    return the same support for a product and, for two products that
    differ, the same pair support, confidence and lift. *)
Theorem metrics_agree (df : list LineItem) (self : MarketBasketAnalyzer.t)
    (a b : string) :
  a ≠ b →
  CacheSpec.value_of
    (AffinityCache.get_support [a]
       (AffinityCache.update_with_batch (baskets_of_line_items df)
          AffinityCache.init))
  = MarketBasketAnalyzer.calculate_support [a] (built df self)
  ∧ CacheSpec.value_of
      (AffinityCache.get_support [a; b]
         (AffinityCache.update_with_batch (baskets_of_line_items df)
            AffinityCache.init))
    = MarketBasketAnalyzer.calculate_support [a; b] (built df self)
  ∧ CacheSpec.value_of
      (AffinityCache.get_confidence a b
         (AffinityCache.update_with_batch (baskets_of_line_items df)
            AffinityCache.init))
    = MarketBasketAnalyzer.calculate_confidence a b (built df self)
  ∧ CacheSpec.value_of
      (AffinityCache.get_lift a b
         (AffinityCache.update_with_batch (baskets_of_line_items df)
            AffinityCache.init))
    = MarketBasketAnalyzer.calculate_lift a b (built df self).
Proof.
  intros Hne.
  set (c := AffinityCache.update_with_batch (baskets_of_line_items df)
              AffinityCache.init).
  assert (Hf : CacheSpec.finite_supports c)
    by exact (Equivalence.cache_finite (built df self) c eq_refl).
  rewrite Queries.get_support_eq, Queries.get_support_eq,
    Queries.get_confidence_eq, Queries.get_lift_eq by done.
  rewrite !Analyzer.calculate_support_eq, Analyzer.calculate_confidence_eq,
    Analyzer.calculate_lift_eq by apply Analyzer.built_finite.
  simpl CacheSpec.value_of. simpl CacheSpec.support_val.
  pose proof (Equivalence.support_item_agree (built df self) c
                eq_refl eq_refl a) as Hitem.
  assert (Hall :
    CacheSpec.support_pair c a b = support_of (built df self) [a; b]
    ∧ CacheSpec.confidence_val c a b = confidence_of (built df self) a b
    ∧ CacheSpec.lift_val c a b = lift_of (built df self) a b).
  { destruct (str_lt_total a b Hne) as [Hlt|Hlt].
    - destruct (Equivalence.support_pair_agree (built df self) c
                  eq_refl eq_refl a b Hlt) as [-> _].
      destruct (Equivalence.confidence_agree (built df self) c
                  eq_refl eq_refl a b Hlt) as [-> _].
      by destruct (Equivalence.lift_agree (built df self) c
                     eq_refl eq_refl a b Hlt) as [-> _].
    - destruct (Equivalence.support_pair_agree (built df self) c
                  eq_refl eq_refl b a Hlt) as [_ ->].
      destruct (Equivalence.confidence_agree (built df self) c
                  eq_refl eq_refl b a Hlt) as [_ ->].
      by destruct (Equivalence.lift_agree (built df self) c
                     eq_refl eq_refl b a Hlt) as [_ ->]. }
  destruct Hall as (-> & -> & ->). by rewrite Hitem.
Qed.

Lemma metrics_agree_witness :
  CacheSpec.value_of
    (AffinityCache.get_support ["C"]
       (AffinityCache.update_with_batch (baskets_of_line_items lines_AB_ABC)
          AffinityCache.init))
  = MarketBasketAnalyzer.calculate_support ["C"]
      (built lines_AB_ABC (MarketBasketAnalyzer.init 0 0))
  ∧ CacheSpec.value_of
      (AffinityCache.get_support ["C"; "A"]
         (AffinityCache.update_with_batch
            (baskets_of_line_items lines_AB_ABC) AffinityCache.init))
    = MarketBasketAnalyzer.calculate_support ["C"; "A"]
        (built lines_AB_ABC (MarketBasketAnalyzer.init 0 0))
  ∧ CacheSpec.value_of
      (AffinityCache.get_confidence "C" "A"
         (AffinityCache.update_with_batch
            (baskets_of_line_items lines_AB_ABC) AffinityCache.init))
    = MarketBasketAnalyzer.calculate_confidence "C" "A"
        (built lines_AB_ABC (MarketBasketAnalyzer.init 0 0))
  ∧ CacheSpec.value_of
      (AffinityCache.get_lift "C" "A"
         (AffinityCache.update_with_batch
            (baskets_of_line_items lines_AB_ABC) AffinityCache.init))
    = MarketBasketAnalyzer.calculate_lift "C" "A"
        (built lines_AB_ABC (MarketBasketAnalyzer.init 0 0)).
Proof.
  apply (metrics_agree lines_AB_ABC (MarketBasketAnalyzer.init 0 0) "C" "A").
  discriminate.
Defined.

(** For a pair made of one product twice the two disagree: the cache never
    records the key [(A, A)] and answers 0, the analyzer answers the
    support of [A]. *)
Example same_product_pair_differs :
  CacheSpec.value_of
    (AffinityCache.get_support ["A"; "A"]
       (AffinityCache.update_with_batch (baskets_of_line_items lines_AB_ABC)
          AffinityCache.init)) = Ok (Finite 0)
  ∧ MarketBasketAnalyzer.calculate_support ["A"; "A"]
      (built lines_AB_ABC (MarketBasketAnalyzer.init 0 0)) = Ok (Finite 1).
Proof. split; by vm_compute. Qed.

End AnalyzerFacts.

(** * The updater: how its ingestions compose *)

Module UpdaterFacts.
Import IncrementalAffinityUpdater Sample Sample2.

Lemma group_basket_app_l (l1 l2 : list LineItem) (t : string) :
  t ∉ transaction_id <$> l2 →
  group_basket (l1 ++ l2) t = group_basket l1 t.
Proof.
  intros Ht. apply set_eq. intros x.
  rewrite !BasketBuilder.elem_of_group_basket, elem_of_app.
  split; [|by left]. intros [H|H]; [done|].
  destruct Ht. apply list_elem_of_fmap. by exists (mkLineItem t x).
Qed.

Lemma group_basket_app_r (l1 l2 : list LineItem) (t : string) :
  t ∉ transaction_id <$> l1 →
  group_basket (l1 ++ l2) t = group_basket l2 t.
Proof.
  intros Ht. apply set_eq. intros x.
  rewrite !BasketBuilder.elem_of_group_basket, elem_of_app.
  split; [|by right]. intros [H|H]; [|done].
  destruct Ht. apply list_elem_of_fmap. by exists (mkLineItem t x).
Qed.

Lemma baskets_of_line_items_app (l1 l2 : list LineItem) :
  (∀ t, t ∈ transaction_id <$> l1 → t ∉ transaction_id <$> l2) →
  baskets_of_line_items (l1 ++ l2)
  ≡ₚ baskets_of_line_items l1 ++ baskets_of_line_items l2.
Proof.
  intros Hdisj. unfold baskets_of_line_items.
  assert (Hkeys : group_keys (l1 ++ l2) ≡ₚ group_keys l1 ++ group_keys l2).
  { apply NoDup_Permutation.
    - apply BasketBuilder.NoDup_group_keys.
    - apply NoDup_app. split_and!; [apply BasketBuilder.NoDup_group_keys|
        |apply BasketBuilder.NoDup_group_keys].
      intros t. rewrite !BasketBuilder.elem_of_group_keys. apply Hdisj.
    - intros t. rewrite elem_of_app, !BasketBuilder.elem_of_group_keys.
      by rewrite fmap_app, elem_of_app. }
  rewrite Hkeys, fmap_app. f_equiv.
  - assert (Heq : group_basket (l1 ++ l2) <$> group_keys l1
                  = group_basket l1 <$> group_keys l1); [|by rewrite Heq].
    apply list_fmap_ext. intros i t Ht%list_elem_of_lookup_2.
    apply group_basket_app_l, Hdisj. by apply BasketBuilder.elem_of_group_keys.
  - assert (Heq : group_basket (l1 ++ l2) <$> group_keys l2
                  = group_basket l2 <$> group_keys l2); [|by rewrite Heq].
    apply list_fmap_ext. intros i t Ht%list_elem_of_lookup_2.
    apply group_basket_app_r. intros Ht1.
    apply (Hdisj t Ht1). by apply BasketBuilder.elem_of_group_keys.
Qed.

(** X13. Two batches of line items that share no transaction id, processed one
    after the other, leave the updater as one call on the two tables put
    together does, whatever the cache held before; initializing from the
    joined table is the same call. *)
Theorem process_new_batch_app (l1 l2 : list LineItem) (self : t) :
  (∀ tid, tid ∈ transaction_id <$> l1 → tid ∉ transaction_id <$> l2) →
  process_new_batch l2 (process_new_batch l1 self)
    = process_new_batch (l1 ++ l2) self
  ∧ process_new_batch l2 (initialize_from_line_items l1 self)
    = initialize_from_line_items (l1 ++ l2) self.
Proof.
  intros Hdisj.
  assert (H : process_new_batch l2 (process_new_batch l1 self)
              = process_new_batch (l1 ++ l2) self).
  { unfold process_new_batch, set_cache. simpl. f_equal.
    rewrite <- Ingest.update_with_batch_app.
    apply Ingest.update_with_batch_Permutation.
    symmetry. by apply baskets_of_line_items_app. }
  split; [exact H|exact H].
Qed.

Lemma process_new_batch_app_witness :
  process_new_batch lines_T2 (process_new_batch lines_T1 (init 0 0))
    = process_new_batch (lines_T1 ++ lines_T2) (init 0 0)
  ∧ process_new_batch lines_T2 (initialize_from_line_items lines_T1 (init 0 0))
    = initialize_from_line_items (lines_T1 ++ lines_T2) (init 0 0).
Proof.
  apply process_new_batch_app. intros tid.
  unfold lines_T1, lines_T2. simpl fmap.
  rewrite !elem_of_cons, !elem_of_nil.
  intros [->|[->|[]]] [H|[H|[]]]; discriminate H.
Defined.

(** A transaction whose rows arrive in two batches is counted twice. *)
Example split_transaction_counted_twice :
  AffinityCache.total_transactions
    (cache (process_new_batch [mkLineItem "T1" "B"]
              (process_new_batch [mkLineItem "T1" "A"] (init 0 0)))) = 2
  ∧ AffinityCache.total_transactions
      (cache (process_new_batch lines_T1 (init 0 0))) = 1.
Proof. split; by vm_compute. Qed.

Lemma NoDup_all_equal (l : list string) (t : string) :
  NoDup l → (∀ x, x ∈ l → x = t) → l ≠ [] → l = [t].
Proof.
  intros Hnd Hall Hne. destruct l as [|x [|y l]]; [done| |].
  - by rewrite (Hall x) by left.
  - apply NoDup_cons in Hnd as [Hx _]. destruct Hx.
    rewrite (Hall x) by left. rewrite <- (Hall y) by (right; left). left.
Qed.

(** X14. For the rows of one transaction, at least one, [process_new_transaction]
    and [process_new_batch] do the same. *)
Theorem process_new_transaction_as_batch (line_items : list LineItem)
    (tid : string) (self : t) :
  line_items ≠ [] →
  (∀ r, r ∈ line_items → transaction_id r = tid) →
  process_new_transaction line_items self
    = process_new_batch line_items self.
Proof.
  intros Hne Hall.
  assert (Hkeys : group_keys line_items = [tid]).
  { apply NoDup_all_equal; [apply BasketBuilder.NoDup_group_keys| |].
    - intros x (r & -> & Hr)%BasketBuilder.elem_of_group_keys%list_elem_of_fmap.
      by apply Hall.
    - destruct line_items as [|r l]; [done|].
      intros Hnil.
      assert (Hin : transaction_id r ∈ group_keys (r :: l)).
      { apply BasketBuilder.elem_of_group_keys. simpl. left. }
      rewrite Hnil in Hin. by apply elem_of_nil in Hin. }
  assert (Hbasket : group_basket line_items tid
                    = list_to_set (product_id <$> line_items)).
  { apply set_eq. intros x.
    rewrite BasketBuilder.elem_of_group_basket, elem_of_list_to_set,
      list_elem_of_fmap. split.
    - intros Hr. by exists (mkLineItem tid x).
    - intros ([t' x'] & -> & Hr). simpl.
      by rewrite <- (Hall _ Hr). }
  unfold process_new_transaction, process_new_batch, baskets_of_line_items.
  by rewrite Hkeys, fmap_cons, Hbasket.
Qed.

Lemma process_new_transaction_as_batch_witness :
  process_new_transaction lines_ABC (init 0 0)
    = process_new_batch lines_ABC (init 0 0).
Proof.
  apply (process_new_transaction_as_batch lines_ABC "T1").
  - discriminate.
  - intros r. unfold lines_ABC. rewrite !elem_of_cons, elem_of_nil.
    intros [->|[->|[->|[]]]]; reflexivity.
Defined.

(** Given no row, [process_new_transaction] still counts a transaction and
    [process_new_batch] does nothing. *)
Example empty_table_difference :
  AffinityCache.total_transactions
    (cache (process_new_transaction [] (init 0 0))) = 1
  ∧ process_new_batch [] (init 0 0) = init 0 0.
Proof. split; by vm_compute. Qed.

End UpdaterFacts.

(** * The statistics of the cache *)

Module StatisticsFacts.
Import AffinityCache CacheSpec Sample.

Lemma most_frequent_fold {K} (es : list (K * Z)) (e : K * Z) :
  let best := foldl (fun best x => if snd best <? snd x then x else best)
                    e es in
  best ∈ e :: es ∧ ∀ x, x ∈ e :: es → snd x ≤ snd best.
Proof.
  revert e. induction es as [|y es IH]; intros e; simpl.
  { split; [by left|]. intros x [->|H%elem_of_nil]%elem_of_cons; [lia|done]. }
  destruct (Z.ltb_spec (snd e) (snd y)) as [Hlt|Hge].
  - destruct (IH y) as [Hin Hmax]. split; [by right|].
    intros x [->|Hx]%elem_of_cons.
    + specialize (Hmax y (ltac:(left))). lia.
    + by apply Hmax.
  - destruct (IH e) as [Hin Hmax]. split.
    + apply elem_of_cons in Hin as [->|Hin]; [by left|by right; right].
    + intros x [->|[->|Hx]%elem_of_cons]%elem_of_cons.
      * apply Hmax. by left.
      * specialize (Hmax e (ltac:(left))). lia.
      * apply Hmax. by right.
Qed.

Lemma most_frequent_spec {K} (entries : list (K * Z)) :
  (most_frequent entries = None ↔ entries = [])
  ∧ ∀ k, most_frequent entries = Some k →
         ∃ v, (k, v) ∈ entries ∧ ∀ k' v', (k', v') ∈ entries → v' ≤ v.
Proof.
  destruct entries as [|e es]; simpl.
  { split; [done|]. intros k [=]. }
  split; [split; intros [=]|].
  intros k [= <-].
  destruct (most_frequent_fold es e) as [Hin Hmax].
  set (best := foldl _ e es) in *. exists (snd best). split.
  - by destruct best.
  - intros k' v' H. by apply (Hmax (k', v')).
Qed.

(** X15. [get_statistics] never raises and leaves the cache as it is; the most
    frequent item it reports is absent exactly when [item_counts] is empty
    and otherwise is a key of [item_counts] whose count no other key
    exceeds, and the same holds for the most frequent pair; in a cache
    built by ingestion alone [unique_products] is the number of keys of
    [item_counts]. *)
Theorem get_statistics_spec (c : t) :
  ∃ st,
    get_statistics c = Ok (st, c)
    ∧ stat_total_transactions st = total_transactions c
    ∧ unique_products st = size (all_products c)
    ∧ unique_pairs st = size (pair_counts c)
    ∧ (most_frequent_item st = None ↔ item_counts c = ∅)
    ∧ (∀ x, most_frequent_item st = Some x →
            ∃ n, item_counts c !! x = Some n
                 ∧ ∀ y m, item_counts c !! y = Some m → m ≤ n)
    ∧ (most_frequent_pair st = None ↔ pair_counts c = ∅)
    ∧ (∀ p, most_frequent_pair st = Some p →
            ∃ n, pair_counts c !! p = Some n
                 ∧ ∀ q m, pair_counts c !! q = Some m → m ≤ n)
    ∧ (ingested c → unique_products st = size (item_counts c)).
Proof.
  eexists. split; [done|]. simpl.
  destruct (most_frequent_spec (map_to_list (item_counts c))) as [Hin Him].
  destruct (most_frequent_spec (map_to_list (pair_counts c))) as [Hpn Hpm].
  split_and!; try done.
  - by rewrite Hin, map_to_list_empty_iff.
  - intros x (n & Hx & Hmax)%Him. exists n. split.
    + by apply elem_of_map_to_list.
    + intros y m Hy. apply (Hmax y). by apply elem_of_map_to_list.
  - by rewrite Hpn, map_to_list_empty_iff.
  - intros p (n & Hp & Hmax)%Hpm. exists n. split.
    + by apply elem_of_map_to_list.
    + intros q m Hq. apply (Hmax q). by apply elem_of_map_to_list.
  - intros Hc.
    by rewrite <- (CounterFacts.ingested_dom_item_counts c Hc), size_dom.
Qed.

Lemma get_statistics_spec_witness :
  ingested cache_AB_ABC
  ∧ ∃ st, get_statistics cache_AB_ABC = Ok (st, cache_AB_ABC)
          ∧ unique_products st = size (item_counts cache_AB_ABC).
Proof.
  assert (Hc : ingested cache_AB_ABC) by apply ingested_batch, ingested_init.
  split; [exact Hc|].
  destruct (get_statistics_spec cache_AB_ABC)
    as (st & Heq & _ & _ & _ & _ & _ & _ & _ & Hu).
  exists st. split; [exact Heq|exact (Hu Hc)].
Defined.

End StatisticsFacts.

(** * Rankings: [nlargest] and the functions built on it *)

Module RankingFacts.
Import Ranking Sample Sample2.

(** The order of a ranking is total and transitive. *)
Lemma rank_le_total (x y : float) : rank_le x y = false → rank_le y x = true.
Proof.
  destruct x as [p|[]|], y as [q|[]|]; try done.
  unfold rank_le, float_le. simpl. rewrite <- (Qcompare_antisym p q).
  by destruct (p ?= q)%Q.
Qed.

Lemma rank_le_trans (x y z : float) :
  rank_le x y = true → rank_le y z = true → rank_le x z = true.
Proof.
  destruct x as [p|[]|], y as [q|[]|], z as [r|[]|]; try done.
  unfold rank_le. apply FloatFacts.float_le_trans.
Qed.

Lemma insert_desc_Permutation (key : Rule → float) (x : Rule) (l : list Rule) :
  insert_desc key x l ≡ₚ x :: l.
Proof.
  induction l as [|y l IH]; simpl; [done|].
  destruct (rank_le (key y) (key x)); [done|].
  rewrite IH. apply perm_swap.
Qed.

Lemma sort_desc_Permutation (key : Rule → float) (l : list Rule) :
  sort_desc key l ≡ₚ l.
Proof.
  induction l as [|x l IH]; simpl; [done|].
  by rewrite insert_desc_Permutation, IH.
Qed.

Lemma insert_desc_sorted (key : Rule → float) (x : Rule) (l : list Rule) :
  StronglySorted (desc key) l → StronglySorted (desc key) (insert_desc key x l).
Proof.
  induction l as [|y l IH]; simpl; intros Hl.
  { repeat constructor. }
  apply StronglySorted_cons in Hl as [Hy Hl].
  destruct (rank_le (key y) (key x)) eqn:Hle.
  - apply StronglySorted_cons. split.
    + constructor; [done|].
      eapply Forall_impl; [exact Hy|]. intros z Hz. unfold desc in *.
      by eapply rank_le_trans.
    + by apply StronglySorted_cons.
  - apply StronglySorted_cons. split; [|by apply IH].
    rewrite insert_desc_Permutation. constructor; [|done].
    unfold desc. by apply rank_le_total.
Qed.

Lemma sort_desc_sorted (key : Rule → float) (l : list Rule) :
  StronglySorted (desc key) (sort_desc key l).
Proof.
  induction l as [|x l IH]; simpl; [constructor|].
  by apply insert_desc_sorted.
Qed.

(** The sort is stable: a table in descending order is left as it is. *)
Lemma sort_desc_id (key : Rule → float) (l : list Rule) :
  StronglySorted (desc key) l → sort_desc key l = l.
Proof.
  induction l as [|x l IH]; simpl; intros Hl; [done|].
  apply StronglySorted_cons in Hl as [Hx Hl]. rewrite (IH Hl).
  destruct l as [|y l]; simpl; [done|].
  apply Forall_cons in Hx as [Hy _]. unfold desc in Hy.
  by rewrite Hy.
Qed.

Lemma take_sorted (key : Rule → float) (n : nat) (l : list Rule) :
  StronglySorted (desc key) l → StronglySorted (desc key) (take n l).
Proof.
  intros Hl. rewrite <- (take_drop n l) in Hl.
  by apply StronglySorted_app_1_l in Hl.
Qed.

(** What [nlargest] returns for a numeric column of the frame. *)
Lemma nlargest_spec (n : Z) (column : string) (key : Rule → float)
    (df : DataFrame) :
  column ∈ columns df → numeric_column column = Some key →
  ∃ out rest,
    nlargest n column df = Return out
    ∧ columns out = columns df
    ∧ rows out = take (Z.to_nat n) (sort_desc key (rows df))
    ∧ length (rows out) = Nat.min (Z.to_nat n) (length (rows df))
    ∧ StronglySorted (desc key) (rows out)
    ∧ rows out ++ rest ≡ₚ rows df
    ∧ ∀ r r', r ∈ rows out → r' ∈ rest → rank_le (key r') (key r) = true.
Proof.
  intros Hcol Hkey. unfold nlargest. rewrite decide_True by done.
  rewrite Hkey.
  exists (mkDataFrame (columns df)
            (take (Z.to_nat n) (sort_desc key (rows df)))),
         (drop (Z.to_nat n) (sort_desc key (rows df))).
  simpl. split_and!; try done.
  - by rewrite length_take, sort_desc_Permutation.
  - apply take_sorted, sort_desc_sorted.
  - by rewrite take_drop, sort_desc_Permutation.
  - intros r r' Hr Hr'.
    pose proof (sort_desc_sorted key (rows df)) as Hs.
    rewrite <- (take_drop (Z.to_nat n)) in Hs.
    apply (StronglySorted_app_1_elem_of _ _ _ r r' Hs Hr Hr').
Qed.

(** X18. [find_top_affinities] by a numeric column of the table returns a table
    with the same columns whose rows are [top_n] of the rows (all of them
    when there are fewer, none when [top_n] is not positive), in descending
    order of the metric, and no row left out has a larger metric than a row
    kept.  A row whose metric is a NaN ranks below every other row. *)
Theorem find_top_affinities_spec (results_df : DataFrame) (top_n : Z)
    (metric : string) (key : Rule → float) :
  metric ∈ columns results_df → numeric_column metric = Some key →
  ∃ out rest,
    find_top_affinities results_df top_n metric = Return out
    ∧ columns out = columns results_df
    ∧ length (rows out)
      = Nat.min (Z.to_nat top_n) (length (rows results_df))
    ∧ StronglySorted (desc key) (rows out)
    ∧ rows out ++ rest ≡ₚ rows results_df
    ∧ ∀ r r', r ∈ rows out → r' ∈ rest → rank_le (key r') (key r) = true.
Proof.
  intros Hcol Hkey.
  destruct (nlargest_spec top_n metric key results_df Hcol Hkey)
    as (out & rest & Heq & Hc & _ & Hlen & Hs & Hp & Hd).
  by exists out, rest.
Qed.

Lemma find_top_affinities_spec_witness :
  ∃ out rest,
    find_top_affinities three_rules 2 "lift" = Return out
    ∧ columns out = columns three_rules
    ∧ length (rows out) = Nat.min (Z.to_nat 2) (length (rows three_rules))
    ∧ StronglySorted (desc lift) (rows out)
    ∧ rows out ++ rest ≡ₚ rows three_rules
    ∧ ∀ r r', r ∈ rows out → r' ∈ rest → rank_le (lift r') (lift r) = true.
Proof.
  apply find_top_affinities_spec; [|reflexivity].
  unfold three_rules, rule_columns. simpl. rewrite !elem_of_cons. tauto.
Defined.

(** The scenario of the specification: lifts 3, 3/2 and 2, the top two. *)
Example top_two_of_three :
  ∃ out, find_top_affinities three_rules 2 "lift" = Return out
         ∧ (lift <$> rows out) = [Finite 3; Finite 2].
Proof. eexists. split; by vm_compute. Qed.

(** X19. Ranking twice is ranking once with the smaller [top_n], and a table that
    is already in descending order of the metric keeps its first [top_n]
    rows, ties in place. *)
Theorem find_top_affinities_twice (results_df : DataFrame) (n m : Z)
    (metric : string) (key : Rule → float) :
  metric ∈ columns results_df → numeric_column metric = Some key →
  ∃ out,
    find_top_affinities results_df m metric = Return out
    ∧ find_top_affinities out n metric
      = find_top_affinities results_df (Z.min n m) metric
    ∧ (StronglySorted (desc key) (rows results_df) →
       rows out = take (Z.to_nat m) (rows results_df)).
Proof.
  intros Hcol Hkey. unfold find_top_affinities, nlargest.
  rewrite decide_True by done. rewrite Hkey. eexists. split; [done|].
  simpl. rewrite !decide_True by done. split.
  - rewrite sort_desc_id by apply take_sorted, sort_desc_sorted.
    by rewrite take_take, Z2Nat.inj_min.
  - intros Hs. by rewrite sort_desc_id.
Qed.

Lemma find_top_affinities_twice_witness :
  ∃ out,
    find_top_affinities three_rules 2 "lift" = Return out
    ∧ find_top_affinities out 5 "lift"
      = find_top_affinities three_rules (Z.min 5 2) "lift"
    ∧ (StronglySorted (desc lift) (rows three_rules) →
       rows out = take (Z.to_nat 2) (rows three_rules)).
Proof.
  apply find_top_affinities_twice; [|reflexivity].
  unfold three_rules, rule_columns. simpl. rewrite !elem_of_cons. tauto.
Defined.

(** X20. [get_recommendations] on a rule table returns only rules whose
    antecedent is the product, at most [top_n] of them, in descending order
    of lift, and no rule of the product left out has a larger lift than one
    returned; when no rule has the product as antecedent the result has no
    row and nothing is raised. *)
Theorem get_recommendations_spec (results_df : DataFrame)
    (product_id : string) (top_n : Z) :
  "product_a" ∈ columns results_df → "lift" ∈ columns results_df →
  ∃ out rest,
    get_recommendations results_df product_id top_n = Return out
    ∧ (∀ r, r ∈ rows out → product_a r = product_id ∧ r ∈ rows results_df)
    ∧ length (rows out)
      = Nat.min (Z.to_nat top_n)
          (length (filter (fun r => product_a r = product_id)
                     (rows results_df)))
    ∧ StronglySorted (desc lift) (rows out)
    ∧ rows out ++ rest
      ≡ₚ filter (fun r => product_a r = product_id) (rows results_df)
    ∧ ∀ r r', r ∈ rows out → r' ∈ rest → rank_le (lift r') (lift r) = true.
Proof.
  intros Ha Hl. unfold get_recommendations. rewrite decide_True by done.
  destruct (nlargest_spec top_n "lift" lift
              (mkDataFrame (columns results_df)
                 (filter (fun r => product_a r = product_id)
                    (rows results_df))) Hl eq_refl)
    as (out & rest & Heq & _ & _ & Hlen & Hs & Hp & Hd).
  exists out, rest. split_and!; try done.
  intros r Hr.
  assert (Hin : r ∈ rows out ++ rest) by (apply elem_of_app; by left).
  rewrite Hp in Hin. simpl in Hin.
  by apply list_elem_of_filter in Hin.
Qed.

Lemma get_recommendations_spec_witness :
  ∃ out rest,
    get_recommendations three_rules "A" 1 = Return out
    ∧ (∀ r, r ∈ rows out → product_a r = "A" ∧ r ∈ rows three_rules)
    ∧ length (rows out)
      = Nat.min (Z.to_nat 1)
          (length (filter (fun r => product_a r = "A") (rows three_rules)))
    ∧ StronglySorted (desc lift) (rows out)
    ∧ rows out ++ rest
      ≡ₚ filter (fun r => product_a r = "A") (rows three_rules)
    ∧ ∀ r r', r ∈ rows out → r' ∈ rest → rank_le (lift r') (lift r) = true.
Proof.
  apply get_recommendations_spec;
    unfold three_rules, rule_columns; simpl; rewrite !elem_of_cons; tauto.
Defined.

(** X21. The frame that [analyze] returns when no rule passes has no column, so
    ranking it raises [KeyError]: [find_top_affinities] on the metric,
    [get_recommendations] on [product_a]; through
    [perform_market_basket_analysis] as well. *)
Theorem ranking_without_rules (line_items_df : list LineItem)
    (min_support min_confidence : Q) (top_n : Z) (metric product_id : string) :
  filter (AnalyzerSpec.passes
            (AnalyzerSpec.built line_items_df
               (MarketBasketAnalyzer.init min_support min_confidence)))
    (MarketBasketAnalyzer.generate_product_pairs
       (AnalyzerSpec.built line_items_df
          (MarketBasketAnalyzer.init min_support min_confidence))) = [] →
  ∃ df self,
    perform_market_basket_analysis line_items_df None min_support
      min_confidence = Ok (df, self)
    ∧ find_top_affinities df top_n metric = Fail (Exn (KeyError metric))
    ∧ get_recommendations df product_id top_n
      = Fail (Exn (KeyError "product_a")).
Proof.
  intros Hnil. unfold perform_market_basket_analysis.
  rewrite Analyzer.analyze_None_eq, Hnil. eexists _, _. split; [done|].
  split; [|done].
  unfold find_top_affinities, nlargest.
  change (columns (DataFrame_of_records [])) with (@nil string).
  destruct (decide (metric ∈ [])) as [H%elem_of_nil|]; done.
Qed.

Lemma ranking_without_rules_witness :
  ∃ df self,
    perform_market_basket_analysis lines_A_B None (1 # 100) (1 # 10)
      = Ok (df, self)
    ∧ find_top_affinities df 10 "lift" = Fail (Exn (KeyError "lift"))
    ∧ get_recommendations df "A" 10 = Fail (Exn (KeyError "product_a")).
Proof.
  apply ranking_without_rules. by vm_compute.
Defined.

(** X22. [get_top_affinities] of an updater whose cache the public methods have
    built never raises: without a rule it returns the frame without
    columns, otherwise the rules query ranked by lift. *)
Theorem get_top_affinities_returns (top_n : Z)
    (self : IncrementalAffinityUpdater.t) :
  CacheSpec.reachable (IncrementalAffinityUpdater.cache self) →
  ∃ affinities self',
    IncrementalAffinityUpdater.get_current_affinities self
      = Ok (affinities, self')
    ∧ ((rows affinities = []
        ∧ get_top_affinities top_n self = Return (mkDataFrame [] [], self'))
       ∨ (rows affinities ≠ []
          ∧ ∃ out, nlargest top_n "lift" affinities = Return out
                   ∧ get_top_affinities top_n self = Return (out, self'))).
Proof.
  intros Hc.
  pose proof (Invariants.reachable_well_formed _ Hc) as Hwf.
  pose proof (Invariants.reachable_finite _ Hc) as Hf.
  destruct (Queries.get_updated_affinities_eq
              (IncrementalAffinityUpdater.min_support self)
              (IncrementalAffinityUpdater.min_confidence self) _ Hf Hwf)
    as (c' & Heq & _).
  unfold get_top_affinities,
    IncrementalAffinityUpdater.get_current_affinities.
  rewrite Heq. eexists _, _. split; [done|].
  rewrite rows_DataFrame_of_records.
  destruct (flat_map _ _) as [|r rs] eqn:Hrows.
  - left. done.
  - right. split; [done|]. simpl. eexists. split; done.
Qed.

Lemma get_top_affinities_returns_witness :
  ∃ affinities self',
    IncrementalAffinityUpdater.get_current_affinities
      (IncrementalAffinityUpdater.initialize_from_line_items lines_AB_ABC
         (IncrementalAffinityUpdater.init (1 # 100) (1 # 10)))
      = Ok (affinities, self')
    ∧ ((rows affinities = []
        ∧ get_top_affinities 5
            (IncrementalAffinityUpdater.initialize_from_line_items
               lines_AB_ABC
               (IncrementalAffinityUpdater.init (1 # 100) (1 # 10)))
          = Return (mkDataFrame [] [], self'))
       ∨ (rows affinities ≠ []
          ∧ ∃ out, nlargest 5 "lift" affinities = Return out
                   ∧ get_top_affinities 5
                       (IncrementalAffinityUpdater.initialize_from_line_items
                          lines_AB_ABC
                          (IncrementalAffinityUpdater.init (1 # 100) (1 # 10)))
                     = Return (out, self'))).
Proof.
  apply get_top_affinities_returns.
  apply (CacheSpec.reachable_batch (baskets_of_line_items lines_AB_ABC)),
    CacheSpec.reachable_init.
Defined.

End RankingFacts.

(** * Ingestion into any cache, read-only queries, the rule table *)

Module CacheMore.
Import AffinityCache CacheSpec Ingest BatchCounts Sample.

(** X5. A batch adds to any cache exactly what its baskets hold: the number of
    baskets to [total_transactions], to the count of a product the number
    of baskets with the product, to the count under a strictly sorted pair
    the number of baskets with both products and nothing under any other
    key, and the products to [all_products]; no key is removed. *)
Theorem update_with_batch_accumulates (baskets : list (gset string))
    (c : t) :
  total_transactions (update_with_batch baskets c)
    = total_transactions c + Z.of_nat (length baskets)
  ∧ (∀ x, count_of (item_counts (update_with_batch baskets c)) x
          = count_of (item_counts c) x
            + MarketBasketAnalyzer.count_baskets {[x]} baskets)
  ∧ (∀ a b, count_of (pair_counts (update_with_batch baskets c)) (a, b)
            = count_of (pair_counts c) (a, b)
              + (if decide (str_lt a b)
                 then MarketBasketAnalyzer.count_baskets {[a; b]} baskets
                 else 0))
  ∧ (∀ x, x ∈ all_products (update_with_batch baskets c) ↔
          x ∈ all_products c ∨ ∃ basket, basket ∈ baskets ∧ x ∈ basket)
  ∧ dom (item_counts c) ⊆ dom (item_counts (update_with_batch baskets c))
  ∧ dom (pair_counts c) ⊆ dom (pair_counts (update_with_batch baskets c)).
Proof.
  split_and!.
  - apply total_update_with_batch.
  - intros x. apply count_item_batch.
  - intros a b. destruct (decide (str_lt a b)) as [Hlt|Hlt].
    + by apply count_pair_batch.
    + rewrite CounterFacts.count_pair_batch_other by done. lia.
  - intros x. apply CounterFacts.all_products_batch.
  - intros x. rewrite !elem_of_dom, CounterFacts.is_Some_item_batch.
    by left.
  - intros p. rewrite !elem_of_dom, is_Some_pair_batch. by left.
Qed.

(** Reading a key that is there writes nothing. *)
Lemma after_support_item_present (c : t) (x : string) :
  is_Some (item_counts c !! x) → after_support [x] c = c.
Proof.
  intros Hx. unfold after_support, touch_item. case_decide; [done|].
  rewrite dd_getitem_present by done. by destruct c.
Qed.

Lemma after_support_pair_present (c : t) (a b : string) :
  is_Some (pair_counts c !! sorted_pair a b) → after_support [a; b] c = c.
Proof.
  intros Hp. unfold after_support, touch_pair. case_decide; [done|].
  rewrite dd_getitem_present by done. by destruct c.
Qed.

Lemma after_confidence_present (c : t) (a b : string) :
  is_Some (item_counts c !! a) →
  is_Some (pair_counts c !! sorted_pair a b) →
  after_confidence a b c = c.
Proof.
  intros Ha Hp. unfold after_confidence.
  rewrite after_support_item_present by done.
  destruct (float_eq _ _); [done|]. by apply after_support_pair_present.
Qed.

Lemma after_lift_present (c : t) (a b : string) :
  is_Some (item_counts c !! a) → is_Some (item_counts c !! b) →
  is_Some (pair_counts c !! sorted_pair a b) →
  after_lift a b c = c.
Proof.
  intros Ha Hb Hp. unfold after_lift.
  rewrite after_confidence_present by done.
  by apply after_support_item_present.
Qed.

Lemma affinities_body_keeps (ms mc : Q) (c : t) (a b : string) (n : Z) :
  finite_supports c → total_transactions c ≠ 0 →
  pair_counts c !! (a, b) = Some n →
  is_Some (item_counts c !! a) → is_Some (item_counts c !! b) →
  sorted_pair a b = (a, b) →
  ∃ rs, affinities_body ms mc ((a, b), n) c = Ok (rs, c).
Proof.
  intros Hf Ht Hn Ha Hb Hab.
  assert (Hp : is_Some (pair_counts c !! sorted_pair a b))
    by by rewrite Hab, Hn.
  assert (Hp' : is_Some (pair_counts c !! sorted_pair b a))
    by by rewrite sorted_pair_comm.
  assert (Hfin : is_finite (ratio n (total_transactions c))).
  { destruct Hf as [_ Hk]. specialize (Hk (a, b)).
    unfold support_key, count_of in Hk.
    by rewrite decide_False, Hn in Hk by done. }
  unfold affinities_body, bind, get_total, lift_result.
  rewrite Rounding.int_truediv_ratio by done.
  destruct (float_lt _ (Finite ms)); [by eexists|].
  rewrite Queries.get_confidence_eq, after_confidence_present by done.
  rewrite Queries.get_confidence_eq, after_confidence_present by done.
  destruct (_ && _); [by eexists|].
  rewrite Queries.get_lift_eq, after_lift_present by done.
  rewrite Queries.get_lift_eq, after_lift_present by done.
  by eexists.
Qed.

Lemma affinities_loop_keeps (ms mc : Q) (c : t)
    (entries : list ((string * string) * Z)) (results : list Rule) :
  finite_supports c →
  (entries ≠ [] → total_transactions c ≠ 0) →
  (∀ a b n, ((a, b), n) ∈ entries →
     pair_counts c !! (a, b) = Some n
     ∧ is_Some (item_counts c !! a) ∧ is_Some (item_counts c !! b)
     ∧ sorted_pair a b = (a, b)) →
  ∃ rs, affinities_loop ms mc (size (pair_counts c)) entries results c
        = Ok (rs, c).
Proof.
  intros Hf. revert results. induction entries as [|[[a b] n] entries IH];
    intros results Ht Hkeys; cbn [affinities_loop];
    rewrite decide_True by done; [by eexists|].
  destruct (Hkeys a b n) as (Hn & Ha & Hb & Hp); [by left|].
  destruct (affinities_body_keeps ms mc c a b n) as [rs ->]; try done.
  { by apply Ht. }
  apply IH.
  - intros _. by apply Ht.
  - intros a' b' n' Hin. apply (Hkeys a' b' n'). by right.
Qed.

(** X16. On a cache that ingestion alone has built, the queries about what the
    cache has seen write nothing: the support of a known product, the
    support, confidence and lift of a recorded pair in either order, the
    rules query with any thresholds, and the statistics all leave the cache
    exactly as it was. *)
Theorem queries_read_only_on_seen (c : t) :
  ingested c →
  (∀ x, x ∈ all_products c → state_after (get_support [x] c) = Ok c)
  ∧ (∀ a b, is_Some (pair_counts c !! sorted_pair a b) →
       state_after (get_support [a; b] c) = Ok c
       ∧ state_after (get_confidence a b c) = Ok c
       ∧ state_after (get_lift a b c) = Ok c)
  ∧ (∀ ms mc, state_after (get_updated_affinities ms mc c) = Ok c)
  ∧ state_after (get_statistics c) = Ok c.
Proof.
  intros Hc.
  pose proof (Invariants.bounded_finite c (Invariants.ingested_bounded c Hc))
    as Hf.
  pose proof (CounterFacts.ingested_dom_item_counts c Hc) as Hdom.
  assert (Hitem : ∀ x, x ∈ all_products c → is_Some (item_counts c !! x)).
  { intros x Hx. apply elem_of_dom. by rewrite Hdom. }
  assert (Hpair : ∀ a b, is_Some (pair_counts c !! sorted_pair a b) →
            is_Some (item_counts c !! a) ∧ is_Some (item_counts c !! b)).
  { intros a b Hp. rewrite sorted_pair_spec in Hp.
    destruct (decide (str_le a b));
      apply (CounterFacts.ingested_pair_keys c _ _ Hc) in Hp
        as (_ & H1 & H2); split; by apply Hitem. }
  split_and!.
  - intros x Hx. rewrite Queries.get_support_eq by done. simpl.
    by rewrite after_support_item_present by by apply Hitem.
  - intros a b Hp. destruct (Hpair a b Hp) as [Ha Hb].
    rewrite Queries.get_support_eq, Queries.get_confidence_eq,
      Queries.get_lift_eq by done. simpl.
    rewrite after_support_pair_present, after_confidence_present,
      after_lift_present by done. done.
  - intros ms mc. unfold get_updated_affinities.
    destruct (affinities_loop_keeps ms mc c (map_to_list (pair_counts c)) [])
      as [rs ->]; [done| | |done].
    + intros Hne.
      pose proof (Invariants.counted_well_formed c
        (Invariants.ingested_counted c Hc)) as [Hwf _].
      apply Hwf. intros Hemp. apply Hne. rewrite Hemp.
      apply map_to_list_empty.
    + intros a b n Hin%elem_of_map_to_list.
      assert (Hs : is_Some (pair_counts c !! (a, b))) by by rewrite Hin.
      pose proof (CounterFacts.ingested_pair_keys c a b Hc Hs)
        as ([Hle _] & Ha & Hb).
      split_and!; [done|by apply Hitem|by apply Hitem|].
      by apply sorted_pair_sorted.
  - done.
Qed.

Lemma queries_read_only_on_seen_witness :
  (∀ x, x ∈ all_products cache_AB_ABC →
        state_after (get_support [x] cache_AB_ABC) = Ok cache_AB_ABC)
  ∧ (∀ a b, is_Some (pair_counts cache_AB_ABC !! sorted_pair a b) →
       state_after (get_support [a; b] cache_AB_ABC) = Ok cache_AB_ABC
       ∧ state_after (get_confidence a b cache_AB_ABC) = Ok cache_AB_ABC
       ∧ state_after (get_lift a b cache_AB_ABC) = Ok cache_AB_ABC)
  ∧ (∀ ms mc, state_after (get_updated_affinities ms mc cache_AB_ABC)
              = Ok cache_AB_ABC)
  ∧ state_after (get_statistics cache_AB_ABC) = Ok cache_AB_ABC.
Proof.
  apply queries_read_only_on_seen. apply ingested_batch, ingested_init.
Defined.

(** X17. Every row of the table that the rules query returns has a support that
    is at least [min_support], and sits in the table with its mirror image:
    the rule in the other direction, with the same support, one of the two
    with a confidence that is at least [min_confidence]; so the number of
    rows is even. *)
Theorem rules_table_mirrored (ms mc : Q) (c : t) :
  reachable c →
  ∃ df c',
    get_updated_affinities ms mc c = Ok (df, c')
    ∧ length (rows df)
      = (2 * length (filter (passes c ms mc)
                       (map_to_list (pair_counts c))))%nat
    ∧ ∀ r, r ∈ rows df →
        float_le (Finite ms) (support r) = true
        ∧ is_Some (pair_counts c
                   !! sorted_pair (product_a r) (product_b r))
        ∧ ∃ r', r' ∈ rows df
                ∧ product_a r' = product_b r ∧ product_b r' = product_a r
                ∧ support r' = support r
                ∧ (float_le (Finite mc) (confidence r) = true
                   ∨ float_le (Finite mc) (confidence r') = true).
Proof.
  intros Hc.
  pose proof (Invariants.reachable_well_formed c Hc) as Hwf.
  pose proof (Invariants.reachable_finite c Hc) as Hf.
  destruct (Queries.get_updated_affinities_eq ms mc c Hf Hwf)
    as (c' & -> & _).
  eexists _, c'. split; [done|]. rewrite rows_DataFrame_of_records.
  split.
  - apply length_flat_map_two. by intros [[a b] n].
  - intros r (e & [Hp He]%list_elem_of_filter & Hr)%elem_of_flat_map.
    destruct e as [[a b] n]. apply elem_of_map_to_list in He.
    destruct Hp as [Hs Hconf].
    assert (Hab : sorted_pair a b = (a, b)).
    { apply sorted_pair_sorted, Hwf. by rewrite He. }
    assert (Hmem : ∀ r0, r0 ∈ pair_rules c ((a, b), n) →
              r0 ∈ flat_map (pair_rules c)
                     (filter (passes c ms mc) (map_to_list (pair_counts c)))).
    { intros r0 Hr0. apply elem_of_flat_map. exists ((a, b), n).
      split; [|done]. apply list_elem_of_filter. split; [by split|].
      by apply elem_of_map_to_list. }
    simpl in Hr. apply elem_of_cons in Hr as [->|Hr]; simpl.
    + split; [done|]. split; [by rewrite Hab, He|].
      eexists. split; [apply Hmem; right; left|]. simpl. tauto.
    + apply elem_of_cons in Hr as [->|Hr%elem_of_nil]; [|done]. simpl.
      split; [done|]. split; [by rewrite sorted_pair_comm, Hab, He|].
      eexists. split; [apply Hmem; left|]. simpl. tauto.
Qed.

Lemma rules_table_mirrored_witness :
  ∃ df c',
    get_updated_affinities (1 # 2) (1 # 2) cache_AB_ABC = Ok (df, c')
    ∧ length (rows df)
      = (2 * length (filter (passes cache_AB_ABC (1 # 2) (1 # 2))
                       (map_to_list (pair_counts cache_AB_ABC))))%nat
    ∧ ∀ r, r ∈ rows df →
        float_le (Finite (1 # 2)) (support r) = true
        ∧ is_Some (pair_counts cache_AB_ABC
                   !! sorted_pair (product_a r) (product_b r))
        ∧ ∃ r', r' ∈ rows df
                ∧ product_a r' = product_b r ∧ product_b r' = product_a r
                ∧ support r' = support r
                ∧ (float_le (Finite (1 # 2)) (confidence r) = true
                   ∨ float_le (Finite (1 # 2)) (confidence r') = true).
Proof.
  apply rules_table_mirrored.
  apply reachable_batch, reachable_init.
Defined.

(** The same query on the five baskets with the thresholds one half and
    three quarters: both confidences round to [0.7499999999999999], and
    the table has no row. *)
Example rules_table_five_baskets :
  length (filter (passes (update_with_batch five_baskets init)
                    (1 # 2) (3 # 4))
            (map_to_list
               (pair_counts (update_with_batch five_baskets init))))
  = 0%nat.
Proof. by vm_compute. Qed.

End CacheMore.

(** * [analyze] with product names, and the number of pairs *)

Module AnalyzeMore.
Import AnalyzerSpec Sample.

Lemma names_foldl_missing (l : list (string * string))
    (d : gmap string string) (k : string) :
  k ∉ l.*1 →
  foldl (fun d row => <[fst row := snd row]> d) d l !! k = d !! k.
Proof.
  revert d. induction l as [|[k' v'] l IH]; intros d Hk; [done|].
  simpl in *. apply not_elem_of_cons in Hk as [Hne Hk].
  rewrite IH by done. by rewrite lookup_insert_ne.
Qed.

Lemma names_foldl_NoDup (l : list (string * string))
    (d : gmap string string) (k v : string) :
  NoDup l.*1 → (k, v) ∈ l →
  foldl (fun d row => <[fst row := snd row]> d) d l !! k = Some v.
Proof.
  revert d. induction l as [|[k' v'] l IH]; intros d Hnd Hin.
  { by apply elem_of_nil in Hin. }
  simpl in *. apply NoDup_cons in Hnd as [Hk' Hnd].
  apply elem_of_cons in Hin as [[= -> ->]|Hin].
  - rewrite names_foldl_missing by done. apply lookup_insert_eq.
  - by apply IH.
Qed.

(** X23. The dictionary of product names: a product that the table does not list
    has no name, a product listed once has the name of its row, and of two
    rows for one product the later one wins. *)
Theorem product_names_dict_spec (products_df : list (string * string)) :
  (∀ k, k ∉ products_df.*1 →
        MarketBasketAnalyzer.product_names_dict products_df !! k = None)
  ∧ (NoDup products_df.*1 →
     ∀ k v, (k, v) ∈ products_df →
            MarketBasketAnalyzer.product_names_dict products_df !! k = Some v)
  ∧ (∀ k v, MarketBasketAnalyzer.product_names_dict (products_df ++ [(k, v)])
            !! k = Some v).
Proof.
  unfold MarketBasketAnalyzer.product_names_dict. split_and!.
  - intros k Hk. by rewrite names_foldl_missing.
  - intros Hnd k v Hin. by apply names_foldl_NoDup.
  - intros k v. rewrite foldl_app. simpl. apply lookup_insert_eq.
Qed.

Lemma product_names_dict_spec_witness :
  MarketBasketAnalyzer.product_names_dict products !! "B" = Some "Bread"
  ∧ MarketBasketAnalyzer.product_names_dict products !! "Z" = None.
Proof.
  destruct (product_names_dict_spec products) as (Hnone & Hsome & _). split.
  - apply Hsome.
    + unfold products. simpl. repeat constructor;
        rewrite ?elem_of_cons, ?elem_of_nil; intros H;
        repeat destruct H as [H|H]; done.
    + unfold products. right. left.
  - apply Hnone. unfold products. simpl.
    rewrite !elem_of_cons, elem_of_nil. intros H.
    repeat destruct H as [H|H]; done.
Defined.

(** X24. When at least one rule passes, [analyze] with a product table returns
    the rows of [analyze] without one, in the same order and with the same
    metrics, each with the two names looked up in the dictionary (no name
    for a product that the table does not list, never an error), under two
    more columns. *)
Theorem analyze_with_names (line_items_df : list LineItem)
    (products_df : list (string * string)) (self : MarketBasketAnalyzer.t)
    (df0 : DataFrame) :
  MarketBasketAnalyzer.analyze line_items_df None self
    = Ok (df0, built line_items_df self) →
  rows df0 ≠ [] →
  ∃ df,
    MarketBasketAnalyzer.analyze line_items_df (Some products_df) self
      = Ok (df, built line_items_df self)
    ∧ columns df = columns df0 ++ ["product_a_name"; "product_b_name"]
    ∧ rows df =
        (fun r =>
           mkRule (product_a r) (product_b r) (support r) (confidence r)
             (lift r) (direction r)
             (MarketBasketAnalyzer.product_names_dict products_df
              !! product_a r)
             (MarketBasketAnalyzer.product_names_dict products_df
              !! product_b r))
        <$> rows df0.
Proof.
  rewrite Analyzer.analyze_None_eq, Analyzer.analyze_Some_eq.
  intros [= <-]. rewrite rows_DataFrame_of_records. intros Hne.
  destruct (flat_map _ _) as [|r rs]; [done|].
  eexists. split; [done|]. simpl. split; [done|].
  rewrite <- !list_fmap_compose. done.
Qed.

Lemma analyze_with_names_witness :
  ∃ df0 df,
    MarketBasketAnalyzer.analyze lines_AB_ABC None
      (MarketBasketAnalyzer.init (1 # 100) (1 # 10))
      = Ok (df0, built lines_AB_ABC
                   (MarketBasketAnalyzer.init (1 # 100) (1 # 10)))
    ∧ MarketBasketAnalyzer.analyze lines_AB_ABC (Some products)
        (MarketBasketAnalyzer.init (1 # 100) (1 # 10))
      = Ok (df, built lines_AB_ABC
                  (MarketBasketAnalyzer.init (1 # 100) (1 # 10)))
    ∧ columns df = columns df0 ++ ["product_a_name"; "product_b_name"]
    ∧ (product_a_name <$> rows df)
      = (fun r => MarketBasketAnalyzer.product_names_dict products
                  !! product_a r) <$> rows df0.
Proof.
  eexists.
  destruct (analyze_with_names lines_AB_ABC products
              (MarketBasketAnalyzer.init (1 # 100) (1 # 10)) _
              (Analyzer.analyze_None_eq lines_AB_ABC
                 (MarketBasketAnalyzer.init (1 # 100) (1 # 10))))
    as (df & Heq & Hcols & Hrows).
  { by vm_compute. }
  exists df. split; [apply Analyzer.analyze_None_eq|].
  split; [exact Heq|]. split; [exact Hcols|].
  rewrite Hrows, <- list_fmap_compose. done.
Defined.

Lemma length_combinations2 {A} (l : list A) :
  (2 * length (combinations2 l) = length l * (length l - 1))%nat.
Proof.
  induction l as [|x l IH]; [done|].
  simpl combinations2. rewrite length_app, length_map. simpl length. nia.
Qed.

Lemma length_sorted_elements (s : gset string) :
  length (sorted (elements s)) = size s.
Proof. by rewrite sorted_Permutation. Qed.

(** X25. Both paths enumerate each unordered pair of distinct products once, as
    a sorted tuple: a basket of [k] products makes [k (k - 1) / 2] updates
    of [pair_counts] (none when it has fewer than two products), and the
    analyzer tries [n (n - 1) / 2] candidate pairs for the [n] products of
    its baskets. *)
Theorem pair_enumeration_count (basket : gset string)
    (self : MarketBasketAnalyzer.t) :
  (2 * length (basket_pairs basket) = size basket * (size basket - 1))%nat
  ∧ NoDup (basket_pairs basket)
  ∧ (∀ x y, (x, y) ∈ basket_pairs basket ↔
            x ∈ basket ∧ y ∈ basket ∧ str_lt x y)
  ∧ (∃ all_products : gset string,
       (∀ x, x ∈ all_products ↔
             ∃ b, b ∈ MarketBasketAnalyzer.transaction_baskets self ∧ x ∈ b)
       ∧ (2 * length (MarketBasketAnalyzer.generate_product_pairs self)
          = size all_products * (size all_products - 1))%nat)
  ∧ NoDup (MarketBasketAnalyzer.generate_product_pairs self)
  ∧ (∀ x y, (x, y) ∈ MarketBasketAnalyzer.generate_product_pairs self ↔
            str_lt x y
            ∧ (∃ b, b ∈ MarketBasketAnalyzer.transaction_baskets self
                    ∧ x ∈ b)
            ∧ (∃ b, b ∈ MarketBasketAnalyzer.transaction_baskets self
                    ∧ y ∈ b)).
Proof.
  split_and!.
  - unfold basket_pairs.
    by rewrite index_pairs_combinations2, length_combinations2,
      length_sorted_elements.
  - apply NoDup_basket_pairs.
  - apply elem_of_basket_pairs.
  - eexists. split.
    + intros x. rewrite BatchCounts.elem_of_foldl_union.
      split; [|by right]. intros [H|H]; [|done].
      by apply not_elem_of_empty in H.
    + unfold MarketBasketAnalyzer.generate_product_pairs.
      by rewrite length_combinations2, length_sorted_elements.
  - apply BatchCounts.NoDup_generate_product_pairs.
  - apply BatchCounts.elem_of_generate_product_pairs.
Qed.

End AnalyzeMore.
